(** * system_diagram: connector binding, boundary resolution and the draw tool

    A shallow embedding of the editor's core (utils.js, shapes.js,
    connectors.js, history.js, tools.js) and the properties its
    specification states about it.

    Numbers.  JavaScript numbers are modelled as the real numbers of the
    Standard Library: [+], [-], [*], [/], [Math.sqrt], [Math.abs],
    [Math.cos], [Math.sin] and [Math.atan2] are the exact operations.
    Rounding, signed zeros, [Infinity] and [NaN] are outside the model;
    statements whose truth depends on a division are stated for boxes of
    positive width and height, where no division by zero occurs.

    Objects.  A shape object is a record with the fields [Shapes.create]
    gives it.  Arrays of shapes that the code mutates in place are lists
    threaded through the loops, updated by index.  The history stacks hold
    references; they are modelled over an explicit store (modules [Store]
    and [History]). *)

From Stdlib Require Import Reals Lra Lia ZArith String List.
From stdpp Require Import base option list strings gmap.
Import ListNotations.

Local Open Scope R_scope.

(** ** Platform functions *)

Module Math.

Definition abs (v : R) : R := Rabs v.
Definition sqrt (v : R) : R := R_sqrt.sqrt v.
Definition cos (a : R) : R := Rtrigo_def.cos a.
Definition sin (a : R) : R := Rtrigo_def.sin a.
Definition min (a b : R) : R := Rmin a b.
Definition max (a b : R) : R := Rmax a b.

(** [Math.atan2(y, x)]: the angle in (-PI, PI] of the vector (x, y). *)
Definition atan2 (vy vx : R) : R :=
  if Rlt_dec 0 vx then atan (vy / vx)
  else if Rlt_dec vx 0 then
    (if Rle_dec 0 vy then atan (vy / vx) + PI else atan (vy / vx) - PI)
  else if Rlt_dec 0 vy then PI / 2
  else if Rlt_dec vy 0 then - (PI / 2)
  else 0.

(** The comparisons [a <= b] and [a < b] as truth values. *)
Definition le (a b : R) : bool := if Rle_dec a b then true else false.
Definition lt (a b : R) : bool := if Rlt_dec a b then true else false.

End Math.

(** ** Records of the data model *)

Module Point.
Record t : Type := mk { x : R; y : R }.
End Point.

Module Bounds.
Record t : Type := mk { x : R; y : R; w : R; h : R }.
End Bounds.

(** A binding [{ shapeId, angle }]. *)
Module Binding.
Record t : Type := mk { shapeId : string; angle : R }.
End Binding.

(** The result [{ shapeId, angle, x, y }] of a snap query. *)
Module Snap.
Record t : Type := mk { shapeId : string; angle : R; x : R; y : R }.
End Snap.

Module Shape.

(** The object built by [Shapes.create]; [points], [startBinding] and
    [endBinding] are [null] ([None]) unless set. *)
Record t : Type := mk {
  id : string;
  type : string;
  x : R;
  y : R;
  width : R;
  height : R;
  strokeColor : string;
  fillColor : string;
  strokeWidth : R;
  opacity : R;
  rotation : R;
  points : option (list Point.t);
  text : string;
  fontSize : R;
  fontFamily : string;
  textVAlign : string;
  arrowHead : bool;
  edgeStyle : string;
  strokeDash : string;
  shapeFillStyle : string;
  startBinding : option Binding.t;
  endBinding : option Binding.t;
  seed : Z
}.

(** Field assignments [shape.f = v]. *)
Definition set_x (v : R) (s : t) : t :=
  mk (id s) (type s) v (y s) (width s) (height s) (strokeColor s)
     (fillColor s) (strokeWidth s) (opacity s) (rotation s) (points s)
     (text s) (fontSize s) (fontFamily s) (textVAlign s) (arrowHead s)
     (edgeStyle s) (strokeDash s) (shapeFillStyle s) (startBinding s)
     (endBinding s) (seed s).

Definition set_y (v : R) (s : t) : t :=
  mk (id s) (type s) (x s) v (width s) (height s) (strokeColor s)
     (fillColor s) (strokeWidth s) (opacity s) (rotation s) (points s)
     (text s) (fontSize s) (fontFamily s) (textVAlign s) (arrowHead s)
     (edgeStyle s) (strokeDash s) (shapeFillStyle s) (startBinding s)
     (endBinding s) (seed s).

Definition set_width (v : R) (s : t) : t :=
  mk (id s) (type s) (x s) (y s) v (height s) (strokeColor s)
     (fillColor s) (strokeWidth s) (opacity s) (rotation s) (points s)
     (text s) (fontSize s) (fontFamily s) (textVAlign s) (arrowHead s)
     (edgeStyle s) (strokeDash s) (shapeFillStyle s) (startBinding s)
     (endBinding s) (seed s).

Definition set_height (v : R) (s : t) : t :=
  mk (id s) (type s) (x s) (y s) (width s) v (strokeColor s)
     (fillColor s) (strokeWidth s) (opacity s) (rotation s) (points s)
     (text s) (fontSize s) (fontFamily s) (textVAlign s) (arrowHead s)
     (edgeStyle s) (strokeDash s) (shapeFillStyle s) (startBinding s)
     (endBinding s) (seed s).

Definition set_points (v : option (list Point.t)) (s : t) : t :=
  mk (id s) (type s) (x s) (y s) (width s) (height s) (strokeColor s)
     (fillColor s) (strokeWidth s) (opacity s) (rotation s) v
     (text s) (fontSize s) (fontFamily s) (textVAlign s) (arrowHead s)
     (edgeStyle s) (strokeDash s) (shapeFillStyle s) (startBinding s)
     (endBinding s) (seed s).

Definition set_text (v : string) (s : t) : t :=
  mk (id s) (type s) (x s) (y s) (width s) (height s) (strokeColor s)
     (fillColor s) (strokeWidth s) (opacity s) (rotation s) (points s)
     v (fontSize s) (fontFamily s) (textVAlign s) (arrowHead s)
     (edgeStyle s) (strokeDash s) (shapeFillStyle s) (startBinding s)
     (endBinding s) (seed s).

Definition set_startBinding (v : option Binding.t) (s : t) : t :=
  mk (id s) (type s) (x s) (y s) (width s) (height s) (strokeColor s)
     (fillColor s) (strokeWidth s) (opacity s) (rotation s) (points s)
     (text s) (fontSize s) (fontFamily s) (textVAlign s) (arrowHead s)
     (edgeStyle s) (strokeDash s) (shapeFillStyle s) v
     (endBinding s) (seed s).

Definition set_endBinding (v : option Binding.t) (s : t) : t :=
  mk (id s) (type s) (x s) (y s) (width s) (height s) (strokeColor s)
     (fillColor s) (strokeWidth s) (opacity s) (rotation s) (points s)
     (text s) (fontSize s) (fontFamily s) (textVAlign s) (arrowHead s)
     (edgeStyle s) (strokeDash s) (shapeFillStyle s) (startBinding s)
     v (seed s).

End Shape.

(** Membership of a string in a literal list: a [switch] over type names,
    [Set.has] on a literal set, [Array.includes]. *)
Definition includes (l : list string) (v : string) : bool :=
  existsb (String.eqb v) l.

(** ** utils.js *)

Module Utils.

Definition distance (x1 y1 x2 y2 : R) : R :=
  Math.sqrt ((x2 - x1) ^ 2 + (y2 - y1) ^ 2).

Definition normalizeBounds (x1 y1 x2 y2 : R) : Bounds.t :=
  Bounds.mk (Math.min x1 x2) (Math.min y1 y2)
            (Math.abs (x2 - x1)) (Math.abs (y2 - y1)).

Definition angle (x1 y1 x2 y2 : R) : R := Math.atan2 (y2 - y1) (x2 - x1).

Definition pointToSegmentDist (px py x1 y1 x2 y2 : R) : R :=
  let dx := x2 - x1 in
  let dy := y2 - y1 in
  let lenSq := dx * dx + dy * dy in
  if Req_dec_T lenSq 0 then distance px py x1 y1
  else
    let t := ((px - x1) * dx + (py - y1) * dy) / lenSq in
    let t := Math.max 0 (Math.min 1 t) in
    distance px py (x1 + t * dx) (y1 + t * dy).

Definition pointInRect (px py x y w h : R) : bool :=
  Math.le x px && Math.le px (x + w) && Math.le y py && Math.le py (y + h).

Definition pointInEllipse (px py cx cy rx ry : R) : bool :=
  Math.le ((px - cx) ^ 2 / rx ^ 2 + (py - cy) ^ 2 / ry ^ 2) 1.

Definition pointInDiamond (px py cx cy halfW halfH : R) : bool :=
  Math.le (Math.abs (px - cx) / halfW + Math.abs (py - cy) / halfH) 1.

Definition rectsOverlap (a b : Bounds.t) : bool :=
  negb (Math.lt (Bounds.x a + Bounds.w a) (Bounds.x b) ||
        Math.lt (Bounds.x b + Bounds.w b) (Bounds.x a) ||
        Math.lt (Bounds.y a + Bounds.h a) (Bounds.y b) ||
        Math.lt (Bounds.y b + Bounds.h b) (Bounds.y a)).

End Utils.

(** ** shapes.js *)

Module Shapes.

Definition CONTAINER_TYPES : list string :=
  [ "rectangle"; "ellipse"; "diamond";
    "database"; "queue"; "cache"; "server"; "cloud"; "firewall";
    "loadbalancer"; "apigateway"; "cdn"; "user"; "microservice";
    "pubsub"; "storage"; "function"; "container"; "eventbus";
    "browser"; "mobile"; "monitor"; "notification"; "auth";
    "externalapi"; "scheduler"; "logger"; "search"; "datawarehouse";
    "blobstorage"; "filestorage"; "queuestorage"; "tablestorage";
    "datalake"; "manageddisks";
    "azuresql"; "cosmosdb"; "azuremysql"; "azurepostgres";
    "sqlmanaged"; "rediscache"; "datafactory"; "synapse" ]%string.

(** [create(type, props)] before [props] is spread over the defaults;
    the fresh id and the random seed come from the environment. *)
Definition create (newId : string) (newSeed : Z) (type : string) : Shape.t :=
  Shape.mk newId type 0 0 0 0 "#1e1e1e" "transparent" 2 1 0 None
           "" 16 "Segoe UI, system-ui, sans-serif" "bottom"
           (String.eqb type "arrow") "sharp" "solid" "none" None None
           newSeed.

Definition isLineOrArrow (shape : Shape.t) : bool :=
  String.eqb (Shape.type shape) "line" || String.eqb (Shape.type shape) "arrow".

Definition storedBox (shape : Shape.t) : Bounds.t :=
  Bounds.mk (Shape.x shape) (Shape.y shape) (Shape.width shape) (Shape.height shape).

(** The box enclosing a non-empty point list.  The source folds
    [Math.min]/[Math.max] from [Infinity]/[-Infinity]; on a non-empty
    list that is the fold started at the first point. *)
Definition pointsBox (p : Point.t) (ps : list Point.t) : Bounds.t :=
  let minX := fold_left (fun m q => Math.min m (Point.x q)) ps (Point.x p) in
  let minY := fold_left (fun m q => Math.min m (Point.y q)) ps (Point.y p) in
  let maxX := fold_left (fun m q => Math.max m (Point.x q)) ps (Point.x p) in
  let maxY := fold_left (fun m q => Math.max m (Point.y q)) ps (Point.y p) in
  Bounds.mk minX minY (maxX - minX) (maxY - minY).

Definition getBounds (shape : Shape.t) : Bounds.t :=
  if isLineOrArrow shape then
    match Shape.points shape with
    | Some (p :: q :: ps) => pointsBox p (q :: ps)
    | _ => storedBox shape
    end
  else if String.eqb (Shape.type shape) "freehand" then
    match Shape.points shape with
    | Some (p :: ps) => pointsBox p ps
    | _ => storedBox shape
    end
  else storedBox shape.

(** [move(shape, dx, dy)]: a shape with a point list (an array is
    truthy, also when empty) has its points translated, any other shape
    its origin. *)
Definition move (shape : Shape.t) (dx dy : R) : Shape.t :=
  match Shape.points shape with
  | Some pts =>
      Shape.set_points
        (Some (map (fun p => Point.mk (Point.x p + dx) (Point.y p + dy)) pts))
        shape
  | None =>
      Shape.set_y (Shape.y shape + dy) (Shape.set_x (Shape.x shape + dx) shape)
  end.

Definition movePoint (p : Point.t) (dx dy : R) : Point.t :=
  Point.mk (Point.x p + dx) (Point.y p + dy).

(** The [switch (handle)] of [resize]; an unknown handle changes
    nothing. *)
Definition resizeBox (shape : Shape.t) (handle : string) (dx dy : R) : Shape.t :=
  let X := Shape.x shape in
  let Y := Shape.y shape in
  let W := Shape.width shape in
  let H := Shape.height shape in
  let box x' y' w' h' :=
    Shape.set_height h' (Shape.set_width w' (Shape.set_y y' (Shape.set_x x' shape))) in
  if String.eqb handle "nw" then box (X + dx) (Y + dy) (W - dx) (H - dy)
  else if String.eqb handle "n" then box X (Y + dy) W (H - dy)
  else if String.eqb handle "ne" then box X (Y + dy) (W + dx) (H - dy)
  else if String.eqb handle "e" then box X Y (W + dx) H
  else if String.eqb handle "se" then box X Y (W + dx) (H + dy)
  else if String.eqb handle "s" then box X Y W (H + dy)
  else if String.eqb handle "sw" then box (X + dx) Y (W - dx) (H + dy)
  else if String.eqb handle "w" then box (X + dx) Y (W - dx) H
  else shape.

(** "Enforce minimum size". *)
Definition enforceMinimumSize (shape : Shape.t) : Shape.t :=
  let s1 := if Rlt_dec (Shape.width shape) 10 then Shape.set_width 10 shape else shape in
  if Rlt_dec (Shape.height s1) 10 then Shape.set_height 10 s1 else s1.

(** [resize(shape, handle, dx, dy)].  [None] is the [TypeError] of
    reading [.x] of a missing endpoint (an empty point list). *)
Definition resize (shape : Shape.t) (handle : string) (dx dy : R) : option Shape.t :=
  match String.eqb handle "lineStart", Shape.points shape with
  | true, Some pts =>
      match pts !! 0%nat with
      | Some p => Some (Shape.set_points (Some (<[0%nat := movePoint p dx dy]> pts)) shape)
      | None => None
      end
  | _, _ =>
    match String.eqb handle "lineEnd", Shape.points shape with
    | true, Some pts =>
        match pts !! (length pts - 1)%nat with
        | Some p =>
            Some (Shape.set_points
                    (Some (<[(length pts - 1)%nat := movePoint p dx dy]> pts)) shape)
        | None => None
        end
    | _, _ => Some (enforceMinimumSize (resizeBox shape handle dx dy))
    end
  end.

Definition _rayRectFromCenter (cx cy tx ty halfW halfH : R) : Point.t :=
  let dx := tx - cx in
  let dy := ty - cy in
  let absDx := Math.abs dx in
  let absDy := Math.abs dy in
  let scale :=
    if Rgt_dec (absDx / halfW) (absDy / halfH) then halfW / absDx
    else halfH / absDy in
  match Req_dec_T dx 0, Req_dec_T dy 0 with
  | left _, left _ => Point.mk (cx + halfW) cy
  | _, _ => Point.mk (cx + dx * scale) (cy + dy * scale)
  end.

Definition _rayEllipseFromCenter (cx cy tx ty rx ry : R) : Point.t :=
  let dx := tx - cx in
  let dy := ty - cy in
  let angle := Math.atan2 dy dx in
  match Req_dec_T dx 0, Req_dec_T dy 0 with
  | left _, left _ => Point.mk (cx + rx) cy
  | _, _ => Point.mk (cx + rx * Math.cos angle) (cy + ry * Math.sin angle)
  end.

Definition _rayDiamondFromCenter (cx cy tx ty halfW halfH : R) : Point.t :=
  let dx := tx - cx in
  let dy := ty - cy in
  let scale := 1 / (Math.abs dx / halfW + Math.abs dy / halfH) in
  match Req_dec_T dx 0, Req_dec_T dy 0 with
  | left _, left _ => Point.mk cx (cy - halfH)
  | _, _ => Point.mk (cx + dx * scale) (cy + dy * scale)
  end.

(** The [case] labels of [getBoundaryPoint], by the helper they reach. *)
Definition RECT_CASES : list string :=
  [ "rectangle"; "database"; "queue"; "cache"; "server"; "firewall";
    "loadbalancer"; "apigateway"; "cdn"; "pubsub"; "storage"; "function";
    "container"; "eventbus"; "browser"; "mobile"; "monitor";
    "notification"; "auth"; "externalapi"; "scheduler"; "logger";
    "search"; "datawarehouse" ]%string.
Definition ELLIPSE_CASES : list string := [ "ellipse"; "cloud"; "user" ]%string.
Definition DIAMOND_CASES : list string := [ "diamond"; "microservice" ]%string.

Definition getBoundaryPoint (shape : Shape.t) (targetX targetY : R) : Point.t :=
  let b := getBounds shape in
  let cx := Bounds.x b + Bounds.w b / 2 in
  let cy := Bounds.y b + Bounds.h b / 2 in
  if includes RECT_CASES (Shape.type shape) then
    _rayRectFromCenter cx cy targetX targetY (Bounds.w b / 2) (Bounds.h b / 2)
  else if includes ELLIPSE_CASES (Shape.type shape) then
    _rayEllipseFromCenter cx cy targetX targetY (Bounds.w b / 2) (Bounds.h b / 2)
  else if includes DIAMOND_CASES (Shape.type shape) then
    _rayDiamondFromCenter cx cy targetX targetY (Bounds.w b / 2) (Bounds.h b / 2)
  else
    _rayRectFromCenter cx cy targetX targetY (Bounds.w b / 2) (Bounds.h b / 2).

Definition far : R := 10000.

Definition getBoundaryPointFromAngle (shape : Shape.t) (angle : R) : Point.t :=
  let b := getBounds shape in
  let cx := Bounds.x b + Bounds.w b / 2 in
  let cy := Bounds.y b + Bounds.h b / 2 in
  getBoundaryPoint shape (cx + Math.cos angle * far) (cy + Math.sin angle * far).

(** The object [{ top, bottom, left, right, center }] of [getAnchors]. *)
Record Anchors : Type :=
  mkAnchors { top : Point.t; bottom : Point.t; left : Point.t; right : Point.t;
              center : Point.t }.

Definition getAnchors (shape : Shape.t) : Anchors :=
  let b := getBounds shape in
  mkAnchors
    (Point.mk (Bounds.x b + Bounds.w b / 2) (Bounds.y b))
    (Point.mk (Bounds.x b + Bounds.w b / 2) (Bounds.y b + Bounds.h b))
    (Point.mk (Bounds.x b) (Bounds.y b + Bounds.h b / 2))
    (Point.mk (Bounds.x b + Bounds.w b) (Bounds.y b + Bounds.h b / 2))
    (Point.mk (Bounds.x b + Bounds.w b / 2) (Bounds.y b + Bounds.h b / 2)).

(** The loop over the segments of a point list in [hitTest]: whether
    some segment [points[i], points[i + 1]] is within [limit] of the
    point. *)
Definition segmentWithin (pts : list Point.t) (px py limit : R) : bool :=
  existsb
    (fun i =>
       match pts !! i, pts !! S i with
       | Some a, Some b =>
           Math.le (Utils.pointToSegmentDist px py (Point.x a) (Point.y a)
                                             (Point.x b) (Point.y b)) limit
       | _, _ => false
       end)
    (seq 0 (length pts - 1)).

(** The [case] labels of [hitTest] that test the box. *)
Definition HIT_RECT_CASES : list string :=
  [ "rectangle"; "text"; "database"; "queue"; "cache"; "server"; "firewall";
    "loadbalancer"; "apigateway"; "cdn"; "pubsub"; "storage"; "function";
    "container"; "eventbus"; "browser"; "mobile"; "monitor";
    "notification"; "auth"; "externalapi"; "scheduler"; "logger";
    "search"; "datawarehouse" ]%string.

Definition hitTest (shape : Shape.t) (px py tolerance : R) : bool :=
  let b := getBounds shape in
  let cx := Bounds.x b + Bounds.w b / 2 in
  let cy := Bounds.y b + Bounds.h b / 2 in
  let box :=
    Utils.pointInRect px py (Bounds.x b - tolerance) (Bounds.y b - tolerance)
                      (Bounds.w b + tolerance * 2) (Bounds.h b + tolerance * 2) in
  if includes HIT_RECT_CASES (Shape.type shape) then box
  else if includes ELLIPSE_CASES (Shape.type shape) then
    Utils.pointInEllipse px py cx cy (Bounds.w b / 2 + tolerance) (Bounds.h b / 2 + tolerance)
  else if includes DIAMOND_CASES (Shape.type shape) then
    Utils.pointInDiamond px py cx cy (Bounds.w b / 2 + tolerance) (Bounds.h b / 2 + tolerance)
  else if isLineOrArrow shape then
    match Shape.points shape with
    | Some pts =>
        if (2 <=? length pts)%nat
        then segmentWithin pts px py (tolerance + Shape.strokeWidth shape)
        else false
    | None => false
    end
  else if String.eqb (Shape.type shape) "freehand" then
    match Shape.points shape with
    | Some pts =>
        if (2 <=? length pts)%nat
        then segmentWithin pts px py (tolerance + Shape.strokeWidth shape + 2)
        else false
    | None => false
    end
  else box.

(** The entries of the object [handles], in the order of
    [Object.entries]. *)
Definition handles (b : Bounds.t) : list (string * Point.t) :=
  [ ("nw", Point.mk (Bounds.x b) (Bounds.y b));
    ("n", Point.mk (Bounds.x b + Bounds.w b / 2) (Bounds.y b));
    ("ne", Point.mk (Bounds.x b + Bounds.w b) (Bounds.y b));
    ("e", Point.mk (Bounds.x b + Bounds.w b) (Bounds.y b + Bounds.h b / 2));
    ("se", Point.mk (Bounds.x b + Bounds.w b) (Bounds.y b + Bounds.h b));
    ("s", Point.mk (Bounds.x b + Bounds.w b / 2) (Bounds.y b + Bounds.h b));
    ("sw", Point.mk (Bounds.x b) (Bounds.y b + Bounds.h b));
    ("w", Point.mk (Bounds.x b) (Bounds.y b + Bounds.h b / 2)) ]%string.

(** [getHandleAtPoint(shape, px, py, handleSize)]; [None] is [null]. *)
Definition getHandleAtPoint (shape : Shape.t) (px py handleSize : R) : option string :=
  if String.eqb (Shape.type shape) "freehand" then None
  else
    let b := getBounds shape in
    let hs := handleSize in
    if isLineOrArrow shape then
      match Shape.points shape with
      | Some pts =>
          if (2 <=? length pts)%nat then
            match pts !! 0%nat, pts !! (length pts - 1)%nat with
            | Some startP, Some endP =>
                if Math.le (Utils.distance px py (Point.x startP) (Point.y startP)) hs
                then Some "lineStart"%string
                else if Math.le (Utils.distance px py (Point.x endP) (Point.y endP)) hs
                then Some "lineEnd"%string
                else None
            | _, _ => None
            end
          else None
      | None => None
      end
    else
      match List.find (fun entry => Math.le (Utils.distance px py (Point.x (snd entry))
                                                           (Point.y (snd entry))) hs)
                      (handles b) with
      | Some (name, _) => Some name
      | None => None
      end.

End Shapes.

(** ** In-place loops over an array

    [for (const shape of shapes) { ... }] whose body assigns to fields of
    [shape] and reads [shapes] again: the array is threaded through the
    iterations, the body at index [i] returns the array with entry [i]
    replaced.  The array's length never changes in these loops. *)

Definition forOf {A : Type} (body : nat -> list A -> list A) (l : list A) : list A :=
  fold_left (fun cur i => body i cur) (seq 0 (length l)) l.

(** ** connectors.js *)

Module Connectors.

Definition SNAP_DISTANCE : R := 20.

(** The types skipped by the snap query. *)
Definition NOT_CONNECTABLE : list string := [ "line"; "arrow"; "freehand"; "text" ]%string.

Definition centerX (shape : Shape.t) : R :=
  Bounds.x (Shapes.getBounds shape) + Bounds.w (Shapes.getBounds shape) / 2.
Definition centerY (shape : Shape.t) : R :=
  Bounds.y (Shapes.getBounds shape) + Bounds.h (Shapes.getBounds shape) / 2.

(** The snap record built for [shape] when it becomes the best match. *)
Definition snapOf (shape : Shape.t) (worldX worldY : R) : Snap.t :=
  let bp := Shapes.getBoundaryPoint shape worldX worldY in
  Snap.mk (Shape.id shape)
          (Math.atan2 (Point.y bp - centerY shape) (Point.x bp - centerX shape))
          (Point.x bp) (Point.y bp).

(** One iteration of the loop of [findNearestBoundaryPoint], on the pair
    [(best, bestDist)].  [getBoundaryPoint] always returns a point, so
    the test [!bp] never holds. *)
Definition nearestStep (worldX worldY : R) (excludeIds : list string)
    (acc : option Snap.t * R) (shape : Shape.t) : option Snap.t * R :=
  if includes excludeIds (Shape.id shape) then acc
  else if includes NOT_CONNECTABLE (Shape.type shape) then acc
  else
    let bp := Shapes.getBoundaryPoint shape worldX worldY in
    let d := Utils.distance worldX worldY (Point.x bp) (Point.y bp) in
    if Rlt_dec d (snd acc) then (Some (snapOf shape worldX worldY), d)
    else acc.

Definition findNearestBoundaryPoint (shapes : list Shape.t) (worldX worldY : R)
    (excludeIds : list string) : option Snap.t :=
  fst (fold_left (nearestStep worldX worldY excludeIds) shapes (None, SNAP_DISTANCE)).

(** [shapes.find(s => s.id === id)] *)
Definition findById (shapes : list Shape.t) (id : string) : option Shape.t :=
  List.find (fun s => String.eqb (Shape.id s) id) shapes.

(** [!shape.points || shape.points.length < 2] is false *)
Definition hasTwoPoints (shape : Shape.t) : bool :=
  match Shape.points shape with
  | Some pts => (2 <=? length pts)%nat
  | None => false
  end.

(** [shape.points[0] = pt] and [shape.points[shape.points.length - 1] = pt],
    reached only with at least two points: both are in range. *)
Definition setFirstPoint (pt : Point.t) (shape : Shape.t) : Shape.t :=
  match Shape.points shape with
  | Some pts => Shape.set_points (Some (<[0%nat := pt]> pts)) shape
  | None => shape
  end.

Definition setLastPoint (pt : Point.t) (shape : Shape.t) : Shape.t :=
  match Shape.points shape with
  | Some pts => Shape.set_points (Some (<[(length pts - 1)%nat := pt]> pts)) shape
  | None => shape
  end.

(** The two [if] blocks of the body of [updateBindings], each on the
    array as the previous statements left it. *)
Definition updateStart (movedShapeId : string) (i : nat) (shapes : list Shape.t)
    : list Shape.t :=
  match shapes !! i with
  | Some shape =>
      match Shape.startBinding shape with
      | Some b =>
          if String.eqb (Binding.shapeId b) movedShapeId then
            match findById shapes movedShapeId with
            | Some target =>
                let pt := Shapes.getBoundaryPointFromAngle target (Binding.angle b) in
                <[i := setFirstPoint pt shape]> shapes
            | None => shapes
            end
          else shapes
      | None => shapes
      end
  | None => shapes
  end.

Definition updateEnd (movedShapeId : string) (i : nat) (shapes : list Shape.t)
    : list Shape.t :=
  match shapes !! i with
  | Some shape =>
      match Shape.endBinding shape with
      | Some b =>
          if String.eqb (Binding.shapeId b) movedShapeId then
            match findById shapes movedShapeId with
            | Some target =>
                let pt := Shapes.getBoundaryPointFromAngle target (Binding.angle b) in
                <[i := setLastPoint pt shape]> shapes
            | None => shapes
            end
          else shapes
      | None => shapes
      end
  | None => shapes
  end.

Definition updateBindingsAt (movedShapeId : string) (i : nat) (shapes : list Shape.t)
    : list Shape.t :=
  match shapes !! i with
  | Some shape =>
      if Shapes.isLineOrArrow shape && hasTwoPoints shape
      then updateEnd movedShapeId i (updateStart movedShapeId i shapes)
      else shapes
  | None => shapes
  end.

Definition updateBindings (shapes : list Shape.t) (movedShapeId : string) : list Shape.t :=
  forOf (updateBindingsAt movedShapeId) shapes.

(** The two [if] blocks of the body of [resolveAllBindings]. *)
Definition resolveStart (i : nat) (shapes : list Shape.t) : list Shape.t :=
  match shapes !! i with
  | Some shape =>
      match Shape.startBinding shape with
      | Some b =>
          match findById shapes (Binding.shapeId b) with
          | Some target =>
              let pt := Shapes.getBoundaryPointFromAngle target (Binding.angle b) in
              <[i := setFirstPoint pt shape]> shapes
          | None => <[i := Shape.set_startBinding None shape]> shapes
          end
      | None => shapes
      end
  | None => shapes
  end.

Definition resolveEnd (i : nat) (shapes : list Shape.t) : list Shape.t :=
  match shapes !! i with
  | Some shape =>
      match Shape.endBinding shape with
      | Some b =>
          match findById shapes (Binding.shapeId b) with
          | Some target =>
              let pt := Shapes.getBoundaryPointFromAngle target (Binding.angle b) in
              <[i := setLastPoint pt shape]> shapes
          | None => <[i := Shape.set_endBinding None shape]> shapes
          end
      | None => shapes
      end
  | None => shapes
  end.

Definition resolveAllBindingsAt (i : nat) (shapes : list Shape.t) : list Shape.t :=
  match shapes !! i with
  | Some shape =>
      if Shapes.isLineOrArrow shape && hasTwoPoints shape
      then resolveEnd i (resolveStart i shapes)
      else shapes
  | None => shapes
  end.

Definition resolveAllBindings (shapes : list Shape.t) : list Shape.t :=
  forOf resolveAllBindingsAt shapes.

End Connectors.

(** ** history.js

    The stacks hold arrays that [Utils.deepClone] built; the caller keeps
    references to its own arrays and shape objects and goes on mutating
    them.  The store makes this explicit: a cell is a shape object or an
    array of addresses, allocation appends a cell, and an in-place
    mutation overwrites a cell. *)

Module Store.

Inductive cell : Type :=
| Obj (shape : Shape.t)
| Arr (elems : list nat).

Abbreviation t := (list cell).

Definition readShape (h : t) (l : nat) : option Shape.t :=
  match h !! l with
  | Some (Obj shape) => Some shape
  | _ => None
  end.

(** The structural value of the array at address [a]. *)
Definition readArray (h : t) (a : nat) : option (list Shape.t) :=
  match h !! a with
  | Some (Arr elems) => mapM (readShape h) elems
  | _ => None
  end.

(** [Utils.deepClone(obj)], i.e. [JSON.parse(JSON.stringify(obj))], on an
    array of shapes: a fresh object per entry and a fresh array of them.
    [None] when [a] is no array of shapes. *)
Definition deepClone (h : t) (a : nat) : option (t * nat) :=
  match readArray h a with
  | Some v =>
      let base := length h in
      Some (h ++ map Obj v ++ [Arr (seq base (length v))], (base + length v)%nat)
  | None => None
  end.

End Store.

Module History.

Definition MAX_STACK : nat := 100.

(** [undoStack] and [redoStack]: arrays of references, newest last. *)
Record t : Type := mk { undoStack : list nat; redoStack : list nat }.

Definition empty : t := mk [] [].

(** [undoStack.shift()] past the cap. *)
Definition capped {A : Type} (stack : list A) : list A :=
  if (MAX_STACK <? length stack)%nat then tail stack else stack.

Definition push (h : Store.t) (hist : t) (shapes : nat) : option (Store.t * t) :=
  match Store.deepClone h shapes with
  | Some (h', c) => Some (h', mk (capped (undoStack hist ++ [c])) [])
  | None => None
  end.

(** [undo(currentShapes)]; the last component is the returned reference,
    [None] for [null]. *)
Definition undo (h : Store.t) (hist : t) (currentShapes : nat)
    : option (Store.t * t * option nat) :=
  match undoStack hist with
  | [] => Some (h, hist, None)
  | _ :: _ =>
      match Store.deepClone h currentShapes with
      | Some (h', c) =>
          Some (h', mk (removelast (undoStack hist)) (redoStack hist ++ [c]),
                last (undoStack hist))
      | None => None
      end
  end.

Definition redo (h : Store.t) (hist : t) (currentShapes : nat)
    : option (Store.t * t * option nat) :=
  match redoStack hist with
  | [] => Some (h, hist, None)
  | _ :: _ =>
      match Store.deepClone h currentShapes with
      | Some (h', c) =>
          Some (h', mk (undoStack hist ++ [c]) (removelast (redoStack hist)),
                last (redoStack hist))
      | None => None
      end
  end.

(** Every stacked reference is an array of shapes in the store. *)
Definition wf (h : Store.t) (hist : t) : Prop :=
  forall a, In a (undoStack hist ++ redoStack hist) -> is_Some (Store.readArray h a).


(** The stacks by value: the snapshots a sequence of calls has stored. *)
Record snapshots : Type :=
  mkSnapshots { undoValues : list (list Shape.t); redoValues : list (list Shape.t) }.

Definition pushValue (s : snapshots) (shapes : list Shape.t) : snapshots :=
  mkSnapshots (capped (undoValues s ++ [shapes])) [].

Definition canUndo (hist : t) : bool := (0 <? length (undoStack hist))%nat.
Definition canRedo (hist : t) : bool := (0 <? length (redoStack hist))%nat.

Definition clear (hist : t) : t := mk [] [].

(** [undo] and [redo] on the snapshots by value: the new stacks and the
    snapshot returned, [None] for [null]. *)
Definition undoValue (s : snapshots) (currentShapes : list Shape.t)
    : snapshots * option (list Shape.t) :=
  match undoValues s with
  | [] => (s, None)
  | _ :: _ =>
      (mkSnapshots (removelast (undoValues s)) (redoValues s ++ [currentShapes]),
       last (undoValues s))
  end.

Definition redoValue (s : snapshots) (currentShapes : list Shape.t)
    : snapshots * option (list Shape.t) :=
  match redoValues s with
  | [] => (s, None)
  | _ :: _ =>
      (mkSnapshots (undoValues s ++ [currentShapes]) (removelast (redoValues s)),
       last (redoValues s))
  end.

End History.

(** ** tools.js

    The module's closure variables are the fields of [Tools.State].  The
    handlers take world coordinates (the result of
    [CanvasView.screenToWorld]); rendering and the tool-change callback
    have no effect on the state and are left out.  The history is kept by
    value: a snapshot stored by [History.push] is a deep copy that nothing
    else refers to.  No in-shape or standalone text edit is open during a
    draw gesture ([setTool] closed it when the drawing tool was chosen), so
    [finishTextEditing] returns at once. *)

Module Tools.

Record State : Type := mk {
  currentTool : string;
  shapes : list Shape.t;
  selectedIds : gset string;
  isDragging : bool;
  dragType : option string;
  dragStartWorld : option Point.t;
  drawingShape : option Shape.t;
  (** the property [_hoverSnap] of the shape being drawn *)
  _hoverSnap : option Snap.t;
  strokeColor : string;
  fillColor : string;
  fillEnabled : bool;
  strokeWidth : R;
  edgeStyle : string;
  strokeDash : string;
  shapeFillStyle : string;
  pendingShapeLabel : option string;
  history : History.snapshots
}.

Definition initial : State :=
  mk "select" [] ∅ false None None None None
     "#1e1e1e" "#ffffff" false (1 / 2) "sharp" "solid" "none" None
     (History.mkSnapshots [] []).

(** The drawable container tools: the [case] labels of [onPointerDown]
    and [handleDrawMove]. *)
Definition DRAW_CASES : list string :=
  [ "rectangle"; "ellipse"; "diamond"; "database"; "queue"; "cache";
    "server"; "cloud"; "firewall"; "loadbalancer"; "apigateway"; "cdn";
    "user"; "microservice"; "pubsub"; "storage"; "function"; "container";
    "eventbus"; "browser"; "mobile"; "monitor"; "notification"; "auth";
    "externalapi"; "scheduler"; "logger"; "search"; "datawarehouse" ]%string.

Definition isLineOrArrowType (type : string) : bool :=
  String.eqb type "line" || String.eqb type "arrow".

Definition withDrawing (st : State) (start : Point.t) (shape : Shape.t) : State :=
  mk (currentTool st) (shapes st) (selectedIds st) true (Some "draw"%string)
     (Some start) (Some shape) None
     (strokeColor st) (fillColor st) (fillEnabled st) (strokeWidth st)
     (edgeStyle st) (strokeDash st) (shapeFillStyle st)
     (pendingShapeLabel st) (history st).

Definition withDrawingShape (st : State) (shape : Shape.t) (snap : option Snap.t) : State :=
  mk (currentTool st) (shapes st) (selectedIds st) (isDragging st) (dragType st)
     (dragStartWorld st) (Some shape) snap
     (strokeColor st) (fillColor st) (fillEnabled st) (strokeWidth st)
     (edgeStyle st) (strokeDash st) (shapeFillStyle st)
     (pendingShapeLabel st) (history st).

(** [onPointerDown] with the primary button and a drawing tool current.
    [None]: the select and text tools, whose handlers are not part of
    this model.  Any other tool (hand) starts nothing. *)
Definition onPointerDown (st : State) (world : Point.t) (newId : string) (newSeed : Z)
    : option State :=
  let tool := currentTool st in
  let base := Shapes.create newId newSeed tool in
  if String.eqb tool "select" || String.eqb tool "text" then None
  else if includes DRAW_CASES tool then
    Some (withDrawing st world
      (Shape.mk (Shape.id base) (Shape.type base) (Point.x world) (Point.y world) 0 0
         (strokeColor st) (if fillEnabled st then fillColor st else "transparent"%string)
         (strokeWidth st) (Shape.opacity base) (Shape.rotation base) (Shape.points base)
         (Shape.text base) (Shape.fontSize base) (Shape.fontFamily base)
         (Shape.textVAlign base) (Shape.arrowHead base)
         (edgeStyle st) (strokeDash st) (shapeFillStyle st)
         (Shape.startBinding base) (Shape.endBinding base) (Shape.seed base)))
  else if isLineOrArrowType tool then
    let startSnap :=
      Connectors.findNearestBoundaryPoint (shapes st) (Point.x world) (Point.y world) [] in
    let startPt :=
      match startSnap with
      | Some sn => Point.mk (Snap.x sn) (Snap.y sn)
      | None => world
      end in
    let startBinding :=
      match startSnap with
      | Some sn => Some (Binding.mk (Snap.shapeId sn) (Snap.angle sn))
      | None => None
      end in
    Some (withDrawing st world
      (Shape.mk (Shape.id base) (Shape.type base) (Shape.x base) (Shape.y base)
         (Shape.width base) (Shape.height base)
         (strokeColor st) (Shape.fillColor base)
         (strokeWidth st) (Shape.opacity base) (Shape.rotation base)
         (Some [startPt; startPt])
         (Shape.text base) (Shape.fontSize base) (Shape.fontFamily base)
         (Shape.textVAlign base) (String.eqb tool "arrow")
         (Shape.edgeStyle base) (strokeDash st) (Shape.shapeFillStyle base)
         startBinding (Shape.endBinding base) (Shape.seed base)))
  else if String.eqb tool "freehand" then
    let base := Shapes.create newId newSeed "freehand" in
    Some (withDrawing st world
      (Shape.mk (Shape.id base) (Shape.type base) (Shape.x base) (Shape.y base)
         (Shape.width base) (Shape.height base)
         (strokeColor st) (Shape.fillColor base)
         (strokeWidth st) (Shape.opacity base) (Shape.rotation base)
         (Some [world])
         (Shape.text base) (Shape.fontSize base) (Shape.fontFamily base)
         (Shape.textVAlign base) (Shape.arrowHead base)
         (Shape.edgeStyle base) (strokeDash st) (Shape.shapeFillStyle base)
         (Shape.startBinding base) (Shape.endBinding base) (Shape.seed base)))
  else
    Some (mk (currentTool st) (shapes st) (selectedIds st) (isDragging st)
            (dragType st) (Some world) (drawingShape st) (_hoverSnap st)
            (strokeColor st) (fillColor st) (fillEnabled st) (strokeWidth st)
            (edgeStyle st) (strokeDash st) (shapeFillStyle st)
            (pendingShapeLabel st) (history st)).

(** [handleDrawMove(world)].  [None] is a [TypeError]: no drag start, or
    no point list on a line, arrow or freehand being drawn.
    [points[1] = p] is in range: a line or arrow being drawn has the two
    points [onPointerDown] gave it. *)
Definition handleDrawMove (st : State) (world : Point.t) : option State :=
  match drawingShape st with
  | None => Some st
  | Some d =>
      if includes DRAW_CASES (Shape.type d) then
        match dragStartWorld st with
        | Some start =>
            let bounds :=
              Utils.normalizeBounds (Point.x start) (Point.y start)
                                    (Point.x world) (Point.y world) in
            Some (withDrawingShape st
                    (Shape.set_height (Bounds.h bounds)
                      (Shape.set_width (Bounds.w bounds)
                        (Shape.set_y (Bounds.y bounds)
                          (Shape.set_x (Bounds.x bounds) d))))
                    (_hoverSnap st))
        | None => None
        end
      else if isLineOrArrowType (Shape.type d) then
        let endSnap :=
          Connectors.findNearestBoundaryPoint (shapes st) (Point.x world) (Point.y world)
            (match Shape.startBinding d with
             | Some b => [Binding.shapeId b]
             | None => []
             end) in
        match Shape.points d with
        | Some pts =>
            match endSnap with
            | Some sn =>
                Some (withDrawingShape st
                        (Shape.set_points
                           (Some (<[1%nat := Point.mk (Snap.x sn) (Snap.y sn)]> pts)) d)
                        (Some sn))
            | None =>
                Some (withDrawingShape st
                        (Shape.set_points (Some (<[1%nat := world]> pts)) d) None)
            end
        | None => None
        end
      else if String.eqb (Shape.type d) "freehand" then
        match Shape.points d with
        | Some pts => Some (withDrawingShape st (Shape.set_points (Some (pts ++ [world])) d)
                                             (_hoverSnap st))
        | None => None
        end
      else Some st
  end.

(** [setTool(tool)] with no text edit open. *)
Definition setTool (st : State) (tool : string) : State :=
  mk tool (shapes st)
     (if String.eqb tool "select" then selectedIds st else ∅)
     (isDragging st) (dragType st) (dragStartWorld st) (drawingShape st)
     (_hoverSnap st)
     (strokeColor st) (fillColor st) (fillEnabled st) (strokeWidth st)
     (edgeStyle st) (strokeDash st) (shapeFillStyle st)
     (pendingShapeLabel st) (history st).

(** The test "Reject tiny shapes" of [finishDraw]: [Some tooSmall], or
    [None] for the [TypeError] of a line or arrow with fewer than two
    points. *)
Definition tooSmall (d : Shape.t) : option bool :=
  if includes Shapes.CONTAINER_TYPES (Shape.type d) then
    Some (if Rlt_dec (Shape.width d) 5
          then (if Rlt_dec (Shape.height d) 5 then true else false)
          else false)
  else
    match isLineOrArrowType (Shape.type d), Shape.points d with
    | true, Some pts =>
        match pts !! 0%nat, pts !! 1%nat with
        | Some p0, Some p1 =>
            Some (if Rlt_dec (Utils.distance (Point.x p0) (Point.y p0)
                                             (Point.x p1) (Point.y p1)) 5
                  then true else false)
        | _, _ => None
        end
    | _, _ =>
        match String.eqb (Shape.type d) "freehand", Shape.points d with
        | true, Some pts => Some (length pts <? 3)%nat
        | _, _ => Some false
        end
    end.

(** The shape as [finishDraw] commits it: the end binding taken from
    [_hoverSnap], the pending label applied.  The test
    [pendingShapeLabel && ...] fails for [null] and for the empty
    string. *)
Definition committed (st : State) (d : Shape.t) : Shape.t :=
  let d1 :=
    match isLineOrArrowType (Shape.type d), _hoverSnap st with
    | true, Some sn =>
        Shape.set_endBinding (Some (Binding.mk (Snap.shapeId sn) (Snap.angle sn))) d
    | _, _ => d
    end in
  match pendingShapeLabel st with
  | Some label =>
      if negb (String.eqb label "") && includes Shapes.CONTAINER_TYPES (Shape.type d1)
      then Shape.set_text label d1
      else d1
  | None => d1
  end.

Definition finishDraw (st : State) : option State :=
  match drawingShape st with
  | None => Some st
  | Some d =>
      match tooSmall d with
      | None => None
      | Some true => Some (setTool st "select")
      | Some false =>
          let d' := committed st d in
          Some (setTool
                  (mk (currentTool st) (shapes st ++ [d']) {[ Shape.id d' ]}
                      (isDragging st) (dragType st) (dragStartWorld st)
                      (Some d') None
                      (strokeColor st) (fillColor st) (fillEnabled st) (strokeWidth st)
                      (edgeStyle st) (strokeDash st) (shapeFillStyle st)
                      (pendingShapeLabel st)
                      (History.pushValue (history st) (shapes st)))
                  "select")
      end
  end.

(** [onPointerUp] at the end of a draw gesture.  [None] also for the
    other drag kinds, whose handlers are not part of this model. *)
Definition onPointerUp (st : State) : option State :=
  if isDragging st then
    match dragType st with
    | Some "draw"%string =>
        match finishDraw st with
        | Some st1 =>
            Some (mk (currentTool st1) (shapes st1) (selectedIds st1) false None
                     (dragStartWorld st1) None None
                     (strokeColor st1) (fillColor st1) (fillEnabled st1) (strokeWidth st1)
                     (edgeStyle st1) (strokeDash st1) (shapeFillStyle st1)
                     (pendingShapeLabel st1) (history st1))
        | None => None
        end
    | _ => None
    end
  else Some st.

(** The loop of [deleteSelected] on one shape: it reads no other shape. *)
Definition cleanBindings (deletedIds : gset string) (shape : Shape.t) : Shape.t :=
  if bool_decide (Shape.id shape ∈ deletedIds) then shape
  else
    let s1 :=
      match Shape.startBinding shape with
      | Some b =>
          if bool_decide (Binding.shapeId b ∈ deletedIds)
          then Shape.set_startBinding None shape else shape
      | None => shape
      end in
    match Shape.endBinding s1 with
    | Some b =>
        if bool_decide (Binding.shapeId b ∈ deletedIds)
        then Shape.set_endBinding None s1 else s1
    | None => s1
    end.

Definition deleteSelected (st : State) : State :=
  if bool_decide (size (selectedIds st) = 0%nat) then st
  else
    let deletedIds := selectedIds st in
    mk (currentTool st)
       (List.filter (fun s => negb (bool_decide (Shape.id s ∈ selectedIds st)))
                    (map (cleanBindings deletedIds) (shapes st)))
       ∅
       (isDragging st) (dragType st) (dragStartWorld st) (drawingShape st)
       (_hoverSnap st)
       (strokeColor st) (fillColor st) (fillEnabled st) (strokeWidth st)
       (edgeStyle st) (strokeDash st) (shapeFillStyle st)
       (pendingShapeLabel st)
       (History.pushValue (history st) (shapes st)).

(** The state with a new shape list, selection and history. *)
Definition withShapes (st : State) (newShapes : list Shape.t) (sel : gset string)
    (hist : History.snapshots) : State :=
  mk (currentTool st) newShapes sel
     (isDragging st) (dragType st) (dragStartWorld st) (drawingShape st)
     (_hoverSnap st)
     (strokeColor st) (fillColor st) (fillEnabled st) (strokeWidth st)
     (edgeStyle st) (strokeDash st) (shapeFillStyle st)
     (pendingShapeLabel st) hist.

(** [selectedIds.has(s.id)] *)
Definition isSelected (st : State) (s : Shape.t) : bool :=
  bool_decide (Shape.id s ∈ selectedIds st).

Definition bringToFront (st : State) : State :=
  if bool_decide (size (selectedIds st) = 0%nat) then st
  else
    let sel := List.filter (isSelected st) (shapes st) in
    let rest := List.filter (fun s => negb (isSelected st s)) (shapes st) in
    withShapes st (rest ++ sel) (selectedIds st)
               (History.pushValue (history st) (shapes st)).

Definition sendToBack (st : State) : State :=
  if bool_decide (size (selectedIds st) = 0%nat) then st
  else
    let sel := List.filter (isSelected st) (shapes st) in
    let rest := List.filter (fun s => negb (isSelected st s)) (shapes st) in
    withShapes st (sel ++ rest) (selectedIds st)
               (History.pushValue (history st) (shapes st)).

Definition selectAll (st : State) : State :=
  withShapes st (shapes st)
             (fold_left (fun ids s => {[ Shape.id s ]} ∪ ids) (shapes st) ∅)
             (history st).

(** [finishSelectRect()]; the closure variable [selectionRect] is the
    first argument, [None] for [null]. *)
Definition finishSelectRect (selectionRect : option Bounds.t) (st : State) : State :=
  match selectionRect with
  | None => st
  | Some rect =>
      withShapes st (shapes st)
        (fold_left
           (fun ids shape =>
              if Utils.rectsOverlap rect (Shapes.getBounds shape)
              then {[ Shape.id shape ]} ∪ ids else ids)
           (shapes st) (selectedIds st))
        (history st)
  end.

Definition undo (st : State) : State :=
  match History.undoValue (history st) (shapes st) with
  | (hist, Some prev) => withShapes st prev ∅ hist
  | (hist, None) => withShapes st (shapes st) (selectedIds st) hist
  end.

Definition redo (st : State) : State :=
  match History.redoValue (history st) (shapes st) with
  | (hist, Some next) => withShapes st next ∅ hist
  | (hist, None) => withShapes st (shapes st) (selectedIds st) hist
  end.

End Tools.

(** * Vocabulary of the properties *)

Definition COMPASS_HANDLES : list string :=
  [ "nw"; "n"; "ne"; "e"; "se"; "s"; "sw"; "w" ]%string.

(** The threshold in the specification's words: a container shape under
    5 x 5, a line or arrow whose two endpoints are less than 5 apart, a
    freehand stroke of fewer than 3 points. *)
Definition belowMinimumSize (d : Shape.t) : Prop :=
  (includes Shapes.CONTAINER_TYPES (Shape.type d) = true /\
   Shape.width d < 5 /\ Shape.height d < 5) \/
  (Tools.isLineOrArrowType (Shape.type d) = true /\
   exists p0 p1,
     Shape.points d = Some [p0; p1] /\
     Utils.distance (Point.x p0) (Point.y p0) (Point.x p1) (Point.y p1) < 5) \/
  (Shape.type d = "freehand"%string /\
   exists pts, Shape.points d = Some pts /\ (length pts < 3)%nat).

(** The shapes a draw gesture builds: a container, a line or arrow of two
    points, a freehand stroke with its point list. *)
Definition drawnShape (d : Shape.t) : Prop :=
  includes Tools.DRAW_CASES (Shape.type d) = true \/
  (Tools.isLineOrArrowType (Shape.type d) = true /\
   exists p0 p1, Shape.points d = Some [p0; p1]) \/
  (Shape.type d = "freehand"%string /\ exists pts, Shape.points d = Some pts).

(** [d'] is the shape [d] in everything but its end binding and its
    text: the same id, type, box, point list, style fields, start binding
    and seed. *)
Definition drawnAs (d d' : Shape.t) : Prop :=
  Shape.id d' = Shape.id d /\
  Shape.type d' = Shape.type d /\
  Shape.x d' = Shape.x d /\
  Shape.y d' = Shape.y d /\
  Shape.width d' = Shape.width d /\
  Shape.height d' = Shape.height d /\
  Shape.points d' = Shape.points d /\
  Shape.strokeColor d' = Shape.strokeColor d /\
  Shape.fillColor d' = Shape.fillColor d /\
  Shape.strokeWidth d' = Shape.strokeWidth d /\
  Shape.opacity d' = Shape.opacity d /\
  Shape.rotation d' = Shape.rotation d /\
  Shape.fontSize d' = Shape.fontSize d /\
  Shape.fontFamily d' = Shape.fontFamily d /\
  Shape.textVAlign d' = Shape.textVAlign d /\
  Shape.arrowHead d' = Shape.arrowHead d /\
  Shape.edgeStyle d' = Shape.edgeStyle d /\
  Shape.strokeDash d' = Shape.strokeDash d /\
  Shape.shapeFillStyle d' = Shape.shapeFillStyle d /\
  Shape.startBinding d' = Shape.startBinding d /\
  Shape.seed d' = Shape.seed d.

(** The end binding of a committed drawing: that of the snap under the
    pointer for a line or arrow, else the one the shape had. *)
Definition endBindingAtRelease (st : Tools.State) (d : Shape.t) : option Binding.t :=
  if Tools.isLineOrArrowType (Shape.type d) then
    match Tools._hoverSnap st with
    | Some sn => Some (Binding.mk (Snap.shapeId sn) (Snap.angle sn))
    | None => Shape.endBinding d
    end
  else Shape.endBinding d.

(** The text of a committed drawing: the pending label, when there is a
    non-empty one and the shape is a container, else the text the shape
    had. *)
Definition textAtRelease (st : Tools.State) (d : Shape.t) : string :=
  match Tools.pendingShapeLabel st with
  | Some label =>
      if String.eqb label "" then Shape.text d
      else if includes Shapes.CONTAINER_TYPES (Shape.type d) then label
      else Shape.text d
  | None => Shape.text d
  end.

(** The distance from the query point to a shape's boundary point. *)
Definition boundaryDistance (worldX worldY : R) (shape : Shape.t) : R :=
  Utils.distance worldX worldY
    (Point.x (Shapes.getBoundaryPoint shape worldX worldY))
    (Point.y (Shapes.getBoundaryPoint shape worldX worldY)).

(** The shapes the loop considers: not excluded, and not a line, arrow,
    freehand stroke or text. *)
Definition connectable (excludeIds : list string) (shape : Shape.t) : bool :=
  negb (includes excludeIds (Shape.id shape)) &&
  negb (includes Connectors.NOT_CONNECTABLE (Shape.type shape)).

Definition candidates (excludeIds : list string) (shapes : list Shape.t)
    : list Shape.t :=
  List.filter (connectable excludeIds) shapes.

(** What [(best, bestDist)] says about the candidates seen so far. *)
Definition nearestSoFar (worldX worldY : R) (seen : list Shape.t)
    (acc : option Snap.t * R) : Prop :=
  match fst acc with
  | None =>
      snd acc = Connectors.SNAP_DISTANCE /\
      Forall (fun t => Connectors.SNAP_DISTANCE <= boundaryDistance worldX worldY t) seen
  | Some r =>
      exists before s after,
        seen = before ++ s :: after /\
        r = Connectors.snapOf s worldX worldY /\
        snd acc = boundaryDistance worldX worldY s /\
        boundaryDistance worldX worldY s < Connectors.SNAP_DISTANCE /\
        Forall (fun t => boundaryDistance worldX worldY s < boundaryDistance worldX worldY t)
               before /\
        Forall (fun t => boundaryDistance worldX worldY s <= boundaryDistance worldX worldY t)
               after
  end.

(** The three boundary families of [getBoundaryPoint]; a type with no
    [case] of its own falls back to the rectangular one. *)
Inductive Family : Type := Rectangular | Elliptical | Diamond.

Definition familyOf (type : string) : Family :=
  if includes Shapes.RECT_CASES type then Rectangular
  else if includes Shapes.ELLIPSE_CASES type then Elliptical
  else if includes Shapes.DIAMOND_CASES type then Diamond
  else Rectangular.

Definition rayFromCenter (f : Family) : R -> R -> R -> R -> R -> R -> Point.t :=
  match f with
  | Rectangular => Shapes._rayRectFromCenter
  | Elliptical => Shapes._rayEllipseFromCenter
  | Diamond => Shapes._rayDiamondFromCenter
  end.



Definition strokeExample : Shape.t :=
  Shape.set_points (Some [Point.mk 0 0; Point.mk 100 100])
                   (Shapes.create "f1" 1 "freehand").

Definition endpointsReady (shape : Shape.t) : bool :=
  Shapes.isLineOrArrow shape && Connectors.hasTwoPoints shape.

Definition updateStartShape (movedShapeId : string) (target : option Shape.t)
    (shape : Shape.t) : Shape.t :=
  match Shape.startBinding shape, target with
  | Some b, Some t =>
      if String.eqb (Binding.shapeId b) movedShapeId
      then Connectors.setFirstPoint (Shapes.getBoundaryPointFromAngle t (Binding.angle b)) shape
      else shape
  | _, _ => shape
  end.

Definition updateEndShape (movedShapeId : string) (target : option Shape.t)
    (shape : Shape.t) : Shape.t :=
  match Shape.endBinding shape, target with
  | Some b, Some t =>
      if String.eqb (Binding.shapeId b) movedShapeId
      then Connectors.setLastPoint (Shapes.getBoundaryPointFromAngle t (Binding.angle b)) shape
      else shape
  | _, _ => shape
  end.

Definition resolveStartShape (lookupId : string -> option Shape.t) (shape : Shape.t)
    : Shape.t :=
  match Shape.startBinding shape with
  | Some b =>
      match lookupId (Binding.shapeId b) with
      | Some t =>
          Connectors.setFirstPoint (Shapes.getBoundaryPointFromAngle t (Binding.angle b)) shape
      | None => Shape.set_startBinding None shape
      end
  | None => shape
  end.

Definition resolveEndShape (lookupId : string -> option Shape.t) (shape : Shape.t)
    : Shape.t :=
  match Shape.endBinding shape with
  | Some b =>
      match lookupId (Binding.shapeId b) with
      | Some t =>
          Connectors.setLastPoint (Shapes.getBoundaryPointFromAngle t (Binding.angle b)) shape
      | None => Shape.set_endBinding None shape
      end
  | None => shape
  end.

(** The point list keeps its length and every entry strictly between the
    first and the last. *)
Definition sameInterior (pts pts' : option (list Point.t)) : Prop :=
  match pts, pts' with
  | Some p, Some p' =>
      length p' = length p /\
      forall k, (0 < k < length p - 1)%nat -> p' !! k = p !! k
  | None, None => True
  | _, _ => False
  end.

(** [s'] is [s] but for the first and last entries of its point list. *)
Definition endpointsMoved (s s' : Shape.t) : Prop :=
  exists pts', sameInterior (Shape.points s) pts' /\ s' = Shape.set_points pts' s.

(** [s'] is [s] but for the first and last entries of its point list and
    for bindings set to [null]. *)
Definition endpointsResolved (s s' : Shape.t) : Prop :=
  exists pts' sb eb,
    sameInterior (Shape.points s) pts' /\
    (sb = Shape.startBinding s \/ sb = None) /\
    (eb = Shape.endBinding s \/ eb = None) /\
    s' = Shape.set_endBinding eb (Shape.set_startBinding sb (Shape.set_points pts' s)).

Definition updateFrame (s s' : Shape.t) : Prop :=
  (Shapes.isLineOrArrow s = false -> s' = s) /\
  (Connectors.hasTwoPoints s = false -> s' = s) /\
  endpointsMoved s s'.

Definition resolveFrame (s s' : Shape.t) : Prop :=
  (Shapes.isLineOrArrow s = false -> s' = s) /\
  (Connectors.hasTwoPoints s = false -> s' = s) /\
  endpointsResolved s s'.

(** [b] has the id and the kind of [a], and is [a] unless [a] is a line or
    arrow. *)
Definition keepsOthers (a b : Shape.t) : Prop :=
  Shape.id b = Shape.id a /\
  Shapes.isLineOrArrow b = Shapes.isLineOrArrow a /\
  (Shapes.isLineOrArrow a = false -> b = a).

Definition updateShape (movedShapeId : string) (target : option Shape.t) (s : Shape.t)
    : Shape.t :=
  if endpointsReady s
  then updateEndShape movedShapeId target (updateStartShape movedShapeId target s)
  else s.

Definition resolveShape (lookupId : string -> option Shape.t) (s : Shape.t) : Shape.t :=
  if endpointsReady s
  then resolveEndShape lookupId (resolveStartShape lookupId s)
  else s.

(** No binding of a line or arrow with two points resolves to a line or
    arrow. *)
Definition nonConnectorTargets (shapes : list Shape.t) : Prop :=
  forall s b t,
    In s shapes -> endpointsReady s = true ->
    Shape.startBinding s = Some b \/ Shape.endBinding s = Some b ->
    Connectors.findById shapes (Binding.shapeId b) = Some t ->
    Shapes.isLineOrArrow t = false.

Definition boxR : Shape.t :=
  Shape.set_height 100 (Shape.set_width 100 (Shape.set_x 200 (Shapes.create "R" 3 "rectangle"))).

Definition lineT : Shape.t :=
  Shape.set_startBinding (Some (Binding.mk "R" 0))
    (Shape.set_points (Some [Point.mk 0 0; Point.mk 100 100]) (Shapes.create "T" 2 "line")).

Definition lineC : Shape.t :=
  Shape.set_endBinding (Some (Binding.mk "T" 0))
    (Shape.set_points (Some [Point.mk 0 0; Point.mk 0 50]) (Shapes.create "C" 1 "line")).

Definition chained : list Shape.t := [lineC; lineT; boxR].

Definition lineT1 : Shape.t := Connectors.setFirstPoint (Point.mk 300 50) lineT.

Definition lineC1 : Shape.t := Connectors.setLastPoint (Point.mk 100 50) lineC.

(** A rectangle with the given id and box. *)
Definition rectangleAt (id : string) (seed : Z) (bx by0 bw bh : R) : Shape.t :=
  Shape.set_height bh (Shape.set_width bw (Shape.set_y by0 (Shape.set_x bx
    (Shapes.create id seed "rectangle")))).

(** The rectangles A and B of the scenario. *)
Definition rectA (idA : string) (seedA : Z) : Shape.t :=
  rectangleAt idA seedA 0 0 100 100.

Definition rectB (idB : string) (seedB : Z) : Shape.t :=
  rectangleAt idB seedB 300 0 100 100.

(** The editor with A and B on the canvas and the arrow tool chosen. *)
Definition scene (idA idB : string) (seedA seedB : Z) : Tools.State :=
  Tools.setTool
    (Tools.mk "select" [rectA idA seedA; rectB idB seedB] ∅ false None None None None
       "#1e1e1e" "#ffffff" false (1 / 2) "sharp" "solid" "none" None
       (History.mkSnapshots [] []))
    "arrow".

(** The arrow of the scenario, by its points and end binding. *)
Definition arrowWith (idA idArrow : string) (seedArrow : Z)
    (pts : list Point.t) (endBinding : option Binding.t) : Shape.t :=
  Shape.mk idArrow "arrow" 0 0 0 0 "#1e1e1e" "transparent" (1 / 2) 1 0 (Some pts)
    "" 16 "Segoe UI, system-ui, sans-serif" "bottom" true "sharp" "solid" "none"
    (Some (Binding.mk idA 0)) endBinding seedArrow.

(** The arrow the gesture is expected to commit. *)
Definition drawnArrow (idA idB idArrow : string) (seedArrow : Z) : Shape.t :=
  arrowWith idA idArrow seedArrow
    [Point.mk 100 50; Point.mk 300 50] (Some (Binding.mk idB PI)).

(** The state after the press at (95, 50). *)
Definition pressed (idA idB idArrow : string) (seedA seedB seedArrow : Z) : Tools.State :=
  Tools.withDrawing (scene idA idB seedA seedB) (Point.mk 95 50)
    (arrowWith idA idArrow seedArrow [Point.mk 100 50; Point.mk 100 50] None).

(** The state after the drag to (305, 50). *)
Definition dragged (idA idB idArrow : string) (seedA seedB seedArrow : Z) : Tools.State :=
  Tools.withDrawingShape (pressed idA idB idArrow seedA seedB seedArrow)
    (arrowWith idA idArrow seedArrow [Point.mk 100 50; Point.mk 300 50] None)
    (Some (Snap.mk idB PI 300 50)).

(** A moved to (0, 200), in place in the list. *)
Definition afterMove (idA idB idArrow : string) (seedA seedB seedArrow : Z)
    : list Shape.t :=
  <[0%nat := Shapes.move (rectA idA seedA) 0 200]>
    [rectA idA seedA; rectB idB seedB; drawnArrow idA idB idArrow seedArrow].

(** A binding after repair against a set of deleted ids. *)
Definition withoutDeleted (deletedIds : gset string) (b : option Binding.t)
    : option Binding.t :=
  match b with
  | Some x => if bool_decide (Binding.shapeId x ∈ deletedIds) then None else Some x
  | None => None
  end.

(** [s'] is [s] with the bindings that name a deleted id set to [null]. *)
Definition repairedAfterDelete (deletedIds : gset string) (s s' : Shape.t) : Prop :=
  s' = Shape.set_endBinding (withoutDeleted deletedIds (Shape.endBinding s))
         (Shape.set_startBinding (withoutDeleted deletedIds (Shape.startBinding s)) s).





Definition ellipseExample : Shape.t :=
  Shape.set_height 100 (Shape.set_width 200 (Shapes.create "e1" 1 "ellipse")).

Definition cloneCells (h : Store.t) (v : list Shape.t) : list Store.cell :=
  map Store.Obj v ++ [Store.Arr (seq (length h) (length v))].

(** The stacks read by value: each stacked reference reads as the
    snapshot at the same position. *)
Definition stacksRead (h : Store.t) (hist : History.t) (s : History.snapshots) : Prop :=
  Forall2 (fun a v => Store.readArray h a = Some v)
          (History.undoStack hist) (History.undoValues s) /\
  Forall2 (fun a v => Store.readArray h a = Some v)
          (History.redoStack hist) (History.redoValues s).

(** The outline of each boundary family around the center [(cx, cy)] with
    half-extents [hw] and [hh]: the border of the box, the ellipse, the
    rhombus. *)
Definition onOutline (f : Family) (cx cy hw hh : R) (p : Point.t) : Prop :=
  let u := Rabs (Point.x p - cx) / hw in
  let v := Rabs (Point.y p - cy) / hh in
  match f with
  | Rectangular => Rmax u v = 1
  | Elliptical => u * u + v * v = 1
  | Diamond => u + v = 1
  end.

(** The containment test [hitTest] applies to the box [b], by family. *)
Definition hitFamily (f : Family) (b : Bounds.t) (px py tolerance : R) : bool :=
  let cx := Bounds.x b + Bounds.w b / 2 in
  let cy := Bounds.y b + Bounds.h b / 2 in
  match f with
  | Rectangular =>
      Utils.pointInRect px py (Bounds.x b - tolerance) (Bounds.y b - tolerance)
                        (Bounds.w b + tolerance * 2) (Bounds.h b + tolerance * 2)
  | Elliptical =>
      Utils.pointInEllipse px py cx cy (Bounds.w b / 2 + tolerance)
                           (Bounds.h b / 2 + tolerance)
  | Diamond =>
      Utils.pointInDiamond px py cx cy (Bounds.w b / 2 + tolerance)
                           (Bounds.h b / 2 + tolerance)
  end.

(** The shapes [hitTest] tests by their stroke. *)
Definition isStroke (shape : Shape.t) : bool :=
  Shapes.isLineOrArrow shape || String.eqb (Shape.type shape) "freehand".

(** The shapes whose bounding box is computed from their point list: a
    line or arrow of at least two points, a freehand stroke of at least
    one. *)
Definition boundsFromPoints (shape : Shape.t) (pts : list Point.t) : Prop :=
  Shape.points shape = Some pts /\
  ((Shapes.isLineOrArrow shape = true /\ (2 <= length pts)%nat) \/
   (Shape.type shape = "freehand"%string /\ (1 <= length pts)%nat)).

(** [b] is the smallest axis-aligned box that holds every point of
    [pts]. *)
Definition tightBox (b : Bounds.t) (pts : list Point.t) : Prop :=
  (forall p, In p pts ->
     Bounds.x b <= Point.x p <= Bounds.x b + Bounds.w b /\
     Bounds.y b <= Point.y p <= Bounds.y b + Bounds.h b) /\
  (exists p, In p pts /\ Point.x p = Bounds.x b) /\
  (exists p, In p pts /\ Point.x p = Bounds.x b + Bounds.w b) /\
  (exists p, In p pts /\ Point.y p = Bounds.y b) /\
  (exists p, In p pts /\ Point.y p = Bounds.y b + Bounds.h b).

(** The edges a compass handle drags. *)
Definition dragsLeft (handle : string) : bool := includes [ "nw"; "sw"; "w" ]%string handle.
Definition dragsRight (handle : string) : bool := includes [ "ne"; "e"; "se" ]%string handle.
Definition dragsTop (handle : string) : bool := includes [ "nw"; "n"; "ne" ]%string handle.
Definition dragsBottom (handle : string) : bool := includes [ "se"; "s"; "sw" ]%string handle.

(** [d] when the edge is dragged, 0 when it is not. *)
Definition dragged_by (drags : bool) (d : R) : R := if drags then d else 0.

Definition leftEdge (s : Shape.t) : R := Shape.x s.
Definition rightEdge (s : Shape.t) : R := Shape.x s + Shape.width s.
Definition topEdge (s : Shape.t) : R := Shape.y s.
Definition bottomEdge (s : Shape.t) : R := Shape.y s + Shape.height s.

(** No binding of a shape of the list names [id]. *)
Definition unboundTo (id : string) (shapes : list Shape.t) : Prop :=
  forall s b,
    In s shapes ->
    Shape.startBinding s = Some b \/ Shape.endBinding s = Some b ->
    Binding.shapeId b <> id.

(** The shape with this id, if any, is no line or arrow. *)
Definition nonConnectorId (shapes : list Shape.t) (id : string) : Prop :=
  forall t, Connectors.findById shapes id = Some t -> Shapes.isLineOrArrow t = false.

(** One call of the history interface, or a mutation of the store by the
    caller between two calls, as a step on the store and the stacks. *)
Inductive historyCall : Store.t * History.t -> Store.t * History.t -> Prop :=
| call_push h hist shapes h1 hist1 :
    History.push h hist shapes = Some (h1, hist1) ->
    historyCall (h, hist) (h1, hist1)
| call_undo h hist currentShapes h1 hist1 r :
    History.undo h hist currentShapes = Some (h1, hist1, r) ->
    historyCall (h, hist) (h1, hist1)
| call_redo h hist currentShapes h1 hist1 r :
    History.redo h hist currentShapes = Some (h1, hist1, r) ->
    historyCall (h, hist) (h1, hist1)
| call_clear h hist :
    historyCall (h, hist) (h, History.clear hist)
| call_mutate h hist h2 :
    historyCall (h, hist) (h2, hist).

(** The snapshot a returned reference reads as, [None] for [null]. *)
Definition readReturned (h : Store.t) (r : option nat) : option (list Shape.t) :=
  match r with
  | Some a => Store.readArray h a
  | None => None
  end.

(** Every binding of a shape of the list names the id of a shape of the
    list. *)
Definition bindingsClosed (shapes : list Shape.t) : Prop :=
  forall s b,
    In s shapes ->
    Shape.startBinding s = Some b \/ Shape.endBinding s = Some b ->
    In (Binding.shapeId b) (map Shape.id shapes).

(** The moves of a drag, handled one after the other by
    [handleDrawMove]. *)
Fixpoint dragThrough (st : Tools.State) (moves : list Point.t) : option Tools.State :=
  match moves with
  | [] => Some st
  | world :: rest =>
      match Tools.handleDrawMove st world with
      | Some st' => dragThrough st' rest
      | None => None
      end
  end.

(** The point lies between the two corners of a rubber band. *)
Definition inBand (x1 y1 x2 y2 px py : R) : Prop :=
  Rmin x1 x2 <= px <= Rmax x1 x2 /\ Rmin y1 y2 <= py <= Rmax y1 y2.

(** The binding names a shape of the list that can carry a connector:
    not a line, arrow, freehand stroke or text. *)
Definition bindsConnectable (shapes : list Shape.t) (b : Binding.t) : Prop :=
  exists s, In s shapes /\ Shape.id s = Binding.shapeId b /\
            includes Connectors.NOT_CONNECTABLE (Shape.type s) = false.

(** What holds of a line or arrow while it is being drawn over the list
    [shapes0]. *)
Definition drawingConnector (shapes0 : list Shape.t) (newId : string) (st : Tools.State)
    : Prop :=
  Tools.shapes st = shapes0 /\
  Tools.isDragging st = true /\
  Tools.dragType st = Some "draw"%string /\
  exists d,
    Tools.drawingShape st = Some d /\
    Shape.id d = newId /\
    Tools.isLineOrArrowType (Shape.type d) = true /\
    (exists p0 p1, Shape.points d = Some [p0; p1]) /\
    Shape.endBinding d = None /\
    (forall b, Shape.startBinding d = Some b -> bindsConnectable shapes0 b) /\
    (forall sn, Tools._hoverSnap st = Some sn ->
       bindsConnectable shapes0 (Binding.mk (Snap.shapeId sn) (Snap.angle sn)) /\
       forall b, Shape.startBinding d = Some b -> Snap.shapeId sn <> Binding.shapeId b).

(** * Properties *)

(** ** Shape Model: resize *)

Lemma enforceMinimumSize_bounds (shape : Shape.t) :
  10 <= Shape.width (Shapes.enforceMinimumSize shape) /\
  10 <= Shape.height (Shapes.enforceMinimumSize shape).
Proof.
  unfold Shapes.enforceMinimumSize.
  destruct (Rlt_dec (Shape.width shape) 10) as [Hw | Hw];
    match goal with
    | |- context [Rlt_dec ?v 10] => destruct (Rlt_dec v 10) as [Hh | Hh]
    end; simpl in *; lra.
Qed.

Lemma resize_compass (shape : Shape.t) (handle : string) (dx dy : R) :
  In handle COMPASS_HANDLES ->
  Shapes.resize shape handle dx dy =
    Some (Shapes.enforceMinimumSize (Shapes.resizeBox shape handle dx dy)).
Proof.
  intros Hin. unfold Shapes.resize.
  assert (Hs : String.eqb handle "lineStart" = false /\ String.eqb handle "lineEnd" = false).
  { simpl in Hin. intuition subst; split; reflexivity. }
  destruct Hs as [-> ->]. reflexivity.
Qed.

(** C8.  After [resize] with one of the eight compass handles, whatever the
    shape and the delta, the shape's width and height are both at least
    10. *)
Theorem resize_clamps_width_height (shape : Shape.t) (handle : string) (dx dy : R) :
  In handle COMPASS_HANDLES ->
  exists shape',
    Shapes.resize shape handle dx dy = Some shape' /\
    10 <= Shape.width shape' /\ 10 <= Shape.height shape'.
Proof.
  intros Hin. eexists. split; [apply resize_compass, Hin |].
  apply enforceMinimumSize_bounds.
Qed.

Lemma resize_clamps_width_height_witness :
  exists shape',
    Shapes.resize (Shapes.create "r1" 7 "rectangle") "nw" 250 (-3) = Some shape' /\
    10 <= Shape.width shape' /\ 10 <= Shape.height shape'.
Proof.
  apply (resize_clamps_width_height (Shapes.create "r1" 7 "rectangle") "nw" 250 (-3)).
  simpl. auto.
Defined.

(** ** Draw tool: the minimum-size threshold *)

Lemma includes_In (l : list string) (v : string) : includes l v = true <-> In v l.
Proof.
  unfold includes. rewrite existsb_exists. split.
  - intros (w & Hin & Heq). apply String.eqb_eq in Heq. now subst.
  - intros Hin. exists v. split; [exact Hin | apply String.eqb_refl].
Qed.

Lemma draw_case_is_container (type : string) :
  includes Tools.DRAW_CASES type = true ->
  includes Shapes.CONTAINER_TYPES type = true /\
  Tools.isLineOrArrowType type = false /\ type <> "freehand"%string.
Proof.
  intros H. apply includes_In in H. simpl in H.
  repeat (destruct H as [<- | H]; [repeat split; (reflexivity || discriminate) |]).
  contradiction.
Qed.

Lemma isLineOrArrowType_cases (type : string) :
  Tools.isLineOrArrowType type = true ->
  includes Shapes.CONTAINER_TYPES type = false /\
  includes Tools.DRAW_CASES type = false /\ type <> "freehand"%string.
Proof.
  unfold Tools.isLineOrArrowType. intros H.
  apply orb_true_iff in H.
  destruct H as [H | H]; apply String.eqb_eq in H; subst;
    repeat split; (reflexivity || discriminate).
Qed.

(** The draw handlers build drawn shapes. *)
Lemma onPointerDown_drawnShape (st st' : Tools.State) (world : Point.t)
    (newId : string) (newSeed : Z) (d : Shape.t) :
  Tools.onPointerDown st world newId newSeed = Some st' ->
  Tools.isDragging st = false ->
  Tools.drawingShape st = None ->
  Tools.drawingShape st' = Some d -> drawnShape d.
Proof.
  unfold Tools.onPointerDown. intros H Hdrag Hnone Hd.
  destruct (String.eqb (Tools.currentTool st) "select" ||
            String.eqb (Tools.currentTool st) "text"); [discriminate |].
  destruct (includes Tools.DRAW_CASES (Tools.currentTool st)) eqn:Hc.
  { injection H as <-. simpl in Hd. injection Hd as <-. left. exact Hc. }
  destruct (Tools.isLineOrArrowType (Tools.currentTool st)) eqn:Hl.
  { injection H as <-. simpl in Hd. injection Hd as <-. right; left.
    split; [exact Hl | eauto]. }
  destruct (String.eqb (Tools.currentTool st) "freehand") eqn:Hf.
  { injection H as <-. simpl in Hd. injection Hd as <-. right; right.
    split; [reflexivity | eauto]. }
  injection H as <-. simpl in Hd. congruence.
Qed.

Lemma handleDrawMove_drawnShape (st st' : Tools.State) (world : Point.t) (d d' : Shape.t) :
  Tools.handleDrawMove st world = Some st' ->
  Tools.drawingShape st = Some d -> drawnShape d ->
  Tools.drawingShape st' = Some d' -> drawnShape d'.
Proof.
  unfold Tools.handleDrawMove. intros H Hd Hwf Hd'. rewrite Hd in H.
  destruct Hwf as [Hc | [(Hl & p0 & p1 & Hp) | (Hf & pts & Hp)]].
  - rewrite Hc in H. destruct (Tools.dragStartWorld st); [| discriminate].
    injection H as <-. simpl in Hd'. injection Hd' as <-. left. exact Hc.
  - destruct (isLineOrArrowType_cases _ Hl) as (_ & Hn & _).
    rewrite Hn, Hl, Hp in H.
    destruct (Connectors.findNearestBoundaryPoint _ _ _ _);
      injection H as <-; simpl in Hd'; injection Hd' as <-;
      right; left; (split; [exact Hl | simpl; eauto]).
  - rewrite Hf in H. simpl in H. rewrite Hp in H.
    injection H as <-. simpl in Hd'. injection Hd' as <-.
    right; right. simpl. split; [exact Hf | eauto].
Qed.

Lemma tooSmall_spec (d : Shape.t) :
  drawnShape d ->
  exists b, Tools.tooSmall d = Some b /\ (b = true <-> belowMinimumSize d).
Proof.
  unfold Tools.tooSmall, belowMinimumSize.
  intros [Hc | [(Hl & p0 & p1 & Hp) | (Hf & pts & Hp)]].
  - destruct (draw_case_is_container _ Hc) as (Hcont & Hnl & Hnf).
    rewrite Hcont. eexists. split; [reflexivity |].
    destruct (Rlt_dec (Shape.width d) 5) as [Hw | Hw];
      [destruct (Rlt_dec (Shape.height d) 5) as [Hh | Hh] |].
    + split; [intros _; left; auto | reflexivity].
    + split; [discriminate |].
      intros [(_ & _ & H) | [(H & _) | (H & _)]]; [lra | congruence | contradiction].
    + split; [discriminate |].
      intros [(_ & H & _) | [(H & _) | (H & _)]]; [lra | congruence | contradiction].
  - destruct (isLineOrArrowType_cases _ Hl) as (Hcont & _ & Hnf).
    rewrite Hcont, Hl, Hp. simpl. eexists. split; [reflexivity |].
    destruct (Rlt_dec _ 5) as [Hlt | Hlt].
    + split; [intros _; right; left; eauto | reflexivity].
    + split; [discriminate |].
      intros [(H & _) | [(_ & q0 & q1 & Hq & Hd) | (H & _)]];
        [congruence | | contradiction].
      injection Hq as <- <-. contradiction.
  - rewrite Hf. simpl. rewrite Hp. eexists. split; [reflexivity |].
    rewrite Nat.ltb_lt. split.
    + intros Hlen. right; right. eauto.
    + intros [(H & _) | [(H & _) | (_ & qs & Hq & Hlen)]]; [discriminate.. |].
      now injection Hq as <-.
Qed.

Lemma committed_shape (st : Tools.State) (d : Shape.t) :
  Tools.committed st d
    = Shape.set_text (textAtRelease st d) (Shape.set_endBinding (endBindingAtRelease st d) d).
Proof.
  unfold Tools.committed, textAtRelease, endBindingAtRelease.
  destruct d as [? ty ? ? ? ? ? ? ? ? ? ? ? ? ? ? ? ? ? ? ? ? ?].
  cbn [Shape.type Shape.text Shape.endBinding].
  destruct (Tools.isLineOrArrowType ty), (Tools._hoverSnap st) as [sn |],
    (Tools.pendingShapeLabel st) as [label |];
    cbn [Shape.type Shape.set_endBinding];
    try destruct (String.eqb label ""); cbn [negb andb];
    try destruct (includes Shapes.CONTAINER_TYPES ty); reflexivity.
Qed.

Lemma committed_id (st : Tools.State) (d : Shape.t) :
  Shape.id (Tools.committed st d) = Shape.id d.
Proof. rewrite committed_shape. reflexivity. Qed.

Lemma committed_drawnAs (st : Tools.State) (d : Shape.t) :
  drawnAs d (Tools.committed st d) /\
  Shape.endBinding (Tools.committed st d) = endBindingAtRelease st d /\
  Shape.text (Tools.committed st d) = textAtRelease st d.
Proof. rewrite committed_shape. unfold drawnAs. simpl. tauto. Qed.

(** C7.  At pointer up in the draw substate, the shape being drawn is
    dropped with the shape list and the history left as they were exactly
    when it is below the minimum size; otherwise it is appended to the
    list (after a history snapshot of the list before) and becomes the
    only selected shape.  What is appended is the shape that was drawn:
    its id, type, box, point list, style fields, start binding and seed
    are those of the drawn shape, its end binding is that of the snap
    under the pointer (a line or arrow) and its text the pending label (a
    container).  Either way the tool returns to select. *)
Theorem draw_commits_unless_below_minimum (st : Tools.State) (d : Shape.t) :
  Tools.isDragging st = true ->
  Tools.dragType st = Some "draw"%string ->
  Tools.drawingShape st = Some d ->
  drawnShape d ->
  exists st',
    Tools.onPointerUp st = Some st' /\
    Tools.drawingShape st' = None /\
    Tools.currentTool st' = "select"%string /\
    ((Tools.shapes st' = Tools.shapes st /\ Tools.history st' = Tools.history st)
       <-> belowMinimumSize d) /\
    (~ belowMinimumSize d ->
       Tools.shapes st' = Tools.shapes st ++ [Tools.committed st d] /\
       Shape.id (Tools.committed st d) = Shape.id d /\
       Tools.selectedIds st' = {[ Shape.id d ]} /\
       Tools.history st' = History.pushValue (Tools.history st) (Tools.shapes st) /\
       drawnAs d (Tools.committed st d) /\
       Shape.endBinding (Tools.committed st d) = endBindingAtRelease st d /\
       Shape.text (Tools.committed st d) = textAtRelease st d).
Proof.
  intros Hdrag Htype Hd Hwf.
  destruct (tooSmall_spec d Hwf) as (b & Hb & Hiff).
  unfold Tools.onPointerUp, Tools.finishDraw. rewrite Hdrag, Htype, Hd, Hb.
  destruct b; eexists; (split; [reflexivity |]); simpl;
    (split; [reflexivity |]); (split; [reflexivity |]); split.
  - split; [intros _; apply Hiff; reflexivity | intros _; split; reflexivity].
  - intros Hn. exfalso. apply Hn, Hiff. reflexivity.
  - split.
    + intros (Heq & _). exfalso.
      apply (f_equal (@length Shape.t)) in Heq. rewrite length_app in Heq.
      simpl in Heq. lia.
    + intros Hbelow. apply Hiff in Hbelow. discriminate.
  - intros _. rewrite committed_id.
    split; [reflexivity |]. split; [reflexivity |]. split; [reflexivity |].
    split; [reflexivity |]. apply committed_drawnAs.
Qed.

(** A rectangle of 4 x 3 is dropped; an arrow of length 200 released over
    a snap is appended as drawn, with the snap as its end binding. *)
Lemma draw_commits_unless_below_minimum_witness :
  let tiny := Shape.set_height 3 (Shape.set_width 4 (Shapes.create "s1" 11 "rectangle")) in
  let arrow := arrowWith "A" "s2" 12 [Point.mk 100 50; Point.mk 300 50] None in
  let snap := Snap.mk "B" PI 300 50 in
  let dropping := Tools.withDrawing Tools.initial (Point.mk 0 0) tiny in
  let releasing :=
    Tools.withDrawingShape (Tools.withDrawing Tools.initial (Point.mk 95 50) arrow)
                           arrow (Some snap) in
  (exists st',
     Tools.onPointerUp dropping = Some st' /\
     Tools.shapes st' = [] /\ Tools.history st' = Tools.history Tools.initial /\
     Tools.currentTool st' = "select"%string) /\
  (exists st',
     Tools.onPointerUp releasing = Some st' /\
     Tools.shapes st' = [Tools.committed releasing arrow] /\
     Tools.selectedIds st' = {[ "s2"%string ]} /\
     Tools.currentTool st' = "select"%string /\
     drawnAs arrow (Tools.committed releasing arrow) /\
     Shape.endBinding (Tools.committed releasing arrow) = Some (Binding.mk "B" PI) /\
     Shape.text (Tools.committed releasing arrow) = ""%string).
Proof.
  intros tiny arrow snap dropping releasing. split.
  - destruct (draw_commits_unless_below_minimum dropping tiny)
      as (st' & Hup & _ & Htool & Hiff & _); try reflexivity.
    { left. reflexivity. }
    exists st'. split; [exact Hup |].
    destruct (proj2 Hiff) as [Hs Hh].
    { left. split; [reflexivity |]. simpl. split; lra. }
    auto.
  - destruct (draw_commits_unless_below_minimum releasing arrow)
      as (st' & Hup & _ & Htool & _ & Hcommit); try reflexivity.
    { right. left. split; [reflexivity |]. simpl. eauto. }
    exists st'. split; [exact Hup |].
    destruct Hcommit as (Hs & _ & Hsel & _ & Has & He & Ht).
    { intros [(Hc & _) | [(_ & p0 & p1 & Hp & Hdist) | (Hf & _)]];
        [discriminate Hc | | discriminate Hf].
      simpl in Hp. injection Hp as <- <-.
      cbn [Point.x Point.y] in Hdist.
      assert (Hlen : Utils.distance 100 50 300 50 = 200).
      { unfold Utils.distance, Math.sqrt.
        replace ((300 - 100) ^ 2 + (50 - 50) ^ 2) with (200 * 200) by ring.
        apply sqrt_square. lra. }
      rewrite Hlen in Hdist. lra. }
    auto 8.
Defined.

(** ** Snap query *)

Section NearestBoundary.

Variables (worldX worldY : R) (excludeIds : list string).

Local Abbreviation dist := (boundaryDistance worldX worldY).
Local Abbreviation isCandidate := (connectable excludeIds).
Local Abbreviation cands := (candidates excludeIds).
Local Abbreviation soFar := (nearestSoFar worldX worldY).

Lemma nearestStep_skip (acc : option Snap.t * R) (shape : Shape.t) :
  isCandidate shape = false ->
  Connectors.nearestStep worldX worldY excludeIds acc shape = acc.
Proof.
  unfold connectable, Connectors.nearestStep. intros H.
  destruct (includes excludeIds (Shape.id shape)); [reflexivity |].
  destruct (includes Connectors.NOT_CONNECTABLE (Shape.type shape));
    [reflexivity | discriminate].
Qed.

Lemma nearestStep_candidate (acc : option Snap.t * R) (shape : Shape.t) :
  isCandidate shape = true ->
  Connectors.nearestStep worldX worldY excludeIds acc shape =
    if Rlt_dec (dist shape) (snd acc)
    then (Some (Connectors.snapOf shape worldX worldY), dist shape)
    else acc.
Proof.
  unfold connectable, Connectors.nearestStep. intros H.
  destruct (includes excludeIds (Shape.id shape)); [discriminate |].
  destruct (includes Connectors.NOT_CONNECTABLE (Shape.type shape));
    [discriminate | reflexivity].
Qed.

Lemma nearestSoFar_step (seen : list Shape.t) (acc : option Snap.t * R)
    (shape : Shape.t) :
  soFar seen acc ->
  soFar (seen ++ cands [shape])
               (Connectors.nearestStep worldX worldY excludeIds acc shape).
Proof.
  intros Hinv. unfold candidates. simpl.
  destruct (isCandidate shape) eqn:Hc.
  2: { rewrite nearestStep_skip by exact Hc. now rewrite app_nil_r. }
  rewrite nearestStep_candidate by exact Hc.
  destruct acc as [best bestDist]. unfold nearestSoFar in *. simpl in *.
  destruct (Rlt_dec (dist shape) bestDist) as [Hlt | Hge]; simpl.
  - exists seen, shape, []. destruct best as [r |].
    + destruct Hinv as (before & s & after & -> & _ & -> & Hs & Hb & Ha).
      split; [reflexivity |]. split; [reflexivity |]. split; [reflexivity |].
      split; [lra |]. split; [| constructor].
      rewrite Forall_app. split; [| constructor].
      * apply (List.Forall_impl _ (P := fun t => dist s < dist t));
          [intros t Ht; lra | exact Hb].
      * exact Hlt.
      * apply (List.Forall_impl _ (P := fun t => dist s <= dist t));
          [intros t Ht; lra | exact Ha].
    + destruct Hinv as (-> & Hall).
      split; [reflexivity |]. split; [reflexivity |]. split; [reflexivity |].
      split; [exact Hlt |]. split; [| constructor].
      apply (List.Forall_impl _
               (P := fun t => Connectors.SNAP_DISTANCE <= dist t));
        [intros t Ht; lra | exact Hall].
  - destruct best as [r |].
    + destruct Hinv as (before & s & after & -> & Hr & -> & Hs & Hb & Ha).
      exists before, s, (after ++ [shape]).
      rewrite <- app_assoc. simpl. repeat split; try assumption.
      rewrite Forall_app. split; [exact Ha |].
      constructor; [lra | constructor].
    + destruct Hinv as (-> & Hall). split; [reflexivity |].
      rewrite Forall_app. split; [exact Hall |].
      constructor; [lra | constructor].
Qed.

Lemma nearestSoFar_fold (shapes seen : list Shape.t) (acc : option Snap.t * R) :
  soFar seen acc ->
  soFar (seen ++ cands shapes)
               (fold_left (Connectors.nearestStep worldX worldY excludeIds) shapes acc).
Proof.
  revert seen acc. induction shapes as [| shape shapes IH]; intros seen acc Hinv.
  - simpl. now rewrite app_nil_r.
  - simpl fold_left.
    replace (cands (shape :: shapes))
      with (cands [shape] ++ cands shapes)
      by (unfold candidates; simpl; destruct (isCandidate shape); reflexivity).
    rewrite app_assoc. apply IH, nearestSoFar_step, Hinv.
Qed.


End NearestBoundary.

(** ** Geometry of the boundary resolver *)

Lemma getBoundaryPoint_family (shape : Shape.t) (targetX targetY : R) :
  Shapes.getBoundaryPoint shape targetX targetY =
    rayFromCenter (familyOf (Shape.type shape))
      (Connectors.centerX shape) (Connectors.centerY shape) targetX targetY
      (Bounds.w (Shapes.getBounds shape) / 2) (Bounds.h (Shapes.getBounds shape) / 2).
Proof.
  unfold Shapes.getBoundaryPoint, familyOf, Connectors.centerX, Connectors.centerY.
  destruct (includes Shapes.RECT_CASES _); [reflexivity |].
  destruct (includes Shapes.ELLIPSE_CASES _); [reflexivity |].
  destruct (includes Shapes.DIAMOND_CASES _); reflexivity.
Qed.

Lemma getBoundaryPointFromAngle_family (shape : Shape.t) (angle : R) :
  Shapes.getBoundaryPointFromAngle shape angle =
    rayFromCenter (familyOf (Shape.type shape))
      (Connectors.centerX shape) (Connectors.centerY shape)
      (Connectors.centerX shape + cos angle * Shapes.far)
      (Connectors.centerY shape + sin angle * Shapes.far)
      (Bounds.w (Shapes.getBounds shape) / 2) (Bounds.h (Shapes.getBounds shape) / 2).
Proof.
  unfold Shapes.getBoundaryPointFromAngle. rewrite getBoundaryPoint_family. reflexivity.
Qed.

(** The far target is never the center. *)
Lemma far_target_off_center (angle : R) :
  ~ (cos angle * Shapes.far = 0 /\ sin angle * Shapes.far = 0).
Proof.
  unfold Shapes.far. intros [Hc Hs].
  pose proof (sin2_cos2 angle) as H. unfold Rsqr in H.
  assert (cos angle = 0) by lra. assert (sin angle = 0) by lra.
  rewrite H0, H1 in H. lra.
Qed.

(** A ray cast depends on the target only through its offset from the
    center, and moves with the center. *)
Lemma rayFromCenter_translate (f : Family) (cx cy tx ty cx' cy' tx' ty' hw hh a b : R) :
  cx' = cx + a -> cy' = cy + b -> tx' - cx' = tx - cx -> ty' - cy' = ty - cy ->
  rayFromCenter f cx' cy' tx' ty' hw hh =
    Shapes.movePoint (rayFromCenter f cx cy tx ty hw hh) a b.
Proof.
  intros -> -> Hx Hy.
  destruct f; simpl;
    unfold Shapes._rayRectFromCenter, Shapes._rayEllipseFromCenter,
      Shapes._rayDiamondFromCenter, Shapes.movePoint;
    rewrite Hx, Hy;
    destruct (Req_dec_T (tx - cx) 0), (Req_dec_T (ty - cy) 0); simpl;
    f_equal; ring.
Qed.

Lemma Rabs_pos_val (v : R) : 0 < v -> Rabs v = v.
Proof. intros H. apply Rabs_pos_eq. lra. Qed.

Lemma Rabs_neg_val (v : R) : v < 0 -> Rabs v = - v.
Proof. intros H. apply Rabs_left. exact H. Qed.

(** A rectangle's boundary point towards a target level with its center:
    the midpoint of the right or of the left edge. *)
Lemma rayRect_level (cx cy tx ty halfW halfH : R) :
  0 < halfW -> 0 < halfH -> ty = cy -> tx <> cx ->
  Shapes._rayRectFromCenter cx cy tx ty halfW halfH =
    Point.mk (if Rlt_dec cx tx then cx + halfW else cx - halfW) cy.
Proof.
  intros Hw Hh -> Hne. unfold Shapes._rayRectFromCenter, Math.abs.
  replace (cy - cy) with 0 by ring. rewrite Rabs_R0.
  destruct (Req_dec_T (tx - cx) 0) as [He | _]; [exfalso; lra |].
  assert (Hpos : 0 < Rabs (tx - cx)) by (apply Rabs_pos_lt; lra).
  destruct (Rgt_dec (Rabs (tx - cx) / halfW) (0 / halfH)) as [_ | Hn].
  2: { exfalso. apply Hn. unfold Rdiv at 2. rewrite Rmult_0_l.
       apply Rdiv_lt_0_compat; assumption. }
  destruct (Rlt_dec cx tx) as [Hlt | Hge]; f_equal; try ring.
  - rewrite Rabs_pos_val by lra. field. lra.
  - rewrite Rabs_neg_val by lra. field. lra.
Qed.

Lemma distance_level (x1 x2 y1 y2 : R) :
  y2 = y1 -> Utils.distance x1 y1 x2 y2 = Rabs (x2 - x1).
Proof.
  intros ->. unfold Utils.distance, Math.sqrt.
  replace ((x2 - x1) ^ 2 + (y1 - y1) ^ 2) with (Rsqr (x2 - x1)) by (unfold Rsqr; ring).
  apply sqrt_Rsqr_abs.
Qed.

Lemma atan2_east (vy vx : R) : vy = 0 -> 0 < vx -> Math.atan2 vy vx = 0.
Proof.
  intros -> Hx. unfold Math.atan2.
  destruct (Rlt_dec 0 vx); [| contradiction].
  unfold Rdiv. rewrite Rmult_0_l. apply atan_0.
Qed.

Lemma atan2_west (vy vx : R) : vy = 0 -> vx < 0 -> Math.atan2 vy vx = PI.
Proof.
  intros -> Hx. unfold Math.atan2.
  destruct (Rlt_dec 0 vx); [lra |].
  destruct (Rlt_dec vx 0); [| contradiction].
  destruct (Rle_dec 0 0); [| lra].
  unfold Rdiv. rewrite Rmult_0_l, atan_0. ring.
Qed.

(** Boxes. *)
Lemma getBounds_stored (shape : Shape.t) :
  Shapes.isLineOrArrow shape = false ->
  Shape.type shape <> "freehand"%string ->
  Shapes.getBounds shape = Shapes.storedBox shape.
Proof.
  unfold Shapes.getBounds. intros -> Hf.
  apply String.eqb_neq in Hf. now rewrite Hf.
Qed.

Lemma getBounds_no_points (shape : Shape.t) :
  Shape.points shape = None -> Shapes.getBounds shape = Shapes.storedBox shape.
Proof.
  unfold Shapes.getBounds. intros ->.
  destruct (Shapes.isLineOrArrow shape), (String.eqb (Shape.type shape) "freehand");
    reflexivity.
Qed.

(** Evaluation of [Math.min], [Math.max] and [Math.abs] on given numbers. *)
Ltac eval_minmax :=
  unfold Math.min, Math.max, Rmin, Rmax;
  repeat match goal with
         | |- context [Rle_dec ?a ?b] => destruct (Rle_dec a b); try lra
         end.




(** ** In-place loops *)

Lemma fold_indices_invariant {A : Type} (P : list A -> Prop)
    (body : nat -> list A -> list A) (indices : list nat) (cur : list A) :
  P cur -> (forall i c, P c -> P (body i c)) ->
  P (fold_left (fun c i => body i c) indices cur).
Proof.
  intros Hcur Hstep. revert cur Hcur.
  induction indices as [| i indices IH]; intros cur Hcur; simpl; [exact Hcur |].
  apply IH, Hstep, Hcur.
Qed.

Lemma forOf_invariant {A : Type} (P : list A -> Prop)
    (body : nat -> list A -> list A) (l : list A) :
  P l -> (forall i c, P c -> P (body i c)) -> P (forOf body l).
Proof. apply fold_indices_invariant. Qed.

Lemma Forall2_insert_at {A : Type} (R : relation A) `{!Reflexive R}
    (l : list A) (i : nat) (x y : A) :
  l !! i = Some x -> R x y -> Forall2 R l (<[i := y]> l).
Proof.
  intros Hi Hxy. rewrite <- (list_insert_id l i x Hi) at 1.
  apply Forall2_insert; [reflexivity | exact Hxy].
Qed.

(** A loop whose body relates the array before and after elementwise by a
    preorder relates the input to the output in the same way. *)
Lemma forOf_related {A : Type} (R : relation A) `{!Reflexive R} `{!Transitive R}
    (body : nat -> list A -> list A) (l : list A) :
  (forall i c, Forall2 R c (body i c)) -> Forall2 R l (forOf body l).
Proof.
  intros Hbody. apply (forOf_invariant (Forall2 R l)); [reflexivity |].
  intros i c Hc. transitivity c; [exact Hc | apply Hbody].
Qed.

(** ** The loop bodies of connectors.js on one shape *)

Lemma updateStart_eq (m : string) (i : nat) (cur : list Shape.t) (s : Shape.t) :
  cur !! i = Some s ->
  Connectors.updateStart m i cur
    = <[i := updateStartShape m (Connectors.findById cur m) s]> cur.
Proof.
  intros Hi. unfold Connectors.updateStart, updateStartShape. rewrite Hi.
  destruct (Shape.startBinding s) as [b |]; [| now rewrite list_insert_id].
  destruct (Connectors.findById cur m);
    destruct (String.eqb (Binding.shapeId b) m);
    try reflexivity; now rewrite list_insert_id.
Qed.

Lemma updateEnd_eq (m : string) (i : nat) (cur : list Shape.t) (s : Shape.t) :
  cur !! i = Some s ->
  Connectors.updateEnd m i cur
    = <[i := updateEndShape m (Connectors.findById cur m) s]> cur.
Proof.
  intros Hi. unfold Connectors.updateEnd, updateEndShape. rewrite Hi.
  destruct (Shape.endBinding s) as [b |]; [| now rewrite list_insert_id].
  destruct (Connectors.findById cur m);
    destruct (String.eqb (Binding.shapeId b) m);
    try reflexivity; now rewrite list_insert_id.
Qed.

Lemma resolveStart_eq (i : nat) (cur : list Shape.t) (s : Shape.t) :
  cur !! i = Some s ->
  Connectors.resolveStart i cur = <[i := resolveStartShape (Connectors.findById cur) s]> cur.
Proof.
  intros Hi. unfold Connectors.resolveStart, resolveStartShape. rewrite Hi.
  destruct (Shape.startBinding s) as [b |]; [| now rewrite list_insert_id].
  destruct (Connectors.findById cur (Binding.shapeId b)); reflexivity.
Qed.

Lemma resolveEnd_eq (i : nat) (cur : list Shape.t) (s : Shape.t) :
  cur !! i = Some s ->
  Connectors.resolveEnd i cur = <[i := resolveEndShape (Connectors.findById cur) s]> cur.
Proof.
  intros Hi. unfold Connectors.resolveEnd, resolveEndShape. rewrite Hi.
  destruct (Shape.endBinding s) as [b |]; [| now rewrite list_insert_id].
  destruct (Connectors.findById cur (Binding.shapeId b)); reflexivity.
Qed.

Lemma lookup_insert_same {A : Type} (l : list A) (i : nat) (x y : A) :
  l !! i = Some x -> <[i := y]> l !! i = Some y.
Proof.
  intros Hi. apply list_lookup_insert_eq. eapply lookup_lt_Some, Hi.
Qed.

Lemma updateBindingsAt_eq (m : string) (i : nat) (cur : list Shape.t) (s : Shape.t) :
  cur !! i = Some s ->
  let s1 := updateStartShape m (Connectors.findById cur m) s in
  Connectors.updateBindingsAt m i cur =
    <[i := if endpointsReady s
           then updateEndShape m (Connectors.findById (<[i := s1]> cur) m) s1
           else s]> cur.
Proof.
  intros Hi s1. unfold Connectors.updateBindingsAt. rewrite Hi.
  fold (endpointsReady s). destruct (endpointsReady s).
  - rewrite (updateStart_eq m i cur s Hi). fold s1.
    rewrite (updateEnd_eq m i _ s1) by (eapply lookup_insert_same, Hi).
    apply list_insert_insert_eq.
  - now rewrite list_insert_id.
Qed.

Lemma resolveAllBindingsAt_eq (i : nat) (cur : list Shape.t) (s : Shape.t) :
  cur !! i = Some s ->
  let s1 := resolveStartShape (Connectors.findById cur) s in
  Connectors.resolveAllBindingsAt i cur =
    <[i := if endpointsReady s
           then resolveEndShape (Connectors.findById (<[i := s1]> cur)) s1
           else s]> cur.
Proof.
  intros Hi s1. unfold Connectors.resolveAllBindingsAt. rewrite Hi.
  fold (endpointsReady s). destruct (endpointsReady s).
  - rewrite (resolveStart_eq i cur s Hi). fold s1.
    rewrite (resolveEnd_eq i _ s1) by (eapply lookup_insert_same, Hi).
    apply list_insert_insert_eq.
  - now rewrite list_insert_id.
Qed.

(** ** Frame of binding propagation *)

Lemma set_points_same (s : Shape.t) : Shape.set_points (Shape.points s) s = s.
Proof. destruct s; reflexivity. Qed.

Lemma sameInterior_refl (pts : option (list Point.t)) : sameInterior pts pts.
Proof. destruct pts; simpl; auto. Qed.

Lemma sameInterior_trans (p1 p2 p3 : option (list Point.t)) :
  sameInterior p1 p2 -> sameInterior p2 p3 -> sameInterior p1 p3.
Proof.
  destruct p1, p2, p3; simpl; try tauto.
  intros [Hl1 H1] [Hl2 H2]. split; [congruence |].
  intros k Hk. rewrite H2 by lia. apply H1, Hk.
Qed.

Lemma endpointsMoved_refl (s : Shape.t) : endpointsMoved s s.
Proof.
  exists (Shape.points s). split; [apply sameInterior_refl |].
  symmetry. apply set_points_same.
Qed.

Lemma endpointsMoved_trans (s1 s2 s3 : Shape.t) :
  endpointsMoved s1 s2 -> endpointsMoved s2 s3 -> endpointsMoved s1 s3.
Proof.
  intros (p2 & H12 & ->) (p3 & H23 & ->). exists p3.
  split; [| reflexivity]. eapply sameInterior_trans; [exact H12 | exact H23].
Qed.

Lemma endpointsMoved_resolved (s s' : Shape.t) : endpointsMoved s s' -> endpointsResolved s s'.
Proof.
  intros (p & Hp & ->). exists p, (Shape.startBinding s), (Shape.endBinding s).
  repeat split; auto.
Qed.

Lemma endpointsResolved_trans (s1 s2 s3 : Shape.t) :
  endpointsResolved s1 s2 -> endpointsResolved s2 s3 -> endpointsResolved s1 s3.
Proof.
  intros (p2 & sb2 & eb2 & H12 & Hs2 & He2 & ->) (p3 & sb3 & eb3 & H23 & Hs3 & He3 & ->).
  simpl in *. exists p3, sb3, eb3.
  split; [eapply sameInterior_trans; [exact H12 | exact H23] |].
  split; [destruct Hs3 as [-> | ->]; auto |].
  split; [destruct He3 as [-> | ->]; auto | reflexivity].
Qed.

Lemma setFirstPoint_moved (pt : Point.t) (s : Shape.t) :
  endpointsMoved s (Connectors.setFirstPoint pt s).
Proof.
  unfold Connectors.setFirstPoint.
  destruct (Shape.points s) as [pts |] eqn:Hp; [| apply endpointsMoved_refl].
  eexists. split; [| reflexivity]. rewrite Hp. simpl.
  split; [apply length_insert |].
  intros k Hk. apply list_lookup_insert_ne. lia.
Qed.

Lemma setLastPoint_moved (pt : Point.t) (s : Shape.t) :
  endpointsMoved s (Connectors.setLastPoint pt s).
Proof.
  unfold Connectors.setLastPoint.
  destruct (Shape.points s) as [pts |] eqn:Hp; [| apply endpointsMoved_refl].
  eexists. split; [| reflexivity]. rewrite Hp. simpl.
  split; [apply length_insert |].
  intros k Hk. apply list_lookup_insert_ne. lia.
Qed.

Lemma updateStartShape_moved (m : string) (t : option Shape.t) (s : Shape.t) :
  endpointsMoved s (updateStartShape m t s).
Proof.
  unfold updateStartShape.
  destruct (Shape.startBinding s) as [b |], t as [t |]; try apply endpointsMoved_refl.
  destruct (String.eqb _ _); [apply setFirstPoint_moved | apply endpointsMoved_refl].
Qed.

Lemma updateEndShape_moved (m : string) (t : option Shape.t) (s : Shape.t) :
  endpointsMoved s (updateEndShape m t s).
Proof.
  unfold updateEndShape.
  destruct (Shape.endBinding s) as [b |], t as [t |]; try apply endpointsMoved_refl.
  destruct (String.eqb _ _); [apply setLastPoint_moved | apply endpointsMoved_refl].
Qed.

Lemma resolveStartShape_resolved (lk : string -> option Shape.t) (s : Shape.t) :
  endpointsResolved s (resolveStartShape lk s).
Proof.
  unfold resolveStartShape.
  destruct (Shape.startBinding s) as [b |] eqn:Hb;
    [| apply endpointsMoved_resolved, endpointsMoved_refl].
  destruct (lk (Binding.shapeId b)); [apply endpointsMoved_resolved, setFirstPoint_moved |].
  exists (Shape.points s), None, (Shape.endBinding s).
  split; [apply sameInterior_refl |]. repeat split; auto.
Qed.

Lemma resolveEndShape_resolved (lk : string -> option Shape.t) (s : Shape.t) :
  endpointsResolved s (resolveEndShape lk s).
Proof.
  unfold resolveEndShape.
  destruct (Shape.endBinding s) as [b |] eqn:Hb;
    [| apply endpointsMoved_resolved, endpointsMoved_refl].
  destruct (lk (Binding.shapeId b)); [apply endpointsMoved_resolved, setLastPoint_moved |].
  exists (Shape.points s), (Shape.startBinding s), None.
  split; [apply sameInterior_refl |]. repeat split; auto.
Qed.

(** The loop guard looks only at the type and at the length of the point
    list, which the bodies keep. *)
Lemma endpointsResolved_guard (s s' : Shape.t) :
  endpointsResolved s s' ->
  Shapes.isLineOrArrow s' = Shapes.isLineOrArrow s /\
  Connectors.hasTwoPoints s' = Connectors.hasTwoPoints s.
Proof.
  intros (p & sb & eb & Hp & _ & _ & ->). split; [reflexivity |].
  unfold Connectors.hasTwoPoints. simpl.
  destruct (Shape.points s), p; simpl in Hp; try contradiction; [| reflexivity].
  destruct Hp as [-> _]. reflexivity.
Qed.

#[local] Instance updateFrame_refl : Reflexive updateFrame.
Proof. intros s. repeat split; auto. apply endpointsMoved_refl. Qed.

#[local] Instance updateFrame_trans : Transitive updateFrame.
Proof.
  intros s1 s2 s3 (Ht1 & Hp1 & H12) (Ht2 & Hp2 & H23).
  destruct (endpointsResolved_guard _ _ (endpointsMoved_resolved _ _ H12)) as [Et Ep].
  split; [| split].
  - intros H. rewrite <- (Ht1 H). apply Ht2. congruence.
  - intros H. rewrite <- (Hp1 H). apply Hp2. congruence.
  - eapply endpointsMoved_trans; [exact H12 | exact H23].
Qed.

#[local] Instance resolveFrame_refl : Reflexive resolveFrame.
Proof.
  intros s. repeat split; auto. apply endpointsMoved_resolved, endpointsMoved_refl.
Qed.

#[local] Instance resolveFrame_trans : Transitive resolveFrame.
Proof.
  intros s1 s2 s3 (Ht1 & Hp1 & H12) (Ht2 & Hp2 & H23).
  destruct (endpointsResolved_guard _ _ H12) as [Et Ep].
  split; [| split].
  - intros H. rewrite <- (Ht1 H). apply Ht2. congruence.
  - intros H. rewrite <- (Hp1 H). apply Hp2. congruence.
  - eapply endpointsResolved_trans; [exact H12 | exact H23].
Qed.

Lemma endpointsReady_false (s : Shape.t) :
  Shapes.isLineOrArrow s = false \/ Connectors.hasTwoPoints s = false ->
  endpointsReady s = false.
Proof.
  unfold endpointsReady. intros [-> | ->]; [reflexivity | apply andb_false_r].
Qed.

Lemma updateBindingsAt_frame (m : string) (i : nat) (cur : list Shape.t) :
  Forall2 updateFrame cur (Connectors.updateBindingsAt m i cur).
Proof.
  destruct (cur !! i) as [s |] eqn:Hi.
  2: { unfold Connectors.updateBindingsAt. rewrite Hi. reflexivity. }
  rewrite (updateBindingsAt_eq m i cur s Hi).
  apply (Forall2_insert_at _ _ _ s); [exact Hi |].
  destruct (endpointsReady s) eqn:Hr; [| reflexivity].
  split; [| split].
  - intros H. rewrite endpointsReady_false in Hr by auto. discriminate.
  - intros H. rewrite endpointsReady_false in Hr by auto. discriminate.
  - eapply endpointsMoved_trans; [apply updateStartShape_moved | apply updateEndShape_moved].
Qed.

Lemma resolveAllBindingsAt_frame (i : nat) (cur : list Shape.t) :
  Forall2 resolveFrame cur (Connectors.resolveAllBindingsAt i cur).
Proof.
  destruct (cur !! i) as [s |] eqn:Hi.
  2: { unfold Connectors.resolveAllBindingsAt. rewrite Hi. reflexivity. }
  rewrite (resolveAllBindingsAt_eq i cur s Hi).
  apply (Forall2_insert_at _ _ _ s); [exact Hi |].
  destruct (endpointsReady s) eqn:Hr; [| reflexivity].
  split; [| split].
  - intros H. rewrite endpointsReady_false in Hr by auto. discriminate.
  - intros H. rewrite endpointsReady_false in Hr by auto. discriminate.
  - eapply endpointsResolved_trans;
      [apply resolveStartShape_resolved | apply resolveEndShape_resolved].
Qed.

(** C9.  [updateBindings] and [resolveAllBindings] return a list of the
    same length in which every shape that is no line or arrow, and every
    line or arrow without two points, is the shape it was; any other shape
    differs from the one it was at most in the first and last entries of
    its point list and, for [resolveAllBindings], in bindings set to
    [null].  Interior points, id, type, box and style fields are kept. *)
Theorem binding_propagation_frame (shapes : list Shape.t) (movedShapeId : string) :
  Forall2 updateFrame shapes (Connectors.updateBindings shapes movedShapeId) /\
  Forall2 resolveFrame shapes (Connectors.resolveAllBindings shapes).
Proof.
  split.
  - apply (forOf_related updateFrame). intros i c. apply updateBindingsAt_frame.
  - apply (forOf_related resolveFrame). intros i c. apply resolveAllBindingsAt_frame.
Qed.

(** ** Targets the loops do not touch *)

Lemma endpointsResolved_id (s s' : Shape.t) :
  endpointsResolved s s' -> Shape.id s' = Shape.id s.
Proof. intros (p & sb & eb & _ & _ & _ & ->). reflexivity. Qed.

Lemma resolveFrame_keepsOthers (s s' : Shape.t) : resolveFrame s s' -> keepsOthers s s'.
Proof.
  intros (Ht & _ & Hr). split; [| split].
  - eapply endpointsResolved_id, Hr.
  - apply (endpointsResolved_guard _ _ Hr).
  - exact Ht.
Qed.

Lemma updateFrame_resolveFrame (s s' : Shape.t) : updateFrame s s' -> resolveFrame s s'.
Proof.
  intros (Ht & Hp & Hm). split; [exact Ht |]. split; [exact Hp |].
  apply endpointsMoved_resolved, Hm.
Qed.

(** A target that is no line or arrow is found unchanged in any list that
    keeps the others; an id found nowhere stays unfound. *)
Lemma findById_keepsOthers (l cur : list Shape.t) (m : string) :
  Forall2 keepsOthers l cur ->
  (forall t, Connectors.findById l m = Some t -> Shapes.isLineOrArrow t = false) ->
  Connectors.findById cur m = Connectors.findById l m.
Proof.
  unfold Connectors.findById. induction 1 as [| a b l cur (Hid & _ & Hsame) _ IH];
    intros Hm; simpl in *; [reflexivity |].
  rewrite Hid. destruct (String.eqb (Shape.id a) m).
  - now rewrite Hsame by (apply Hm; reflexivity).
  - apply IH, Hm.
Qed.

(** A loop that rewrites entry [i] by [f], whatever it has done to the
    entries before, maps [f] over the list. *)
Lemma forOf_map {A : Type} (f : A -> A) (body : nat -> list A -> list A) (l : list A) :
  (forall i s, l !! i = Some s ->
     body i (map f (take i l) ++ drop i l)
       = <[i := f s]> (map f (take i l) ++ drop i l)) ->
  forOf body l = map f l.
Proof.
  intros Hbody. unfold forOf.
  assert (Hgen : forall k i, (i + k = length l)%nat ->
            fold_left (fun cur j => body j cur) (seq i k) (map f (take i l) ++ drop i l)
              = map f l).
  { induction k as [| k IH]; intros i Hik.
    - simpl. rewrite take_ge, drop_ge by lia. apply app_nil_r.
    - destruct (lookup_lt_is_Some_2 l i) as [s Hs]; [lia |].
      simpl. rewrite (Hbody i s Hs).
      replace (<[i := f s]> (map f (take i l) ++ drop i l))
        with (map f (take (S i) l) ++ drop (S i) l); [apply IH; lia |].
      rewrite (take_S_r l i s Hs), (drop_S l s i Hs), map_app. simpl.
      rewrite <- app_assoc. simpl.
      assert (Hlen : length (map f (take i l)) = i)
        by (rewrite length_map, length_take; apply lookup_lt_Some in Hs; lia).
      rewrite <- Hlen at 3. rewrite <- (Nat.add_0_r (length _)).
      rewrite insert_app_r. reflexivity. }
  apply (Hgen (length l) 0%nat). reflexivity.
Qed.

Lemma lookup_processed_prefix {A : Type} (f : A -> A) (l : list A) (i : nat) (s : A) :
  l !! i = Some s -> (map f (take i l) ++ drop i l) !! i = Some s.
Proof.
  intros Hs.
  assert (Hlen : length (map f (take i l)) = i)
    by (rewrite length_map, length_take; apply lookup_lt_Some in Hs; lia).
  rewrite lookup_app_r by lia. rewrite Hlen, Nat.sub_diag, lookup_drop.
  now rewrite Nat.add_0_r.
Qed.

Lemma Forall2_processed_prefix {A : Type} (R : relation A) `{!Reflexive R}
    (f : A -> A) (l : list A) (i : nat) :
  (forall s, R s (f s)) -> Forall2 R l (map f (take i l) ++ drop i l).
Proof.
  intros Hf. rewrite <- (take_drop i l) at 1.
  apply Forall2_app; [| reflexivity].
  apply Forall2_fmap_r, Forall_Forall2_diag, Forall_forall. intros s _. apply Hf.
Qed.

(** ** The loops as maps, when no target is a line or arrow *)

Lemma updateShape_not_ready (m : string) (t : option Shape.t) (s : Shape.t) :
  endpointsReady s = false -> updateShape m t s = s.
Proof. unfold updateShape. now intros ->. Qed.

Lemma updateShape_frame (m : string) (t : option Shape.t) (s : Shape.t) :
  updateFrame s (updateShape m t s).
Proof.
  unfold updateShape. destruct (endpointsReady s) eqn:Hr; [| reflexivity].
  split; [| split].
  - intros H. rewrite endpointsReady_false in Hr by auto. discriminate.
  - intros H. rewrite endpointsReady_false in Hr by auto. discriminate.
  - eapply endpointsMoved_trans; [apply updateStartShape_moved | apply updateEndShape_moved].
Qed.

Lemma resolveShape_frame (lk : string -> option Shape.t) (s : Shape.t) :
  resolveFrame s (resolveShape lk s).
Proof.
  unfold resolveShape. destruct (endpointsReady s) eqn:Hr; [| reflexivity].
  split; [| split].
  - intros H. rewrite endpointsReady_false in Hr by auto. discriminate.
  - intros H. rewrite endpointsReady_false in Hr by auto. discriminate.
  - eapply endpointsResolved_trans;
      [apply resolveStartShape_resolved | apply resolveEndShape_resolved].
Qed.

Lemma findById_resolveFrame (l cur : list Shape.t) (m : string) :
  Forall2 resolveFrame l cur ->
  (forall t, Connectors.findById l m = Some t -> Shapes.isLineOrArrow t = false) ->
  Connectors.findById cur m = Connectors.findById l m.
Proof.
  intros H. apply findById_keepsOthers.
  eapply Forall2_impl; [exact H | apply resolveFrame_keepsOthers].
Qed.

Lemma ready_updateFrame (s s' : Shape.t) :
  endpointsReady s = true -> endpointsMoved s s' -> updateFrame s s'.
Proof.
  intros Hr Hm. split; [| split]; [| | exact Hm];
    intros H; rewrite endpointsReady_false in Hr by auto; discriminate.
Qed.

Lemma ready_resolveFrame (s s' : Shape.t) :
  endpointsReady s = true -> endpointsResolved s s' -> resolveFrame s s'.
Proof.
  intros Hr Hm. split; [| split]; [| | exact Hm];
    intros H; rewrite endpointsReady_false in Hr by auto; discriminate.
Qed.

Lemma updateBindings_map (l : list Shape.t) (m : string) :
  (forall t, Connectors.findById l m = Some t -> Shapes.isLineOrArrow t = false) ->
  Connectors.updateBindings l m = map (updateShape m (Connectors.findById l m)) l.
Proof.
  intros Hm. apply forOf_map. intros i s Hs.
  set (cur := map _ (take i l) ++ drop i l).
  assert (Hcur : Forall2 resolveFrame l cur).
  { apply Forall2_processed_prefix; [apply _ |].
    intros x. apply updateFrame_resolveFrame, updateShape_frame. }
  assert (Hi : cur !! i = Some s) by (apply lookup_processed_prefix, Hs).
  rewrite (updateBindingsAt_eq m i cur s Hi). cbv zeta. f_equal.
  unfold updateShape. destruct (endpointsReady s) eqn:Hr; [| reflexivity].
  rewrite (findById_resolveFrame l cur m Hcur Hm).
  rewrite (findById_resolveFrame l (<[i := _]> cur) m); [reflexivity | | exact Hm].
  transitivity cur; [exact Hcur |].
  apply (Forall2_insert_at _ _ _ s); [exact Hi |].
  apply ready_resolveFrame; [exact Hr |].
  apply endpointsMoved_resolved, updateStartShape_moved.
Qed.

Lemma resolveStartShape_ext (lk1 lk2 : string -> option Shape.t) (s : Shape.t) :
  (forall b, Shape.startBinding s = Some b -> lk1 (Binding.shapeId b) = lk2 (Binding.shapeId b)) ->
  resolveStartShape lk1 s = resolveStartShape lk2 s.
Proof.
  unfold resolveStartShape. intros H.
  destruct (Shape.startBinding s) as [b |]; [| reflexivity].
  now rewrite (H b eq_refl).
Qed.

Lemma resolveEndShape_ext (lk1 lk2 : string -> option Shape.t) (s : Shape.t) :
  (forall b, Shape.endBinding s = Some b -> lk1 (Binding.shapeId b) = lk2 (Binding.shapeId b)) ->
  resolveEndShape lk1 s = resolveEndShape lk2 s.
Proof.
  unfold resolveEndShape. intros H.
  destruct (Shape.endBinding s) as [b |]; [| reflexivity].
  now rewrite (H b eq_refl).
Qed.

(** Bindings are only ever cleared. *)
Lemma setFirstPoint_bindings (pt : Point.t) (s : Shape.t) :
  Shape.startBinding (Connectors.setFirstPoint pt s) = Shape.startBinding s /\
  Shape.endBinding (Connectors.setFirstPoint pt s) = Shape.endBinding s.
Proof. unfold Connectors.setFirstPoint. destruct (Shape.points s); split; reflexivity. Qed.

Lemma setLastPoint_bindings (pt : Point.t) (s : Shape.t) :
  Shape.startBinding (Connectors.setLastPoint pt s) = Shape.startBinding s /\
  Shape.endBinding (Connectors.setLastPoint pt s) = Shape.endBinding s.
Proof. unfold Connectors.setLastPoint. destruct (Shape.points s); split; reflexivity. Qed.

Lemma resolveStartShape_bindings (lk : string -> option Shape.t) (s : Shape.t) :
  (forall b, Shape.startBinding (resolveStartShape lk s) = Some b ->
             Shape.startBinding s = Some b) /\
  Shape.endBinding (resolveStartShape lk s) = Shape.endBinding s.
Proof.
  unfold resolveStartShape.
  destruct (Shape.startBinding s) as [b0 |] eqn:Hb; [| now rewrite Hb].
  destruct (lk (Binding.shapeId b0)).
  - destruct (setFirstPoint_bindings
                (Shapes.getBoundaryPointFromAngle t (Binding.angle b0)) s) as [-> ->].
    now rewrite Hb.
  - simpl. split; [discriminate | reflexivity].
Qed.

Lemma resolveEndShape_bindings (lk : string -> option Shape.t) (s : Shape.t) :
  Shape.startBinding (resolveEndShape lk s) = Shape.startBinding s /\
  (forall b, Shape.endBinding (resolveEndShape lk s) = Some b ->
             Shape.endBinding s = Some b).
Proof.
  unfold resolveEndShape.
  destruct (Shape.endBinding s) as [b0 |] eqn:Hb; [| now rewrite Hb].
  destruct (lk (Binding.shapeId b0)).
  - destruct (setLastPoint_bindings
                (Shapes.getBoundaryPointFromAngle t (Binding.angle b0)) s) as [-> ->].
    now rewrite Hb.
  - simpl. split; [reflexivity | discriminate].
Qed.

Lemma resolveAllBindings_map (l : list Shape.t) :
  nonConnectorTargets l ->
  Connectors.resolveAllBindings l = map (resolveShape (Connectors.findById l)) l.
Proof.
  intros Hl. apply forOf_map. intros i s Hs.
  set (cur := map _ (take i l) ++ drop i l).
  assert (Hin : In s l) by (apply list_elem_of_In, list_elem_of_lookup_2 with i, Hs).
  assert (Hcur : Forall2 resolveFrame l cur).
  { apply Forall2_processed_prefix; [apply _ |]. intros x. apply resolveShape_frame. }
  assert (Hi : cur !! i = Some s) by (apply lookup_processed_prefix, Hs).
  rewrite (resolveAllBindingsAt_eq i cur s Hi). cbv zeta. f_equal.
  unfold resolveShape. destruct (endpointsReady s) eqn:Hr; [| reflexivity].
  assert (Hstart : resolveStartShape (Connectors.findById cur) s
                   = resolveStartShape (Connectors.findById l) s).
  { apply resolveStartShape_ext. intros b Hb.
    apply findById_resolveFrame; [exact Hcur |]. intros t. apply (Hl s b t); auto. }
  rewrite Hstart. apply resolveEndShape_ext. intros b Hb.
  rewrite (proj2 (resolveStartShape_bindings _ s)) in Hb.
  apply findById_resolveFrame; [| intros t; apply (Hl s b t); auto].
  transitivity cur; [exact Hcur |].
  apply (Forall2_insert_at _ _ _ s); [exact Hi |].
  apply ready_resolveFrame; [exact Hr | apply resolveStartShape_resolved].
Qed.

(** ** Re-resolution is idempotent on one shape *)

Lemma setFirstPoint_idem (p : Point.t) (s : Shape.t) :
  Connectors.setFirstPoint p (Connectors.setFirstPoint p s) = Connectors.setFirstPoint p s.
Proof.
  unfold Connectors.setFirstPoint.
  destruct (Shape.points s) as [pts |] eqn:Hp; simpl; [| now rewrite Hp].
  now rewrite list_insert_insert_eq.
Qed.

Lemma setLastPoint_idem (p : Point.t) (s : Shape.t) :
  Connectors.setLastPoint p (Connectors.setLastPoint p s) = Connectors.setLastPoint p s.
Proof.
  unfold Connectors.setLastPoint.
  destruct (Shape.points s) as [pts |] eqn:Hp; simpl; [| now rewrite Hp].
  now rewrite length_insert, list_insert_insert_eq.
Qed.

Lemma setFirstPoint_setLastPoint (p q : Point.t) (s : Shape.t) :
  Connectors.hasTwoPoints s = true ->
  Connectors.setFirstPoint p (Connectors.setLastPoint q s)
    = Connectors.setLastPoint q (Connectors.setFirstPoint p s).
Proof.
  unfold Connectors.hasTwoPoints, Connectors.setFirstPoint, Connectors.setLastPoint.
  destruct (Shape.points s) as [pts |] eqn:Hp; [| discriminate].
  intros Hlen%Nat.leb_le. simpl.
  rewrite length_insert, list_insert_insert_ne by lia. reflexivity.
Qed.

Lemma resolveStartShape_idem (lk : string -> option Shape.t) (s : Shape.t) :
  resolveStartShape lk (resolveStartShape lk s) = resolveStartShape lk s.
Proof.
  unfold resolveStartShape at 2 3.
  destruct (Shape.startBinding s) as [b |] eqn:Hb.
  - destruct (lk (Binding.shapeId b)) as [t |] eqn:Ht.
    + unfold resolveStartShape.
      rewrite (proj1 (setFirstPoint_bindings _ s)), Hb, Ht. apply setFirstPoint_idem.
    + reflexivity.
  - unfold resolveStartShape. now rewrite Hb.
Qed.

Lemma resolveEndShape_idem (lk : string -> option Shape.t) (s : Shape.t) :
  resolveEndShape lk (resolveEndShape lk s) = resolveEndShape lk s.
Proof.
  unfold resolveEndShape at 2 3.
  destruct (Shape.endBinding s) as [b |] eqn:Hb.
  - destruct (lk (Binding.shapeId b)) as [t |] eqn:Ht.
    + unfold resolveEndShape.
      rewrite (proj2 (setLastPoint_bindings _ s)), Hb, Ht. apply setLastPoint_idem.
    + reflexivity.
  - unfold resolveEndShape. now rewrite Hb.
Qed.

Lemma resolveStartShape_found (lk : string -> option Shape.t) (s : Shape.t)
    (b : Binding.t) (t : Shape.t) :
  Shape.startBinding s = Some b -> lk (Binding.shapeId b) = Some t ->
  resolveStartShape lk s
    = Connectors.setFirstPoint (Shapes.getBoundaryPointFromAngle t (Binding.angle b)) s.
Proof. unfold resolveStartShape. now intros -> ->. Qed.

Lemma resolveStartShape_missing (lk : string -> option Shape.t) (s : Shape.t)
    (b : Binding.t) :
  Shape.startBinding s = Some b -> lk (Binding.shapeId b) = None ->
  resolveStartShape lk s = Shape.set_startBinding None s.
Proof. unfold resolveStartShape. now intros -> ->. Qed.

Lemma resolveStartShape_unbound (lk : string -> option Shape.t) (s : Shape.t) :
  Shape.startBinding s = None -> resolveStartShape lk s = s.
Proof. unfold resolveStartShape. now intros ->. Qed.

Lemma resolveEndShape_found (lk : string -> option Shape.t) (s : Shape.t)
    (b : Binding.t) (t : Shape.t) :
  Shape.endBinding s = Some b -> lk (Binding.shapeId b) = Some t ->
  resolveEndShape lk s
    = Connectors.setLastPoint (Shapes.getBoundaryPointFromAngle t (Binding.angle b)) s.
Proof. unfold resolveEndShape. now intros -> ->. Qed.

Lemma resolveEndShape_missing (lk : string -> option Shape.t) (s : Shape.t)
    (b : Binding.t) :
  Shape.endBinding s = Some b -> lk (Binding.shapeId b) = None ->
  resolveEndShape lk s = Shape.set_endBinding None s.
Proof. unfold resolveEndShape. now intros -> ->. Qed.

Lemma resolveEndShape_unbound (lk : string -> option Shape.t) (s : Shape.t) :
  Shape.endBinding s = None -> resolveEndShape lk s = s.
Proof. unfold resolveEndShape. now intros ->. Qed.

Lemma resolveStartShape_resolveEndShape (lk : string -> option Shape.t) (s : Shape.t) :
  Connectors.hasTwoPoints s = true ->
  resolveStartShape lk (resolveEndShape lk s) = resolveEndShape lk (resolveStartShape lk s).
Proof.
  intros H2.
  destruct (Shape.startBinding s) as [b |] eqn:Hb.
  2: { rewrite (resolveStartShape_unbound lk s Hb).
       apply resolveStartShape_unbound.
       now rewrite (proj1 (resolveEndShape_bindings lk s)). }
  destruct (Shape.endBinding s) as [e |] eqn:He.
  2: { rewrite (resolveEndShape_unbound lk s He). symmetry.
       apply resolveEndShape_unbound.
       now rewrite (proj2 (resolveStartShape_bindings lk s)). }
  destruct (lk (Binding.shapeId b)) as [tb |] eqn:Lb;
    destruct (lk (Binding.shapeId e)) as [te |] eqn:Le.
  - rewrite (resolveEndShape_found lk s e te He Le),
            (resolveStartShape_found lk s b tb Hb Lb).
    rewrite (resolveStartShape_found lk _ b tb);
      [| now rewrite (proj1 (setLastPoint_bindings _ s)) | exact Lb].
    rewrite (resolveEndShape_found lk _ e te);
      [| now rewrite (proj2 (setFirstPoint_bindings _ s)) | exact Le].
    apply setFirstPoint_setLastPoint, H2.
  - rewrite (resolveEndShape_missing lk s e He Le),
            (resolveStartShape_found lk s b tb Hb Lb).
    rewrite (resolveStartShape_found lk _ b tb); [| exact Hb | exact Lb].
    rewrite (resolveEndShape_missing lk _ e);
      [| now rewrite (proj2 (setFirstPoint_bindings _ s)) | exact Le].
    unfold Connectors.setFirstPoint. simpl. destruct (Shape.points s); reflexivity.
  - rewrite (resolveEndShape_found lk s e te He Le),
            (resolveStartShape_missing lk s b Hb Lb).
    rewrite (resolveStartShape_missing lk _ b);
      [| now rewrite (proj1 (setLastPoint_bindings _ s)) | exact Lb].
    rewrite (resolveEndShape_found lk _ e te); [| exact He | exact Le].
    unfold Connectors.setLastPoint. simpl. destruct (Shape.points s); reflexivity.
  - rewrite (resolveEndShape_missing lk s e He Le),
            (resolveStartShape_missing lk s b Hb Lb).
    rewrite (resolveStartShape_missing lk _ b); [| exact Hb | exact Lb].
    rewrite (resolveEndShape_missing lk _ e); [| exact He | exact Le].
    reflexivity.
Qed.

Lemma endpointsReady_resolved (s s' : Shape.t) :
  endpointsResolved s s' -> endpointsReady s' = endpointsReady s.
Proof.
  intros H. destruct (endpointsResolved_guard s s' H) as [Ht Hp].
  unfold endpointsReady. now rewrite Ht, Hp.
Qed.

Lemma resolveShape_idem (lk : string -> option Shape.t) (s : Shape.t) :
  resolveShape lk (resolveShape lk s) = resolveShape lk s.
Proof.
  unfold resolveShape at 2 3.
  destruct (endpointsReady s) eqn:Hr; [| unfold resolveShape; now rewrite Hr].
  unfold resolveShape.
  assert (Hr1 : endpointsReady (resolveStartShape lk s) = true)
    by (rewrite (endpointsReady_resolved s); [exact Hr | apply resolveStartShape_resolved]).
  rewrite (endpointsReady_resolved (resolveStartShape lk s));
    [| apply resolveEndShape_resolved].
  rewrite Hr1.
  rewrite resolveStartShape_resolveEndShape.
  - now rewrite resolveStartShape_idem, resolveEndShape_idem.
  - unfold endpointsReady in Hr1. now apply andb_true_iff in Hr1.
Qed.

Lemma resolveShape_bindings (lk : string -> option Shape.t) (s : Shape.t) (b : Binding.t) :
  Shape.startBinding (resolveShape lk s) = Some b \/
  Shape.endBinding (resolveShape lk s) = Some b ->
  Shape.startBinding s = Some b \/ Shape.endBinding s = Some b.
Proof.
  unfold resolveShape. destruct (endpointsReady s); [| auto].
  destruct (resolveEndShape_bindings lk (resolveStartShape lk s)) as [Hs He].
  destruct (resolveStartShape_bindings lk s) as [Hs' He'].
  rewrite Hs. intros [H | H]; [left; apply Hs', H | right].
  rewrite <- He'. apply He, H.
Qed.

Lemma resolveShape_ext (lk1 lk2 : string -> option Shape.t) (s : Shape.t) :
  (forall b, Shape.startBinding s = Some b \/ Shape.endBinding s = Some b ->
             lk1 (Binding.shapeId b) = lk2 (Binding.shapeId b)) ->
  resolveShape lk1 s = resolveShape lk2 s.
Proof.
  intros H. unfold resolveShape. destruct (endpointsReady s); [| reflexivity].
  rewrite (resolveStartShape_ext lk1 lk2 s) by auto.
  apply resolveEndShape_ext. intros b Hb.
  rewrite (proj2 (resolveStartShape_bindings lk2 s)) in Hb. auto.
Qed.

(** C5, as the code has it.  On a list in which no binding of a line or
    arrow (with its two points) resolves to a line or arrow, a second
    [resolveAllBindings] changes nothing. *)
Theorem resolveAllBindings_idempotent (shapes : list Shape.t) :
  nonConnectorTargets shapes ->
  Connectors.resolveAllBindings (Connectors.resolveAllBindings shapes)
    = Connectors.resolveAllBindings shapes.
Proof.
  intros Hl. rewrite (resolveAllBindings_map shapes Hl).
  set (lk := Connectors.findById shapes).
  set (l1 := map (resolveShape lk) shapes).
  assert (Hframe : Forall2 resolveFrame shapes l1).
  { apply Forall2_fmap_r, Forall_Forall2_diag, Forall_forall.
    intros s _. apply resolveShape_frame. }
  assert (Hagree : forall s b,
            In s shapes -> endpointsReady s = true ->
            Shape.startBinding s = Some b \/ Shape.endBinding s = Some b ->
            Connectors.findById l1 (Binding.shapeId b) = lk (Binding.shapeId b)).
  { intros s b Hin Hr Hb. apply findById_resolveFrame; [exact Hframe |].
    intros t. apply (Hl s b t Hin Hr Hb). }
  assert (Hl1 : nonConnectorTargets l1).
  { intros s1 b t Hin1 Hr1 Hb1 Ht.
    apply in_map_iff in Hin1 as (s & <- & Hin).
    rewrite (endpointsReady_resolved s) in Hr1 by apply resolveShape_frame.
    apply resolveShape_bindings in Hb1.
    rewrite (Hagree s b Hin Hr1 Hb1) in Ht. apply (Hl s b t Hin Hr1 Hb1 Ht). }
  rewrite (resolveAllBindings_map l1 Hl1). unfold l1 at 2 3. rewrite map_map.
  apply map_ext_in. intros s Hin.
  destruct (endpointsReady s) eqn:Hr.
  - rewrite (resolveShape_ext (Connectors.findById l1) lk); [apply resolveShape_idem |].
    intros b Hb. apply resolveShape_bindings in Hb. apply (Hagree s b Hin Hr Hb).
  - unfold resolveShape. now rewrite Hr, Hr.
Qed.

(** ** Resolution at angle 0 *)

Lemma getBoundaryPointFromAngle_east (shape : Shape.t) :
  familyOf (Shape.type shape) = Rectangular ->
  0 < Bounds.w (Shapes.getBounds shape) ->
  0 < Bounds.h (Shapes.getBounds shape) ->
  Shapes.getBoundaryPointFromAngle shape 0 =
    Point.mk (Connectors.centerX shape + Bounds.w (Shapes.getBounds shape) / 2)
             (Connectors.centerY shape).
Proof.
  intros Hf Hw Hh. rewrite getBoundaryPointFromAngle_family, Hf. simpl.
  rewrite cos_0, sin_0. unfold Shapes.far.
  rewrite rayRect_level by lra.
  destruct (Rlt_dec _ _) as [_ | Hn]; [reflexivity | exfalso; lra].
Qed.

(** ** A connector bound to a connector *)

Lemma boxR_east : Shapes.getBoundaryPointFromAngle boxR 0 = Point.mk 300 50.
Proof.
  rewrite getBoundaryPointFromAngle_east; [| reflexivity | simpl; lra | simpl; lra].
  unfold Connectors.centerX, Connectors.centerY. simpl. f_equal; lra.
Qed.

Lemma lineT_bounds : Shapes.getBounds lineT = Bounds.mk 0 0 100 100.
Proof.
  unfold Shapes.getBounds, lineT. simpl. unfold Shapes.pointsBox. simpl.
  f_equal; eval_minmax.
Qed.

Lemma lineT_east : Shapes.getBoundaryPointFromAngle lineT 0 = Point.mk 100 50.
Proof.
  rewrite getBoundaryPointFromAngle_east;
    unfold Connectors.centerX, Connectors.centerY; rewrite ?lineT_bounds;
    [| reflexivity | simpl; lra | simpl; lra].
  simpl. f_equal; lra.
Qed.

Lemma lineT1_bounds : Shapes.getBounds lineT1 = Bounds.mk 100 50 200 50.
Proof.
  unfold Shapes.getBounds, lineT1, lineT. simpl. unfold Shapes.pointsBox. simpl.
  f_equal; eval_minmax.
Qed.

Lemma lineT1_east : Shapes.getBoundaryPointFromAngle lineT1 0 = Point.mk 300 75.
Proof.
  rewrite getBoundaryPointFromAngle_east;
    unfold Connectors.centerX, Connectors.centerY; rewrite ?lineT1_bounds;
    [| reflexivity | simpl; lra | simpl; lra].
  simpl. f_equal; lra.
Qed.

Lemma chained_first_pass : Connectors.resolveAllBindings chained = [lineC1; lineT1; boxR].
Proof.
  transitivity
    [Connectors.setLastPoint (Shapes.getBoundaryPointFromAngle lineT 0) lineC;
     Connectors.setFirstPoint (Shapes.getBoundaryPointFromAngle boxR 0) lineT;
     boxR]; [reflexivity |].
  now rewrite lineT_east, boxR_east.
Qed.

Lemma chained_second_pass :
  Connectors.resolveAllBindings [lineC1; lineT1; boxR]
    = [Connectors.setLastPoint (Point.mk 300 75) lineC1; lineT1; boxR].
Proof.
  transitivity
    [Connectors.setLastPoint (Shapes.getBoundaryPointFromAngle lineT1 0) lineC1;
     Connectors.setFirstPoint (Shapes.getBoundaryPointFromAngle boxR 0) lineT1;
     boxR]; [reflexivity |].
  now rewrite lineT1_east, boxR_east.
Qed.

(** C5, for every shape list, fails: line C is bound to line T, which is
    bound to rectangle R.  The first pass puts C's end on T's box as it
    is, then moves T's start, which changes T's box; the second pass
    moves C's end again. *)
Lemma resolveAllBindings_twice_differs :
  Connectors.resolveAllBindings (Connectors.resolveAllBindings chained)
    <> Connectors.resolveAllBindings chained.
Proof.
  rewrite chained_first_pass, chained_second_pass. intros H.
  injection H; intros; lra.
Qed.

(** ** The end-to-end scenario *)

Lemma getBoundaryPoint_level (shape : Shape.t) (bx by0 bw bh tx ty : R) :
  familyOf (Shape.type shape) = Rectangular ->
  Shapes.getBounds shape = Bounds.mk bx by0 bw bh ->
  0 < bw -> 0 < bh -> ty = by0 + bh / 2 -> tx <> bx + bw / 2 ->
  Shapes.getBoundaryPoint shape tx ty =
    Point.mk (if Rlt_dec (bx + bw / 2) tx then bx + bw / 2 + bw / 2
              else bx + bw / 2 - bw / 2)
             (by0 + bh / 2).
Proof.
  intros Hf Hb Hw Hh Hy Hx. rewrite getBoundaryPoint_family, Hf.
  unfold Connectors.centerX, Connectors.centerY. rewrite Hb. simpl.
  apply rayRect_level; lra.
Qed.

Section Scenario.

Variables (idA idB idArrow : string) (seedA seedB seedArrow : Z).
Hypothesis distinct : idA <> idB.

Local Abbreviation moved := (afterMove idA idB idArrow seedA seedB seedArrow).
Local Abbreviation afterPress := (pressed idA idB idArrow seedA seedB seedArrow).
Local Abbreviation afterDrag := (dragged idA idB idArrow seedA seedB seedArrow).
Local Abbreviation committedArrow := (drawnArrow idA idB idArrow seedArrow).
Local Abbreviation arrowOf := (arrowWith idA idArrow seedArrow).
Local Abbreviation start := (scene idA idB seedA seedB).
Local Abbreviation boxA := (rectA idA seedA).
Local Abbreviation boxB := (rectB idB seedB).

Lemma rectA_towards (tx : R) :
  tx <> 50 ->
  Shapes.getBoundaryPoint boxA tx 50 = Point.mk (if Rlt_dec 50 tx then 100 else 0) 50.
Proof.
  intros Hx.
  rewrite (getBoundaryPoint_level boxA 0 0 100 100) by (reflexivity || lra).
  destruct (Rlt_dec (0 + 100 / 2) tx), (Rlt_dec 50 tx); try lra; f_equal; lra.
Qed.

Lemma rectB_towards (tx : R) :
  tx <> 350 ->
  Shapes.getBoundaryPoint boxB tx 50 = Point.mk (if Rlt_dec 350 tx then 400 else 300) 50.
Proof.
  intros Hx.
  rewrite (getBoundaryPoint_level boxB 300 0 100 100) by (reflexivity || lra).
  destruct (Rlt_dec (300 + 100 / 2) tx), (Rlt_dec 350 tx); try lra; f_equal; lra.
Qed.

Lemma rectA_distance (tx : R) :
  50 < tx -> boundaryDistance tx 50 boxA = Rabs (100 - tx).
Proof.
  intros Hx. unfold boundaryDistance. rewrite rectA_towards by lra.
  destruct (Rlt_dec 50 tx); [| lra]. simpl. apply distance_level. reflexivity.
Qed.

Lemma rectB_distance (tx : R) :
  tx < 350 -> boundaryDistance tx 50 boxB = Rabs (300 - tx).
Proof.
  intros Hx. unfold boundaryDistance. rewrite rectB_towards by lra.
  destruct (Rlt_dec 350 tx); [lra |]. simpl. apply distance_level. reflexivity.
Qed.

Lemma rectA_snap : Connectors.snapOf boxA 95 50 = Snap.mk idA 0 100 50.
Proof.
  unfold Connectors.snapOf. rewrite rectA_towards by lra.
  destruct (Rlt_dec 50 95); [| lra]. simpl. f_equal.
  apply atan2_east; unfold Connectors.centerX, Connectors.centerY; simpl; lra.
Qed.

Lemma rectB_snap : Connectors.snapOf boxB 305 50 = Snap.mk idB PI 300 50.
Proof.
  unfold Connectors.snapOf. rewrite rectB_towards by lra.
  destruct (Rlt_dec 350 305); [lra |]. simpl. f_equal.
  apply atan2_west; unfold Connectors.centerX, Connectors.centerY; simpl; lra.
Qed.

(** Pressing at (95, 50) snaps to A's right edge. *)
Lemma snap_at_press :
  Connectors.findNearestBoundaryPoint [boxA; boxB] 95 50 []
    = Some (Snap.mk idA 0 100 50).
Proof.
  unfold Connectors.findNearestBoundaryPoint. simpl fold_left.
  rewrite (nearestStep_candidate 95 50 [] _ boxA) by reflexivity.
  rewrite rectA_distance by lra. rewrite (Rabs_pos_val (100 - 95)) by lra.
  simpl snd. destruct (Rlt_dec (100 - 95) Connectors.SNAP_DISTANCE) as [_ | Hn];
    [| exfalso; unfold Connectors.SNAP_DISTANCE in Hn; lra].
  rewrite (nearestStep_candidate 95 50 [] _ boxB) by reflexivity.
  rewrite rectB_distance by lra. rewrite (Rabs_pos_val (300 - 95)) by lra.
  simpl snd. destruct (Rlt_dec (300 - 95) (100 - 95)) as [Hlt | _]; [exfalso; lra |].
  simpl. now rewrite rectA_snap.
Qed.

(** Dragging to (305, 50), with A excluded, snaps to B's left edge. *)
Lemma snap_at_release :
  Connectors.findNearestBoundaryPoint [boxA; boxB] 305 50 [idA]
    = Some (Snap.mk idB PI 300 50).
Proof.
  unfold Connectors.findNearestBoundaryPoint. simpl fold_left.
  rewrite (nearestStep_skip 305 50 [idA] _ boxA).
  2: { unfold connectable, includes. simpl. now rewrite String.eqb_refl. }
  rewrite (nearestStep_candidate 305 50 [idA] _ boxB).
  2: { unfold connectable, includes. simpl.
       assert (H : String.eqb idB idA = false) by (apply String.eqb_neq; congruence).
       now rewrite H. }
  rewrite rectB_distance by lra. rewrite (Rabs_neg_val (300 - 305)) by lra.
  simpl snd. destruct (Rlt_dec _ Connectors.SNAP_DISTANCE) as [_ | Hn];
    [| exfalso; unfold Connectors.SNAP_DISTANCE in Hn; lra].
  simpl. now rewrite rectB_snap.
Qed.

Lemma press : Tools.onPointerDown start (Point.mk 95 50) idArrow seedArrow = Some afterPress.
Proof.
  unfold Tools.onPointerDown.
  change (Tools.currentTool start) with "arrow"%string.
  change (Tools.shapes start) with [boxA; boxB].
  cbn [Point.x Point.y]. rewrite snap_at_press. reflexivity.
Qed.

Lemma drag : Tools.handleDrawMove afterPress (Point.mk 305 50) = Some afterDrag.
Proof.
  unfold Tools.handleDrawMove.
  change (Tools.drawingShape afterPress)
    with (Some (arrowOf [Point.mk 100 50; Point.mk 100 50] None)).
  change (Tools.shapes afterPress) with [boxA; boxB].
  cbn [Point.x Point.y arrowWith Shape.type Shape.startBinding Binding.shapeId].
  rewrite snap_at_release. reflexivity.
Qed.

Lemma arrow_long_enough :
  Tools.tooSmall (arrowOf [Point.mk 100 50; Point.mk 300 50] None) = Some false.
Proof.
  unfold Tools.tooSmall. simpl.
  rewrite distance_level by reflexivity. rewrite Rabs_pos_val by lra.
  destruct (Rlt_dec (300 - 100) 5); [exfalso; lra | reflexivity].
Qed.

Lemma release :
  exists st, Tools.onPointerUp afterDrag = Some st /\
             Tools.shapes st = [boxA; boxB; committedArrow].
Proof.
  unfold Tools.onPointerUp, Tools.finishDraw.
  change (Tools.isDragging afterDrag) with true.
  change (Tools.dragType afterDrag) with (Some "draw"%string).
  change (Tools.drawingShape afterDrag)
    with (Some (arrowOf [Point.mk 100 50; Point.mk 300 50] None)).
  cbv beta iota. rewrite arrow_long_enough. eexists. split; reflexivity.
Qed.

Lemma movedA_east :
  Shapes.getBoundaryPointFromAngle (Shapes.move boxA 0 200) 0 = Point.mk 100 250.
Proof.
  rewrite getBoundaryPointFromAngle_east; [| reflexivity | simpl; lra | simpl; lra].
  unfold Connectors.centerX, Connectors.centerY. simpl. f_equal; lra.
Qed.

Lemma follow :
  Connectors.updateBindings moved idA =
    [Shapes.move boxA 0 200; boxB;
     arrowOf [Point.mk 100 250; Point.mk 300 50] (Some (Binding.mk idB PI))].
Proof.
  assert (Hfind : Connectors.findById moved idA = Some (Shapes.move boxA 0 200)).
  { unfold afterMove, Connectors.findById. simpl. now rewrite String.eqb_refl. }
  rewrite updateBindings_map by (rewrite Hfind; intros t [= <-]; reflexivity).
  rewrite Hfind. unfold afterMove. simpl map.
  rewrite !updateShape_not_ready by reflexivity.
  apply (f_equal2 cons eq_refl). apply (f_equal2 cons eq_refl).
  apply (f_equal2 cons); [| reflexivity].
  unfold updateShape, updateStartShape, updateEndShape. simpl.
  rewrite String.eqb_refl.
  assert (H : String.eqb idB idA = false) by (apply String.eqb_neq; congruence).
  rewrite movedA_east.
  unfold Connectors.setFirstPoint, drawnArrow, arrowWith. simpl.
  rewrite H. reflexivity.
Qed.

(** C2.  With rectangles A (0, 0, 100, 100) and B (300, 0, 100, 100) on
    the canvas, pressing the arrow tool at (95, 50), dragging to
    (305, 50) and releasing commits an arrow bound at its start to A and
    at its end to B, with end points (100, 50) and (300, 50).  Moving A
    to (0, 200) and running [updateBindings] for A puts the arrow's
    start at (100, 250). *)
Theorem arrow_between_rectangles_follows_move :
  exists st1 st2 st3 arrow arrow',
    Tools.onPointerDown (scene idA idB seedA seedB) (Point.mk 95 50) idArrow seedArrow
      = Some st1 /\
    Tools.handleDrawMove st1 (Point.mk 305 50) = Some st2 /\
    Tools.onPointerUp st2 = Some st3 /\
    Tools.shapes st3 = [rectA idA seedA; rectB idB seedB; arrow] /\
    Binding.shapeId <$> Shape.startBinding arrow = Some (Shape.id (rectA idA seedA)) /\
    Binding.shapeId <$> Shape.endBinding arrow = Some (Shape.id (rectB idB seedB)) /\
    Shape.points arrow = Some [Point.mk 100 50; Point.mk 300 50] /\
    Shape.x (Shapes.move (rectA idA seedA) 0 200) = 0 /\
    Shape.y (Shapes.move (rectA idA seedA) 0 200) = 200 /\
    Connectors.updateBindings
      (<[0%nat := Shapes.move (rectA idA seedA) 0 200]> (Tools.shapes st3))
      (Shape.id (rectA idA seedA))
      = [Shapes.move (rectA idA seedA) 0 200; rectB idB seedB; arrow'] /\
    Shape.points arrow' ≫= head = Some (Point.mk 100 250).
Proof.
  destruct release as (st3 & Hup & Hshapes).
  exists afterPress, afterDrag, st3, committedArrow.
  exists (arrowOf [Point.mk 100 250; Point.mk 300 50] (Some (Binding.mk idB PI))).
  split; [exact press |]. split; [exact drag |]. split; [exact Hup |].
  split; [exact Hshapes |]. rewrite Hshapes.
  repeat (split; [reflexivity || (simpl; lra) |]).
  split; [exact follow | reflexivity].
Qed.

End Scenario.

Lemma arrow_between_rectangles_follows_move_witness :
  "A"%string <> "B"%string /\
  exists st1 st2 st3 arrow arrow',
    Tools.onPointerDown (scene "A" "B" 1 2) (Point.mk 95 50) "arrow1" 3 = Some st1 /\
    Tools.handleDrawMove st1 (Point.mk 305 50) = Some st2 /\
    Tools.onPointerUp st2 = Some st3 /\
    Tools.shapes st3 = [rectA "A" 1; rectB "B" 2; arrow] /\
    Binding.shapeId <$> Shape.startBinding arrow = Some (Shape.id (rectA "A" 1)) /\
    Binding.shapeId <$> Shape.endBinding arrow = Some (Shape.id (rectB "B" 2)) /\
    Shape.points arrow = Some [Point.mk 100 50; Point.mk 300 50] /\
    Shape.x (Shapes.move (rectA "A" 1) 0 200) = 0 /\
    Shape.y (Shapes.move (rectA "A" 1) 0 200) = 200 /\
    Connectors.updateBindings
      (<[0%nat := Shapes.move (rectA "A" 1) 0 200]> (Tools.shapes st3))
      (Shape.id (rectA "A" 1))
      = [Shapes.move (rectA "A" 1) 0 200; rectB "B" 2; arrow'] /\
    Shape.points arrow' ≫= head = Some (Point.mk 100 250).
Proof.
  assert (H : "A"%string <> "B"%string) by discriminate.
  split; [exact H |].
  exact (arrow_between_rectangles_follows_move "A" "B" "arrow1" 1 2 3 H).
Defined.

(** ** Translation of a bound target *)

Lemma move_no_points (shape : Shape.t) (dx dy : R) :
  Shape.points shape = None ->
  Shapes.move shape dx dy
    = Shape.set_y (Shape.y shape + dy) (Shape.set_x (Shape.x shape + dx) shape).
Proof. unfold Shapes.move. now intros ->. Qed.

Lemma getBoundaryPointFromAngle_move (shape : Shape.t) (dx dy angle : R) :
  Shape.points shape = None ->
  Shapes.getBoundaryPointFromAngle (Shapes.move shape dx dy) angle
    = Shapes.movePoint (Shapes.getBoundaryPointFromAngle shape angle) dx dy.
Proof.
  intros Hp. rewrite !getBoundaryPointFromAngle_family.
  unfold Connectors.centerX, Connectors.centerY.
  rewrite (getBounds_no_points shape Hp).
  rewrite (getBounds_no_points (Shapes.move shape dx dy))
    by (rewrite move_no_points by exact Hp; exact Hp).
  rewrite move_no_points by exact Hp. simpl.
  apply rayFromCenter_translate; ring.
Qed.

Lemma findById_NoDup (l : list Shape.t) (i : nat) (s : Shape.t) :
  NoDup (map Shape.id l) -> l !! i = Some s ->
  Connectors.findById l (Shape.id s) = Some s.
Proof.
  unfold Connectors.findById. revert i.
  induction l as [| a l IH]; intros i Hnd Hi; [discriminate |].
  simpl in *. apply NoDup_cons in Hnd as [Hnotin Hnd].
  destruct i as [| i]; simpl in Hi.
  - injection Hi as ->. now rewrite String.eqb_refl.
  - destruct (String.eqb (Shape.id a) (Shape.id s)) eqn:He; [| eapply IH; eauto].
    exfalso. apply String.eqb_eq in He. apply Hnotin. rewrite He.
    apply list_elem_of_fmap. exists s. split; [reflexivity |].
    eapply list_elem_of_lookup_2, Hi.
Qed.

(** The end points of a connector after one propagation step, when the
    target is found. *)
Lemma updateShape_points (m : string) (target c : Shape.t) (pts : list Point.t) :
  Shapes.isLineOrArrow c = true -> Shape.points c = Some pts -> (2 <= length pts)%nat ->
  exists pts',
    Shape.points (updateShape m (Some target) c) = Some pts' /\
    (forall angle,
       Shape.startBinding c = Some (Binding.mk m angle) ->
       head pts' = Some (Shapes.getBoundaryPointFromAngle target angle)) /\
    (forall angle,
       Shape.endBinding c = Some (Binding.mk m angle) ->
       last pts' = Some (Shapes.getBoundaryPointFromAngle target angle)).
Proof.
  intros Hline Hp Hlen.
  assert (Hready : endpointsReady c = true).
  { unfold endpointsReady, Connectors.hasTwoPoints. rewrite Hline, Hp.
    cbn [andb]. now apply Nat.leb_le. }
  unfold updateShape. rewrite Hready.
  set (c1 := updateStartShape m (Some target) c).
  assert (H1 : exists p1, Shape.points c1 = Some p1 /\ length p1 = length pts /\
            Shape.endBinding c1 = Shape.endBinding c /\
            forall angle, Shape.startBinding c = Some (Binding.mk m angle) ->
              head p1 = Some (Shapes.getBoundaryPointFromAngle target angle)).
  { unfold c1, updateStartShape.
    destruct (Shape.startBinding c) as [b |] eqn:Hb.
    2: { exists pts. repeat split; auto. discriminate. }
    destruct (String.eqb (Binding.shapeId b) m) eqn:He.
    2: { exists pts. repeat split; auto. intros angle [= ->]. simpl in He.
         now rewrite String.eqb_refl in He. }
    unfold Connectors.setFirstPoint. rewrite Hp. simpl. eexists.
    split; [reflexivity |]. split; [apply length_insert |]. split; [reflexivity |].
    intros angle [= ->]. simpl. rewrite head_lookup.
    apply list_lookup_insert_eq. lia. }
  destruct H1 as (p1 & Hp1 & Hl1 & He1 & Hhead).
  unfold updateEndShape. rewrite He1.
  destruct (Shape.endBinding c) as [e |] eqn:Hend.
  2: { exists p1. repeat split; auto. discriminate. }
  destruct (String.eqb (Binding.shapeId e) m) eqn:He.
  2: { exists p1. repeat split; auto. intros angle [= ->]. simpl in He.
       now rewrite String.eqb_refl in He. }
  unfold Connectors.setLastPoint. rewrite Hp1. simpl. eexists.
  split; [reflexivity |]. split.
  - intros angle Hb. rewrite head_lookup, list_lookup_insert_ne by lia.
    rewrite <- head_lookup. apply Hhead, Hb.
  - intros angle [= ->]. simpl. rewrite last_lookup, length_insert.
    replace (pred (length p1)) with (length p1 - 1)%nat by lia.
    apply list_lookup_insert_eq. lia.
Qed.

(** C4.  Let S be a shape that is no line or arrow and has no point list
    (a container), with positive width and height, the only shape of its
    id, and let a line or arrow be bound to S.  After S is moved by
    (dx, dy) and [updateBindings] is run for S, an end point of the
    connector that was bound to S at an angle and rested at the boundary
    point resolved for that angle rests at that point moved by (dx, dy). *)
Theorem translation_moves_bound_endpoints
    (shapes : list Shape.t) (i j : nat) (S c : Shape.t) (dx dy : R)
    (pts : list Point.t) :
  NoDup (map Shape.id shapes) ->
  shapes !! i = Some S ->
  Shapes.isLineOrArrow S = false -> Shape.points S = None ->
  0 < Shape.width S -> 0 < Shape.height S ->
  shapes !! j = Some c ->
  Shapes.isLineOrArrow c = true -> Shape.points c = Some pts -> (2 <= length pts)%nat ->
  exists c' pts',
    Connectors.updateBindings (<[i := Shapes.move S dx dy]> shapes) (Shape.id S) !! j
      = Some c' /\
    Shape.points c' = Some pts' /\
    (forall angle,
       Shape.startBinding c = Some (Binding.mk (Shape.id S) angle) ->
       head pts = Some (Shapes.getBoundaryPointFromAngle S angle) ->
       head pts' = Some (Shapes.movePoint (Shapes.getBoundaryPointFromAngle S angle) dx dy)) /\
    (forall angle,
       Shape.endBinding c = Some (Binding.mk (Shape.id S) angle) ->
       last pts = Some (Shapes.getBoundaryPointFromAngle S angle) ->
       last pts' = Some (Shapes.movePoint (Shapes.getBoundaryPointFromAngle S angle) dx dy)).
Proof.
  intros Hnd Hi HS HpS _ _ Hj Hc Hp Hlen.
  set (S' := Shapes.move S dx dy).
  assert (Hid : Shape.id S' = Shape.id S)
    by (unfold S'; rewrite move_no_points by exact HpS; reflexivity).
  assert (HS' : Shapes.isLineOrArrow S' = false)
    by (unfold S'; rewrite move_no_points by exact HpS; exact HS).
  assert (Hij : i <> j) by (intros ->; congruence).
  assert (Hfind : Connectors.findById (<[i := S']> shapes) (Shape.id S) = Some S').
  { rewrite <- Hid. apply (findById_NoDup _ i).
    - rewrite list_fmap_insert, Hid.
      rewrite list_insert_id; [exact Hnd |]. now rewrite list_lookup_fmap, Hi.
    - eapply lookup_insert_same, Hi. }
  rewrite updateBindings_map by (rewrite Hfind; intros t [= <-]; exact HS').
  rewrite Hfind.
  destruct (updateShape_points (Shape.id S) S' c pts Hc Hp Hlen) as (pts' & Hp' & Hh & Hl).
  exists (updateShape (Shape.id S) (Some S') c), pts'.
  split.
  { change (map ?f ?l) with (f <$> l).
    now rewrite list_lookup_fmap, list_lookup_insert_ne, Hj by exact Hij. }
  split; [exact Hp' |]. split.
  - intros angle Hb _. rewrite (Hh angle Hb). unfold S'.
    now rewrite getBoundaryPointFromAngle_move.
  - intros angle Hb _. rewrite (Hl angle Hb). unfold S'.
    now rewrite getBoundaryPointFromAngle_move.
Qed.

Lemma translation_moves_bound_endpoints_witness :
  let A := rectA "A" 1 in
  let arrow := drawnArrow "A" "B" "arrow1" 3 in
  exists c' pts',
    Connectors.updateBindings (<[0%nat := Shapes.move A 0 200]> [A; arrow]) (Shape.id A)
      !! 1%nat = Some c' /\
    Shape.points c' = Some pts' /\
    (forall angle,
       Shape.startBinding arrow = Some (Binding.mk (Shape.id A) angle) ->
       head [Point.mk 100 50; Point.mk 300 50]
         = Some (Shapes.getBoundaryPointFromAngle A angle) ->
       head pts' = Some (Shapes.movePoint (Shapes.getBoundaryPointFromAngle A angle) 0 200)) /\
    (forall angle,
       Shape.endBinding arrow = Some (Binding.mk (Shape.id A) angle) ->
       last [Point.mk 100 50; Point.mk 300 50]
         = Some (Shapes.getBoundaryPointFromAngle A angle) ->
       last pts' = Some (Shapes.movePoint (Shapes.getBoundaryPointFromAngle A angle) 0 200)).
Proof.
  intros A arrow.
  apply (translation_moves_bound_endpoints [A; arrow] 0 1 A arrow 0 200
           [Point.mk 100 50; Point.mk 300 50]); try reflexivity.
  - subst A arrow. simpl.
    repeat constructor; rewrite ?list_elem_of_In; simpl; intuition discriminate.
  - simpl. lra.
  - simpl. lra.
Defined.

Lemma resolveAllBindings_idempotent_witness :
  let shapes := [rectA "A" 1; rectB "B" 2; drawnArrow "A" "B" "arrow1" 3] in
  Connectors.resolveAllBindings (Connectors.resolveAllBindings shapes)
    = Connectors.resolveAllBindings shapes.
Proof.
  intros shapes. apply (resolveAllBindings_idempotent shapes).
  intros s b t Hin Hr Hb Ht. simpl in Hin.
  destruct Hin as [<- | [<- | [<- | []]]]; try discriminate Hr.
  destruct Hb as [Hb | Hb]; injection Hb as <-; simpl in Ht;
    injection Ht as <-; reflexivity.
Defined.

(** ** Deletion and dangling bindings *)







Lemma cleanBindings_repaired (deletedIds : gset string) (s : Shape.t) :
  Shape.id s ∉ deletedIds ->
  repairedAfterDelete deletedIds s (Tools.cleanBindings deletedIds s).
Proof.
  intros Hs. unfold repairedAfterDelete, Tools.cleanBindings, withoutDeleted.
  rewrite bool_decide_eq_false_2 by exact Hs.
  destruct s as [? ? ? ? ? ? ? ? ? ? ? ? ? ? ? ? ? ? ? ? sb eb ?]; simpl.
  destruct sb as [b |], eb as [e |]; simpl;
    repeat match goal with
           | |- context [bool_decide ?P] => destruct (bool_decide P); simpl
           end; reflexivity.
Qed.

Lemma cleanBindings_id (deletedIds : gset string) (s : Shape.t) :
  Shape.id (Tools.cleanBindings deletedIds s) = Shape.id s.
Proof.
  unfold Tools.cleanBindings.
  destruct (bool_decide (Shape.id s ∈ deletedIds)); [reflexivity |].
  destruct (Shape.startBinding s) as [b |];
    [destruct (bool_decide (Binding.shapeId b ∈ deletedIds)) |];
    match goal with
    | |- context [Shape.endBinding ?x] =>
        destruct (Shape.endBinding x) as [e |];
          [destruct (bool_decide (Binding.shapeId e ∈ deletedIds)) |]
    end; reflexivity.
Qed.

Lemma filter_map_comm {A : Type} (p : A -> bool) (f : A -> A) (l : list A) :
  (forall a, p (f a) = p a) ->
  List.filter p (map f l) = map f (List.filter p l).
Proof.
  intros Hp. induction l as [| a l IH]; [reflexivity |].
  simpl. rewrite Hp. destruct (p a); simpl; now rewrite IH.
Qed.

Lemma withoutDeleted_empty (b : option Binding.t) : withoutDeleted ∅ b = b.
Proof.
  destruct b as [x |]; [| reflexivity]. simpl.
  now rewrite bool_decide_eq_false_2 by set_solver.
Qed.

Lemma deleteSelected_repairs (st : Tools.State) :
  Forall2 (repairedAfterDelete (Tools.selectedIds st))
    (List.filter (fun s => negb (bool_decide (Shape.id s ∈ Tools.selectedIds st)))
                 (Tools.shapes st))
    (Tools.shapes (Tools.deleteSelected st)).
Proof.
  unfold Tools.deleteSelected.
  destruct (bool_decide (size (Tools.selectedIds st) = 0%nat)) eqn:Hsize.
  - apply bool_decide_eq_true in Hsize. apply size_empty_inv in Hsize.
    apply leibniz_equiv in Hsize. rewrite Hsize.
    induction (Tools.shapes st) as [| a l IH]; [constructor |].
    simpl. rewrite bool_decide_eq_false_2 by set_solver. simpl.
    constructor; [| exact IH].
    unfold repairedAfterDelete. rewrite !withoutDeleted_empty. now destruct a.
  - simpl. rewrite filter_map_comm by (intros a; now rewrite cleanBindings_id).
    apply Forall2_fmap_r, Forall_Forall2_diag, Forall_forall.
    intros s Hs. apply cleanBindings_repaired.
    apply list_elem_of_In, filter_In in Hs as [_ Hs].
    apply negb_true_iff, bool_decide_eq_false in Hs. exact Hs.
Qed.




(** ** The elliptical family does not keep the angle *)

Lemma cos_sin_PI4_pos : 0 < cos (PI / 4) /\ sin (PI / 4) = cos (PI / 4).
Proof.
  rewrite cos_PI4, sin_PI4. split; [| reflexivity].
  apply Rdiv_lt_0_compat; [lra | apply Rlt_sqrt2_0].
Qed.

Lemma ellipseExample_point :
  Shapes.getBoundaryPointFromAngle ellipseExample (PI / 4)
    = Point.mk (100 + 100 * cos (PI / 4)) (50 + 50 * sin (PI / 4)).
Proof.
  destruct cos_sin_PI4_pos as [Hc Hs].
  rewrite getBoundaryPointFromAngle_family.
  change (familyOf (Shape.type ellipseExample)) with Elliptical.
  unfold Connectors.centerX, Connectors.centerY. simpl.
  unfold Shapes._rayEllipseFromCenter, Shapes.far, Math.cos, Math.sin.
  set (c := cos (PI / 4)) in *. set (s := sin (PI / 4)) in *.
  replace (0 + 200 / 2 + c * 10000 - (0 + 200 / 2)) with (c * 10000) by ring.
  replace (0 + 100 / 2 + s * 10000 - (0 + 100 / 2)) with (s * 10000) by ring.
  assert (Ha : Math.atan2 (s * 10000) (c * 10000) = PI / 4).
  { unfold Math.atan2. destruct (Rlt_dec 0 (c * 10000)) as [_ | Hn]; [| exfalso; lra].
    replace (s * 10000 / (c * 10000)) with 1 by (rewrite Hs; field; lra).
    apply atan_1. }
  rewrite Ha. fold c s.
  destruct (Req_dec_T (c * 10000) 0) as [H0 | _]; [exfalso; lra |].
  f_equal; lra.
Qed.

Lemma atan_half_bounds : 0 < atan (1 / 2) < PI / 4.
Proof.
  split.
  - rewrite <- atan_0. apply atan_increasing. lra.
  - rewrite <- atan_1. apply atan_increasing. lra.
Qed.

Lemma ellipseExample_angle :
  let p := Shapes.getBoundaryPointFromAngle ellipseExample (PI / 4) in
  Utils.angle (Connectors.centerX ellipseExample) (Connectors.centerY ellipseExample)
              (Point.x p) (Point.y p) = atan (1 / 2).
Proof.
  destruct cos_sin_PI4_pos as [Hc Hs].
  intros p. unfold p. rewrite ellipseExample_point.
  unfold Utils.angle, Connectors.centerX, Connectors.centerY. simpl.
  rewrite Hs. set (c := cos (PI / 4)) in *.
  unfold Math.atan2.
  destruct (Rlt_dec 0 (100 + 100 * c - (0 + 200 / 2))) as [_ | Hn]; [| exfalso; lra].
  f_equal. field. lra.
Qed.

(** C1 at the ellipse with box (0, 0, 200, 100) and angle PI/4: the point
    resolved is (100 + 100 cos(PI/4), 50 + 50 sin(PI/4)), and the angle
    from the center to it is atan(1/2), congruent to PI/4 modulo 2 PI for
    no integer. *)
Theorem ellipse_resolution_changes_angle :
  let p := Shapes.getBoundaryPointFromAngle ellipseExample (PI / 4) in
  p = Point.mk (100 + 100 * cos (PI / 4)) (50 + 50 * sin (PI / 4)) /\
  Utils.angle (Connectors.centerX ellipseExample) (Connectors.centerY ellipseExample)
              (Point.x p) (Point.y p) = atan (1 / 2) /\
  forall k : Z, atan (1 / 2) <> PI / 4 + 2 * IZR k * PI.
Proof.
  split; [exact ellipseExample_point |]. split; [exact ellipseExample_angle |].
  intros k Heq. pose proof atan_half_bounds as [H0 H1]. pose proof PI_RGT_0 as Hpi.
  destruct (Z_le_gt_dec 0 k) as [Hk | Hk].
  - apply IZR_le in Hk. nra.
  - assert (Hk' : (k <= -1)%Z) by lia. apply IZR_le in Hk'. nra.
Qed.

(** ** History: stored copies *)

Lemma readShape_app (h ext : Store.t) (l : nat) (s : Shape.t) :
  Store.readShape h l = Some s -> Store.readShape (h ++ ext) l = Some s.
Proof.
  unfold Store.readShape. intros H.
  destruct (h !! l) as [c |] eqn:Hl; [| discriminate].
  now rewrite (lookup_app_l_Some h ext l c Hl).
Qed.

(** Allocation leaves the arrays of the store as they are. *)
Lemma readArray_app (h ext : Store.t) (a : nat) (v : list Shape.t) :
  Store.readArray h a = Some v -> Store.readArray (h ++ ext) a = Some v.
Proof.
  unfold Store.readArray. intros H.
  destruct (h !! a) as [c |] eqn:Ha; [| discriminate].
  rewrite (lookup_app_l_Some h ext a c Ha).
  destruct c as [| elems]; [discriminate |].
  apply mapM_Some in H. apply mapM_Some.
  eapply Forall2_impl; [exact H |]. intros l s. apply readShape_app.
Qed.

Lemma deepClone_Some (h : Store.t) (a : nat) (v : list Shape.t) :
  Store.readArray h a = Some v ->
  Store.deepClone h a = Some (h ++ cloneCells h v, (length h + length v)%nat).
Proof. unfold Store.deepClone, cloneCells. now intros ->. Qed.

Lemma deepClone_inv (h h' : Store.t) (a c : nat) :
  Store.deepClone h a = Some (h', c) ->
  exists v, Store.readArray h a = Some v /\
            h' = h ++ cloneCells h v /\ c = (length h + length v)%nat.
Proof.
  unfold Store.deepClone, cloneCells.
  destruct (Store.readArray h a) as [v |]; [| discriminate].
  intros [= <- <-]. eauto.
Qed.

Lemma length_cloneCells (h : Store.t) (v : list Shape.t) :
  length (cloneCells h v) = S (length v).
Proof. unfold cloneCells. rewrite length_app, length_map. simpl. lia. Qed.

(** The copy reads as the value copied in any store that agrees with the
    allocating one on the cells of the copy. *)
Lemma clone_read (h h2 : Store.t) (v : list Shape.t) :
  (forall l, (length h <= l < length (h ++ cloneCells h v))%nat ->
             h2 !! l = (h ++ cloneCells h v) !! l) ->
  Store.readArray h2 (length h + length v) = Some v.
Proof.
  intros Hagree. unfold Store.readArray.
  assert (Hlen : length (h ++ cloneCells h v) = (length h + S (length v))%nat)
    by (rewrite length_app, length_cloneCells; reflexivity).
  rewrite Hagree by lia.
  rewrite lookup_app_r by lia.
  replace (length h + length v - length h)%nat with (length v) by lia.
  unfold cloneCells at 1. rewrite lookup_app_r by (rewrite length_map; lia).
  rewrite length_map, Nat.sub_diag. simpl.
  apply mapM_Some, Forall2_same_length_lookup_2; [apply length_seq |].
  intros i l s Hl Hs. apply lookup_seq in Hl as [-> Hi].
  unfold Store.readShape. rewrite Hagree by lia.
  rewrite lookup_app_r by lia.
  replace (length h + i - length h)%nat with i by lia.
  unfold cloneCells. rewrite lookup_app_l by (rewrite length_map; lia).
  now rewrite list_lookup_fmap, Hs.
Qed.

Lemma clone_read_here (h : Store.t) (v : list Shape.t) :
  Store.readArray (h ++ cloneCells h v) (length h + length v) = Some v.
Proof. apply clone_read. reflexivity. Qed.

Lemma last_capped {A : Type} (l : list A) (c : A) :
  last (History.capped (l ++ [c])) = Some c.
Proof.
  unfold History.capped.
  destruct (History.MAX_STACK <? length (l ++ [c]))%nat eqn:Hc; [| apply last_snoc].
  apply Nat.ltb_lt in Hc. rewrite length_app in Hc. unfold History.MAX_STACK in Hc.
  simpl in Hc. destruct l as [| x l]; [simpl in Hc; lia |].
  simpl. apply last_snoc.
Qed.



(** [History.push] on the store is [History.pushValue] on the snapshots:
    the by-value history of the tool state is the store's history read. *)
Lemma push_by_value (h h1 : Store.t) (hist hist1 : History.t) (s : History.snapshots)
    (shapes : nat) :
  stacksRead h hist s ->
  History.push h hist shapes = Some (h1, hist1) ->
  exists v, Store.readArray h shapes = Some v /\
            stacksRead h1 hist1 (History.pushValue s v).
Proof.
  intros [Hu _] Hp. unfold History.push in Hp.
  destruct (Store.deepClone h shapes) as [[h' c] |] eqn:Hc; [| discriminate].
  injection Hp as <- <-. apply deepClone_inv in Hc as (v & Hv & -> & ->).
  exists v. split; [exact Hv |]. split; [| constructor]. simpl.
  assert (Hall : Forall2 (fun a w => Store.readArray (h ++ cloneCells h v) a = Some w)
                   (History.undoStack hist ++ [(length h + length v)%nat])
                   (History.undoValues s ++ [v])).
  { apply Forall2_app.
    - eapply Forall2_impl; [exact Hu |]. intros a w. apply readArray_app.
    - constructor; [apply clone_read_here | constructor]. }
  unfold History.capped. rewrite !length_app, (Forall2_length _ _ _ Hu). simpl.
  destruct (History.MAX_STACK <? _)%nat; [| exact Hall].
  destruct Hall; [constructor | assumption].
Qed.



(** ** The rectangular and diamond families keep the angle *)

Lemma cos_sin_atan_ratio (s c : R) :
  c <> 0 -> s * s + c * c = 1 ->
  cos (atan (s / c)) = Rabs c /\ sin (atan (s / c)) = s / c * Rabs c.
Proof.
  intros Hc H1.
  assert (Hpos : 0 < Rabs c) by (apply Rabs_pos_lt, Hc).
  assert (Hsq : Rabs c * Rabs c = c * c).
  { rewrite <- Rabs_mult. apply Rabs_pos_eq. nra. }
  assert (Hroot : sqrt (1 + (s / c)²) = / Rabs c).
  { apply sqrt_lem_1.
    - unfold Rsqr. nra.
    - left. apply Rinv_0_lt_compat, Hpos.
    - unfold Rsqr. rewrite <- Rinv_mult, Hsq.
      replace (1 + s / c * (s / c)) with ((s * s + c * c) / (c * c)) by (field; lra).
      rewrite H1. field. lra. }
  rewrite cos_atan, sin_atan, Hroot. split; field; lra.
Qed.

(** [Math.atan2] of a vector of direction [theta] has the cosine and sine
    of [theta]. *)
Lemma cos_sin_atan2 (r theta : R) :
  0 < r ->
  cos (Math.atan2 (r * sin theta) (r * cos theta)) = cos theta /\
  sin (Math.atan2 (r * sin theta) (r * cos theta)) = sin theta.
Proof.
  intros Hr. pose proof (sin2_cos2 theta) as H1. unfold Rsqr in H1.
  set (s := sin theta) in *. set (c := cos theta) in *.
  unfold Math.atan2.
  destruct (Rlt_dec 0 (r * c)) as [Hx | Hx].
  - assert (Hc : 0 < c) by nra.
    replace (r * s / (r * c)) with (s / c) by (field; lra).
    destruct (cos_sin_atan_ratio s c) as [-> ->]; [lra | lra |].
    rewrite Rabs_pos_eq by lra. split; [reflexivity | field; lra].
  - destruct (Rlt_dec (r * c) 0) as [Hx' | Hx'].
    + assert (Hc : c < 0) by nra.
      replace (r * s / (r * c)) with (s / c) by (field; lra).
      destruct (cos_sin_atan_ratio s c) as [Hcos Hsin]; [lra | lra |].
      rewrite Rabs_left in Hcos, Hsin by lra.
      destruct (Rle_dec 0 (r * s)).
      * rewrite neg_cos, neg_sin, Hcos, Hsin. split; field; lra.
      * unfold Rminus. rewrite cos_plus, sin_plus, cos_neg, sin_neg, cos_PI, sin_PI.
        rewrite Hcos, Hsin. split; field; lra.
    + assert (Hc : c = 0) by nra.
      assert (Hs : s * s = 1) by nra.
      destruct (Rlt_dec 0 (r * s)) as [Hy | Hy].
      * assert (s = 1) by nra. rewrite cos_PI2, sin_PI2. lra.
      * destruct (Rlt_dec (r * s) 0) as [Hy' | Hy'].
        -- assert (s = -1) by nra. rewrite cos_neg, sin_neg, cos_PI2, sin_PI2. lra.
        -- exfalso. assert (s = 0) by nra. nra.
Qed.

Lemma same_cos_sin_congruent (a theta : R) :
  cos a = cos theta -> sin a = sin theta ->
  exists k : Z, a = theta + 2 * IZR k * PI.
Proof.
  intros Hc Hs.
  assert (H1 : cos (a - theta) = 1).
  { rewrite cos_minus, Hc, Hs. pose proof (sin2_cos2 theta) as H. unfold Rsqr in H. lra. }
  assert (H0 : sin ((a - theta) / 2) = 0).
  { replace (a - theta) with (2 * ((a - theta) / 2)) in H1 by field.
    rewrite cos_2a_sin in H1. nra. }
  destruct (sin_eq_0_0 _ H0) as [k Hk]. exists k. lra.
Qed.

(** A point at a positive multiple of (cos theta, sin theta) from the
    center is seen from the center at an angle congruent to [theta]. *)
Lemma angle_of_scaled_direction (cx cy px py rho theta : R) :
  0 < rho -> px - cx = rho * cos theta -> py - cy = rho * sin theta ->
  exists k : Z, Utils.angle cx cy px py = theta + 2 * IZR k * PI.
Proof.
  intros Hrho Hx Hy. unfold Utils.angle. rewrite Hx, Hy.
  destruct (cos_sin_atan2 rho theta Hrho) as [Hc Hs].
  apply same_cos_sin_congruent; assumption.
Qed.

Lemma div_nonneg (a b : R) : 0 <= a -> 0 < b -> 0 <= a / b.
Proof.
  intros Ha Hb. unfold Rdiv. apply Rmult_le_pos; [exact Ha |].
  left. apply Rinv_0_lt_compat, Hb.
Qed.

Lemma rayRect_scaled (cx cy tx ty halfW halfH : R) :
  0 < halfW -> 0 < halfH -> ~ (tx - cx = 0 /\ ty - cy = 0) ->
  exists scale, 0 < scale /\
    Shapes._rayRectFromCenter cx cy tx ty halfW halfH
      = Point.mk (cx + (tx - cx) * scale) (cy + (ty - cy) * scale).
Proof.
  intros Hw Hh Hoff. unfold Shapes._rayRectFromCenter, Math.abs.
  set (dx := tx - cx) in *. set (dy := ty - cy) in *.
  pose proof (Rabs_pos dx) as Hax. pose proof (Rabs_pos dy) as Hay.
  assert (Hscale : 0 < (if Rgt_dec (Rabs dx / halfW) (Rabs dy / halfH)
                        then halfW / Rabs dx else halfH / Rabs dy)).
  { destruct (Rgt_dec (Rabs dx / halfW) (Rabs dy / halfH)) as [Hgt | Hle].
    - assert (0 <= Rabs dy / halfH) by (apply div_nonneg; lra).
      assert (0 < Rabs dx).
      { destruct (Req_dec_T (Rabs dx) 0) as [E | E]; [| lra].
        rewrite E in Hgt. unfold Rdiv in Hgt. rewrite Rmult_0_l in Hgt. lra. }
      apply Rdiv_lt_0_compat; lra.
    - assert (0 <= Rabs dx / halfW) by (apply div_nonneg; lra).
      assert (0 < Rabs dy).
      { destruct (Req_dec_T (Rabs dy) 0) as [E | E]; [| lra].
        exfalso. rewrite E in Hle. unfold Rdiv at 2 in Hle. rewrite Rmult_0_l in Hle.
        assert (Ex : Rabs dx = 0).
        { destruct (Req_dec_T (Rabs dx) 0) as [E' | E']; [exact E' |].
          exfalso. apply Hle. apply Rdiv_lt_0_compat; lra. }
        apply Hoff. split.
        - destruct (Req_dec_T dx 0) as [H0 | H0]; [exact H0 |].
          apply Rabs_pos_lt in H0. lra.
        - destruct (Req_dec_T dy 0) as [H0 | H0]; [exact H0 |].
          apply Rabs_pos_lt in H0. lra. }
      apply Rdiv_lt_0_compat; lra. }
  eexists. split; [exact Hscale |].
  destruct (Req_dec_T dx 0) as [Ex | Ex], (Req_dec_T dy 0) as [Ey | Ey];
    try reflexivity.
  exfalso. apply Hoff. split; assumption.
Qed.

Lemma rayDiamond_scaled (cx cy tx ty halfW halfH : R) :
  0 < halfW -> 0 < halfH -> ~ (tx - cx = 0 /\ ty - cy = 0) ->
  exists scale, 0 < scale /\
    Shapes._rayDiamondFromCenter cx cy tx ty halfW halfH
      = Point.mk (cx + (tx - cx) * scale) (cy + (ty - cy) * scale).
Proof.
  intros Hw Hh Hoff. unfold Shapes._rayDiamondFromCenter, Math.abs.
  set (dx := tx - cx) in *. set (dy := ty - cy) in *.
  pose proof (Rabs_pos dx) as Hax. pose proof (Rabs_pos dy) as Hay.
  assert (Hsum : 0 < Rabs dx / halfW + Rabs dy / halfH).
  { assert (0 <= Rabs dx / halfW) by (apply div_nonneg; lra).
    assert (0 <= Rabs dy / halfH) by (apply div_nonneg; lra).
    destruct (Req_dec_T dx 0) as [Ex | Ex].
    - destruct (Req_dec_T dy 0) as [Ey | Ey]; [exfalso; apply Hoff; auto |].
      apply Rabs_pos_lt in Ey.
      assert (0 < Rabs dy / halfH) by (apply Rdiv_lt_0_compat; lra). lra.
    - apply Rabs_pos_lt in Ex.
      assert (0 < Rabs dx / halfW) by (apply Rdiv_lt_0_compat; lra). lra. }
  exists (1 / (Rabs dx / halfW + Rabs dy / halfH)).
  split; [apply Rdiv_lt_0_compat; lra |].
  destruct (Req_dec_T dx 0) as [Ex | Ex], (Req_dec_T dy 0) as [Ey | Ey];
    try reflexivity.
  exfalso. apply Hoff. split; assumption.
Qed.

(** X14.  On a rectangular or diamond shape of positive width and height the
    point resolved for an angle is seen from the center at that angle,
    modulo 2 PI. *)
Lemma straight_families_keep_angle (shape : Shape.t) (theta : R) :
  familyOf (Shape.type shape) <> Elliptical ->
  0 < Bounds.w (Shapes.getBounds shape) ->
  0 < Bounds.h (Shapes.getBounds shape) ->
  exists k : Z,
    Utils.angle (Connectors.centerX shape) (Connectors.centerY shape)
      (Point.x (Shapes.getBoundaryPointFromAngle shape theta))
      (Point.y (Shapes.getBoundaryPointFromAngle shape theta))
    = theta + 2 * IZR k * PI.
Proof.
  intros Hfam Hw Hh. rewrite getBoundaryPointFromAngle_family.
  set (cx := Connectors.centerX shape). set (cy := Connectors.centerY shape).
  assert (Hoff : ~ (cx + cos theta * Shapes.far - cx = 0 /\
                    cy + sin theta * Shapes.far - cy = 0)).
  { intros [Hx Hy]. apply (far_target_off_center theta). split; lra. }
  assert (Hray : exists scale, 0 < scale /\
            rayFromCenter (familyOf (Shape.type shape)) cx cy
              (cx + cos theta * Shapes.far) (cy + sin theta * Shapes.far)
              (Bounds.w (Shapes.getBounds shape) / 2)
              (Bounds.h (Shapes.getBounds shape) / 2)
            = Point.mk (cx + (cx + cos theta * Shapes.far - cx) * scale)
                       (cy + (cy + sin theta * Shapes.far - cy) * scale)).
  { destruct (familyOf (Shape.type shape)); [| contradiction |]; simpl.
    - apply rayRect_scaled; [lra | lra | exact Hoff].
    - apply rayDiamond_scaled; [lra | lra | exact Hoff]. }
  destruct Hray as (scale & Hscale & ->). simpl.
  apply (angle_of_scaled_direction cx cy _ _ (Shapes.far * scale)).
  - unfold Shapes.far. nra.
  - ring.
  - ring.
Qed.

(** * Further properties of the code *)

(** ** utils.js *)

Lemma le_true (a b : R) : Math.le a b = true <-> a <= b.
Proof. unfold Math.le. destruct (Rle_dec a b); split; (discriminate || tauto). Qed.

Lemma lt_true (a b : R) : Math.lt a b = true <-> a < b.
Proof. unfold Math.lt. destruct (Rlt_dec a b); split; (discriminate || tauto). Qed.

Lemma lt_false (a b : R) : Math.lt a b = false <-> b <= a.
Proof. unfold Math.lt. destruct (Rlt_dec a b); split; (discriminate || lra || auto). Qed.

Lemma pointInRect_true (px py x y w h : R) :
  Utils.pointInRect px py x y w h = true <->
  x <= px <= x + w /\ y <= py <= y + h.
Proof.
  unfold Utils.pointInRect. rewrite !andb_true_iff, !le_true. tauto.
Qed.

(** X1.  [normalizeBounds] gives the same box for both orders of the two
    corners; the box has non-negative width and height, spans from the
    smaller to the larger coordinate on each axis, and holds both
    corners. *)
Theorem normalizeBounds_canonical (x1 y1 x2 y2 : R) :
  let b := Utils.normalizeBounds x1 y1 x2 y2 in
  Utils.normalizeBounds x2 y2 x1 y1 = b /\
  0 <= Bounds.w b /\ 0 <= Bounds.h b /\
  Bounds.x b = Rmin x1 x2 /\ Bounds.x b + Bounds.w b = Rmax x1 x2 /\
  Bounds.y b = Rmin y1 y2 /\ Bounds.y b + Bounds.h b = Rmax y1 y2 /\
  Utils.pointInRect x1 y1 (Bounds.x b) (Bounds.y b) (Bounds.w b) (Bounds.h b) = true /\
  Utils.pointInRect x2 y2 (Bounds.x b) (Bounds.y b) (Bounds.w b) (Bounds.h b) = true.
Proof.
  unfold Utils.normalizeBounds, Math.min, Math.max, Math.abs. simpl.
  rewrite !pointInRect_true.
  repeat split;
    try (f_equal; unfold Rmin, Rmax, Rabs;
         repeat match goal with
                | |- context [Rle_dec ?a ?b] => destruct (Rle_dec a b)
                | |- context [Rcase_abs ?a] => destruct (Rcase_abs a)
                end; lra);
    unfold Rmin, Rmax, Rabs;
    repeat match goal with
           | |- context [Rle_dec ?a ?b] => destruct (Rle_dec a b)
           | |- context [Rcase_abs ?a] => destruct (Rcase_abs a)
           end; lra.
Qed.

Lemma rectsOverlap_iff_point (a b : Bounds.t) :
  0 <= Bounds.w a -> 0 <= Bounds.h a -> 0 <= Bounds.w b -> 0 <= Bounds.h b ->
  (Utils.rectsOverlap a b = true <->
   exists px py,
     Utils.pointInRect px py (Bounds.x a) (Bounds.y a) (Bounds.w a) (Bounds.h a) = true /\
     Utils.pointInRect px py (Bounds.x b) (Bounds.y b) (Bounds.w b) (Bounds.h b) = true).
Proof.
  intros Hwa Hha Hwb Hhb. unfold Utils.rectsOverlap.
  rewrite negb_true_iff, !orb_false_iff, !lt_false. split.
  - intros (((H1 & H2) & H3) & H4).
    exists (Rmax (Bounds.x a) (Bounds.x b)), (Rmax (Bounds.y a) (Bounds.y b)).
    rewrite !pointInRect_true. unfold Rmax.
    destruct (Rle_dec (Bounds.x a) (Bounds.x b)),
             (Rle_dec (Bounds.y a) (Bounds.y b)); lra.
  - intros (px & py & Ha & Hb). rewrite pointInRect_true in Ha, Hb. lra.
Qed.

(** X2.  [rectsOverlap] does not depend on the order of its arguments,
    and for boxes of non-negative width and height it holds exactly when
    some point lies in both boxes ([pointInRect]). *)
Theorem rectsOverlap_common_point (a b : Bounds.t) :
  0 <= Bounds.w a -> 0 <= Bounds.h a -> 0 <= Bounds.w b -> 0 <= Bounds.h b ->
  Utils.rectsOverlap a b = Utils.rectsOverlap b a /\
  (Utils.rectsOverlap a b = true <->
   exists px py,
     Utils.pointInRect px py (Bounds.x a) (Bounds.y a) (Bounds.w a) (Bounds.h a) = true /\
     Utils.pointInRect px py (Bounds.x b) (Bounds.y b) (Bounds.w b) (Bounds.h b) = true).
Proof.
  intros Hwa Hha Hwb Hhb. split; [| now apply rectsOverlap_iff_point].
  unfold Utils.rectsOverlap. f_equal.
  destruct (Math.lt (Bounds.x a + Bounds.w a) (Bounds.x b)),
           (Math.lt (Bounds.x b + Bounds.w b) (Bounds.x a)),
           (Math.lt (Bounds.y a + Bounds.h a) (Bounds.y b)),
           (Math.lt (Bounds.y b + Bounds.h b) (Bounds.y a)); reflexivity.
Qed.

Lemma rectsOverlap_common_point_witness :
  let a := Bounds.mk 0 0 10 10 in
  let b := Bounds.mk 10 5 3 0 in
  Utils.rectsOverlap a b = Utils.rectsOverlap b a /\
  (Utils.rectsOverlap a b = true <->
   exists px py,
     Utils.pointInRect px py (Bounds.x a) (Bounds.y a) (Bounds.w a) (Bounds.h a) = true /\
     Utils.pointInRect px py (Bounds.x b) (Bounds.y b) (Bounds.w b) (Bounds.h b) = true).
Proof.
  intros a b. apply (rectsOverlap_common_point a b); simpl; lra.
Defined.

Lemma sqrt_le_of_le (a b : R) : 0 <= a -> a <= b -> sqrt a <= sqrt b.
Proof. intros Ha Hab. apply sqrt_le_1; lra. Qed.

Lemma clamp_unit_cases (t : R) :
  let t0 := Math.max 0 (Math.min 1 t) in
  (t <= 0 /\ t0 = 0) \/ (1 <= t /\ t0 = 1) \/ (0 <= t <= 1 /\ t0 = t).
Proof.
  unfold Math.max, Math.min, Rmax, Rmin.
  destruct (Rle_dec 1 t), (Rle_dec 0 1); try lra;
    match goal with |- context [Rle_dec 0 ?x] => destruct (Rle_dec 0 x) end; lra.
Qed.

Lemma pointToSegmentDist_le (px py x1 y1 x2 y2 t : R) :
  0 <= t <= 1 ->
  Utils.pointToSegmentDist px py x1 y1 x2 y2
    <= Utils.distance px py (x1 + t * (x2 - x1)) (y1 + t * (y2 - y1)).
Proof.
  intros Ht. unfold Utils.pointToSegmentDist. cbv zeta.
  set (dx := x2 - x1). set (dy := y2 - y1).
  destruct (Req_dec_T (dx * dx + dy * dy) 0) as [Hz | Hnz].
  - assert (Hdx : dx = 0) by nra. assert (Hdy : dy = 0) by nra.
    rewrite Hdx, Hdy. unfold Utils.distance. right. f_equal. ring.
  - set (len := dx * dx + dy * dy) in *.
    assert (Hlen : 0 < len) by (unfold len in *; nra).
    set (ts := ((px - x1) * dx + (py - y1) * dy) / len).
    assert (Hts : ts * len = (px - x1) * dx + (py - y1) * dy)
      by (unfold ts; field; lra).
    pose proof (clamp_unit_cases ts) as Hc. cbv zeta in Hc.
    set (t0 := Math.max 0 (Math.min 1 ts)) in *.
    unfold Utils.distance, Math.sqrt.
    apply sqrt_le_of_le; [apply Rplus_le_le_0_compat; apply pow2_ge_0 |].
    assert (Hdiff :
      (x1 + t * dx - px) ^ 2 + (y1 + t * dy - py) ^ 2
      - ((x1 + t0 * dx - px) ^ 2 + (y1 + t0 * dy - py) ^ 2)
      = (t - t0) * ((t + t0) * len - 2 * (ts * len))).
    { rewrite Hts. unfold len. ring. }
    assert (Hprod : 0 <= (t - t0) * ((t + t0) * len - 2 * (ts * len))).
    { replace ((t + t0) * len - 2 * (ts * len)) with (len * (t + t0 - 2 * ts)) by ring.
      destruct Hc as [[Hle ->] | [[Hge ->] | [_ ->]]].
      - apply Rmult_le_pos; [lra |]. apply Rmult_le_pos; lra.
      - replace ((t - 1) * (len * (t + 1 - 2 * ts)))
          with ((1 - t) * (len * (2 * ts - t - 1))) by ring.
        apply Rmult_le_pos; [lra |]. apply Rmult_le_pos; lra.
      - replace ((t - ts) * (len * (t + ts - 2 * ts))) with (len * ((t - ts) * (t - ts)))
          by ring.
        apply Rmult_le_pos; [lra | apply Rle_0_sqr]. }
    lra.
Qed.

(** X3.  [pointToSegmentDist] is the distance from the point to the
    nearest point of the segment: it is the distance to some point
    [a + t0 (b - a)] with [t0] in [0, 1], and no point of the segment is
    nearer. *)
Theorem pointToSegmentDist_nearest (px py x1 y1 x2 y2 : R) :
  (exists t0, 0 <= t0 <= 1 /\
     Utils.pointToSegmentDist px py x1 y1 x2 y2
       = Utils.distance px py (x1 + t0 * (x2 - x1)) (y1 + t0 * (y2 - y1))) /\
  (forall t, 0 <= t <= 1 ->
     Utils.pointToSegmentDist px py x1 y1 x2 y2
       <= Utils.distance px py (x1 + t * (x2 - x1)) (y1 + t * (y2 - y1))).
Proof.
  split; [| intros t; apply pointToSegmentDist_le].
  unfold Utils.pointToSegmentDist. cbv zeta.
  destruct (Req_dec_T ((x2 - x1) * (x2 - x1) + (y2 - y1) * (y2 - y1)) 0) as [Hz | Hnz].
  - exists 0. split; [lra |]. unfold Utils.distance. f_equal. ring.
  - match goal with
    | |- context [Math.max 0 (Math.min 1 ?q)] =>
        pose proof (clamp_unit_cases q) as Hc; cbv zeta in Hc;
        exists (Math.max 0 (Math.min 1 q))
    end.
    split; [lra | reflexivity].
Qed.

Lemma Rabs_sqr_pow (a : R) : Rabs a * Rabs a = a ^ 2.
Proof. rewrite <- Rabs_mult. rewrite Rabs_pos_eq by nra. ring. Qed.

(** X4.  With the same center and positive half-extents, the diamond
    test implies the ellipse test, and the ellipse test implies the test
    of the enclosing rectangle. *)
Theorem diamond_within_ellipse_within_rect (px py cx cy rx ry : R) :
  0 < rx -> 0 < ry ->
  (Utils.pointInDiamond px py cx cy rx ry = true ->
   Utils.pointInEllipse px py cx cy rx ry = true) /\
  (Utils.pointInEllipse px py cx cy rx ry = true ->
   Utils.pointInRect px py (cx - rx) (cy - ry) (2 * rx) (2 * ry) = true).
Proof.
  intros Hrx Hry.
  unfold Utils.pointInDiamond, Utils.pointInEllipse, Math.abs.
  rewrite pointInRect_true, !le_true.
  set (u := Rabs (px - cx) / rx). set (v := Rabs (py - cy) / ry).
  assert (Hu : 0 <= u) by (apply div_nonneg; [apply Rabs_pos | exact Hrx]).
  assert (Hv : 0 <= v) by (apply div_nonneg; [apply Rabs_pos | exact Hry]).
  assert (Hux : (px - cx) ^ 2 / rx ^ 2 = u * u).
  { unfold u. rewrite <- Rabs_sqr_pow. field. lra. }
  assert (Hvy : (py - cy) ^ 2 / ry ^ 2 = v * v).
  { unfold v. rewrite <- Rabs_sqr_pow. field. lra. }
  rewrite Hux, Hvy. split.
  - intros Hd. nra.
  - intros He.
    assert (Hu1 : u <= 1) by nra. assert (Hv1 : v <= 1) by nra.
    assert (Hax : Rabs (px - cx) <= rx).
    { replace (Rabs (px - cx)) with (u * rx) by (unfold u; field; lra). nra. }
    assert (Hay : Rabs (py - cy) <= ry).
    { replace (Rabs (py - cy)) with (v * ry) by (unfold v; field; lra). nra. }
    revert Hax Hay. unfold Rabs.
    destruct (Rcase_abs (px - cx)), (Rcase_abs (py - cy)); lra.
Qed.

Lemma diamond_within_ellipse_within_rect_witness :
  (Utils.pointInDiamond 1 1 0 0 4 2 = true ->
   Utils.pointInEllipse 1 1 0 0 4 2 = true) /\
  (Utils.pointInEllipse 1 1 0 0 4 2 = true ->
   Utils.pointInRect 1 1 (0 - 4) (0 - 2) (2 * 4) (2 * 2) = true).
Proof.
  apply (diamond_within_ellipse_within_rect 1 1 0 0 4 2); lra.
Defined.

(** ** shapes.js: the boundary point lies on the outline *)

Lemma div_gt_cross (a b hw hh : R) :
  0 < hw -> 0 < hh -> (a / hw > b / hh <-> a * hh > b * hw).
Proof.
  intros Hw Hh.
  assert (E : (a / hw - b / hh) * (hw * hh) = a * hh - b * hw) by (field; lra).
  assert (Hp : 0 < hw * hh) by (apply Rmult_lt_0_compat; assumption).
  split; intros H.
  - assert (0 < (a / hw - b / hh) * (hw * hh)) by (apply Rmult_lt_0_compat; lra). lra.
  - destruct (Rlt_dec (b / hh) (a / hw)) as [Hlt | Hge]; [lra |].
    assert (0 <= (b / hh - a / hw) * (hw * hh)) by (apply Rmult_le_pos; lra).
    assert ((b / hh - a / hw) * (hw * hh) = b * hw - a * hh) by (field; lra). lra.
Qed.

Lemma Rabs_scaled (d s : R) : 0 <= s -> Rabs (d * s) = Rabs d * s.
Proof. intros Hs. rewrite Rabs_mult, (Rabs_pos_eq s) by exact Hs. reflexivity. Qed.

Lemma offset_cancel (c d : R) : c + d - c = d.
Proof. ring. Qed.

Lemma Rabs_zero_iff (d : R) : Rabs d = 0 <-> d = 0.
Proof.
  split; [| intros ->; apply Rabs_R0].
  intros H. destruct (Req_dec_T d 0) as [E | E]; [exact E |].
  apply Rabs_no_R0 in E. contradiction.
Qed.

Lemma rect_scale_outline (a b hw hh : R) :
  0 <= a -> 0 <= b -> 0 < hw -> 0 < hh -> ~ (a = 0 /\ b = 0) ->
  let scale := if Rgt_dec (a / hw) (b / hh) then hw / a else hh / b in
  0 < scale /\ Rmax (a * scale / hw) (b * scale / hh) = 1.
Proof.
  intros Ha Hb Hw Hh Hoff. cbv zeta.
  destruct (Rgt_dec (a / hw) (b / hh)) as [Hgt | Hle].
  - apply (div_gt_cross a b hw hh Hw Hh) in Hgt.
    assert (Hapos : 0 < a) by nra.
    split; [apply Rdiv_lt_0_compat; assumption |].
    replace (a * (hw / a) / hw) with 1 by (field; lra).
    apply Rmax_left.
    apply (Rmult_le_reg_r (a * hh)); [nra |].
    replace (b * (hw / a) / hh * (a * hh)) with (b * hw) by (field; lra). lra.
  - assert (Hcross : a * hh <= b * hw).
    { destruct (Rle_dec (a * hh) (b * hw)) as [L | L]; [exact L |].
      exfalso. apply Hle, (div_gt_cross a b hw hh Hw Hh). lra. }
    assert (Hbpos : 0 < b).
    { destruct (Req_dec_T b 0) as [Z | Z]; [| lra].
      exfalso. apply Hoff. split; [| exact Z]. rewrite Z in Hcross. nra. }
    split; [apply Rdiv_lt_0_compat; assumption |].
    replace (b * (hh / b) / hh) with 1 by (field; lra).
    apply Rmax_right.
    apply (Rmult_le_reg_r (b * hw)); [nra |].
    replace (a * (hh / b) / hw * (b * hw)) with (a * hh) by (field; lra). lra.
Qed.

Lemma rayRect_on_outline (cx cy tx ty hw hh : R) :
  0 < hw -> 0 < hh ->
  onOutline Rectangular cx cy hw hh (Shapes._rayRectFromCenter cx cy tx ty hw hh).
Proof.
  intros Hw Hh. unfold onOutline, Shapes._rayRectFromCenter, Math.abs. cbv zeta.
  set (dx := tx - cx). set (dy := ty - cy).
  pose proof (Rabs_pos dx) as Ha. pose proof (Rabs_pos dy) as Hb.
  destruct (Req_dec_T dx 0) as [Ex | Ex], (Req_dec_T dy 0) as [Ey | Ey]; simpl.
  1: { rewrite !offset_cancel. replace (cy - cy) with 0 by ring.
       rewrite Rabs_R0, (Rabs_pos_eq hw) by lra.
       replace (hw / hw) with 1 by (field; lra). replace (0 / hh) with 0 by (field; lra).
       apply Rmax_left. lra. }
  all: rewrite !offset_cancel;
    destruct (rect_scale_outline (Rabs dx) (Rabs dy) hw hh Ha Hb Hw Hh) as [Hs Hmax];
    [ rewrite !Rabs_zero_iff; tauto |];
    rewrite !Rabs_scaled by lra; exact Hmax.
Qed.

Lemma rayEllipse_on_outline (cx cy tx ty rx ry : R) :
  0 < rx -> 0 < ry ->
  onOutline Elliptical cx cy rx ry (Shapes._rayEllipseFromCenter cx cy tx ty rx ry).
Proof.
  intros Hw Hh. unfold onOutline, Shapes._rayEllipseFromCenter, Math.cos, Math.sin.
  cbv zeta.
  set (dx := tx - cx). set (dy := ty - cy).
  destruct (Req_dec_T dx 0) as [Ex | Ex], (Req_dec_T dy 0) as [Ey | Ey]; simpl.
  1: { rewrite !offset_cancel. replace (cy - cy) with 0 by ring.
       rewrite Rabs_R0, (Rabs_pos_eq rx) by lra. field. lra. }
  all: rewrite !offset_cancel;
    set (th := Math.atan2 dy dx);
    pose proof (sin2_cos2 th) as H1; unfold Rsqr in H1;
    rewrite !(Rmult_comm rx), !(Rmult_comm ry), !Rabs_scaled by lra;
    replace (Rabs (cos th) * rx / rx) with (Rabs (cos th)) by (field; lra);
    replace (Rabs (sin th) * ry / ry) with (Rabs (sin th)) by (field; lra);
    rewrite !Rabs_sqr_pow; lra.
Qed.

Lemma diamond_sum_pos (a b hw hh : R) :
  0 <= a -> 0 <= b -> 0 < hw -> 0 < hh -> ~ (a = 0 /\ b = 0) ->
  0 < a / hw + b / hh.
Proof.
  intros Ha Hb Hw Hh Hoff.
  assert (Hu : 0 <= a / hw) by (apply div_nonneg; assumption).
  assert (Hv : 0 <= b / hh) by (apply div_nonneg; assumption).
  destruct (Req_dec_T a 0) as [Za | Za].
  - assert (0 < b) by (destruct (Req_dec_T b 0); [tauto | lra]).
    assert (0 < b / hh) by (apply Rdiv_lt_0_compat; assumption). lra.
  - assert (0 < a / hw) by (apply Rdiv_lt_0_compat; lra). lra.
Qed.

Lemma rayDiamond_on_outline (cx cy tx ty hw hh : R) :
  0 < hw -> 0 < hh ->
  onOutline Diamond cx cy hw hh (Shapes._rayDiamondFromCenter cx cy tx ty hw hh).
Proof.
  intros Hw Hh. unfold onOutline, Shapes._rayDiamondFromCenter, Math.abs. cbv zeta.
  set (dx := tx - cx). set (dy := ty - cy).
  pose proof (Rabs_pos dx) as Ha. pose proof (Rabs_pos dy) as Hb.
  destruct (Req_dec_T dx 0) as [Ex | Ex], (Req_dec_T dy 0) as [Ey | Ey]; simpl.
  1: { replace (cx - cx) with 0 by ring. replace (cy - hh - cy) with (- hh) by ring.
       rewrite Rabs_R0, Rabs_Ropp, (Rabs_pos_eq hh) by lra. field. lra. }
  all: rewrite !offset_cancel;
    pose proof (diamond_sum_pos (Rabs dx) (Rabs dy) hw hh Ha Hb Hw Hh) as Hsum;
    assert (Hpos : 0 < Rabs dx / hw + Rabs dy / hh)
      by (apply Hsum; rewrite !Rabs_zero_iff; tauto);
    rewrite !Rabs_scaled by (apply div_nonneg; lra);
    assert (E : forall S, S <> 0 ->
              Rabs dx * (1 / S) / hw + Rabs dy * (1 / S) / hh
                = (Rabs dx / hw + Rabs dy / hh) * / S)
      by (intros; field; lra);
    rewrite E by lra; apply Rinv_r; lra.
Qed.

Lemma rayFromCenter_on_outline (f : Family) (cx cy tx ty hw hh : R) :
  0 < hw -> 0 < hh ->
  onOutline f cx cy hw hh (rayFromCenter f cx cy tx ty hw hh).
Proof.
  destruct f; simpl rayFromCenter;
    [apply rayRect_on_outline | apply rayEllipse_on_outline | apply rayDiamond_on_outline].
Qed.

(** X5.  For a shape of positive width and height, the point
    [getBoundaryPoint] returns lies on the shape's outline, whatever the
    target: on the border of the box, on the ellipse inscribed in it, or
    on the rhombus inscribed in it, by the shape's family. *)
Theorem getBoundaryPoint_on_outline (shape : Shape.t) (targetX targetY : R) :
  0 < Bounds.w (Shapes.getBounds shape) ->
  0 < Bounds.h (Shapes.getBounds shape) ->
  onOutline (familyOf (Shape.type shape))
    (Connectors.centerX shape) (Connectors.centerY shape)
    (Bounds.w (Shapes.getBounds shape) / 2) (Bounds.h (Shapes.getBounds shape) / 2)
    (Shapes.getBoundaryPoint shape targetX targetY).
Proof.
  intros Hw Hh. rewrite getBoundaryPoint_family.
  apply rayFromCenter_on_outline; lra.
Qed.

Lemma getBoundaryPoint_on_outline_witness :
  onOutline (familyOf (Shape.type ellipseExample))
    (Connectors.centerX ellipseExample) (Connectors.centerY ellipseExample)
    (Bounds.w (Shapes.getBounds ellipseExample) / 2)
    (Bounds.h (Shapes.getBounds ellipseExample) / 2)
    (Shapes.getBoundaryPoint ellipseExample 300 400).
Proof.
  apply (getBoundaryPoint_on_outline ellipseExample 300 400); simpl; lra.
Defined.

(** ** shapes.js: hit testing *)

Lemma familyOf_hit_rect (type : string) :
  includes Shapes.HIT_RECT_CASES type = true -> familyOf type = Rectangular.
Proof.
  intros H. apply includes_In in H. simpl in H.
  repeat (destruct H as [<- | H]; [reflexivity |]). contradiction.
Qed.

Lemma rect_cases_hit (type : string) :
  includes Shapes.RECT_CASES type = true -> includes Shapes.HIT_RECT_CASES type = true.
Proof.
  intros H. apply includes_In in H. simpl in H.
  repeat (destruct H as [<- | H]; [reflexivity |]). contradiction.
Qed.

Lemma stroke_no_family_case (shape : Shape.t) :
  isStroke shape = true ->
  includes Shapes.HIT_RECT_CASES (Shape.type shape) = false /\
  includes Shapes.ELLIPSE_CASES (Shape.type shape) = false /\
  includes Shapes.DIAMOND_CASES (Shape.type shape) = false.
Proof.
  unfold isStroke, Shapes.isLineOrArrow. rewrite !orb_true_iff, !String.eqb_eq.
  intros [[-> | ->] | ->]; repeat split; reflexivity.
Qed.

(** Off the strokes, [hitTest] is the containment test of the shape's
    family, the family [getBoundaryPoint] uses. *)
Lemma hitTest_family (shape : Shape.t) (px py tolerance : R) :
  isStroke shape = false ->
  Shapes.hitTest shape px py tolerance
    = hitFamily (familyOf (Shape.type shape)) (Shapes.getBounds shape) px py tolerance.
Proof.
  unfold isStroke. intros Hs. apply orb_false_iff in Hs as [Hl Hf].
  unfold Shapes.hitTest. cbv zeta.
  destruct (includes Shapes.HIT_RECT_CASES (Shape.type shape)) eqn:Hr.
  - rewrite (familyOf_hit_rect _ Hr). reflexivity.
  - unfold familyOf.
    destruct (includes Shapes.RECT_CASES (Shape.type shape)) eqn:Hr'.
    { apply rect_cases_hit in Hr'. congruence. }
    destruct (includes Shapes.ELLIPSE_CASES (Shape.type shape)); [reflexivity |].
    destruct (includes Shapes.DIAMOND_CASES (Shape.type shape)); [reflexivity |].
    rewrite Hl, Hf. reflexivity.
Qed.

Lemma outline_hit (f : Family) (b : Bounds.t) (p : Point.t) (tolerance : R) :
  0 < Bounds.w b -> 0 < Bounds.h b -> 0 <= tolerance ->
  onOutline f (Bounds.x b + Bounds.w b / 2) (Bounds.y b + Bounds.h b / 2)
            (Bounds.w b / 2) (Bounds.h b / 2) p ->
  hitFamily f b (Point.x p) (Point.y p) tolerance = true.
Proof.
  intros Hw Hh Ht. unfold onOutline, hitFamily. cbv zeta.
  set (cx := Bounds.x b + Bounds.w b / 2). set (cy := Bounds.y b + Bounds.h b / 2).
  set (hw := Bounds.w b / 2). set (hh := Bounds.h b / 2).
  assert (Hhw : 0 < hw) by (unfold hw; lra). assert (Hhh : 0 < hh) by (unfold hh; lra).
  set (a := Rabs (Point.x p - cx)). set (c := Rabs (Point.y p - cy)).
  assert (Ha : 0 <= a) by apply Rabs_pos. assert (Hc : 0 <= c) by apply Rabs_pos.
  assert (Hu : 0 <= a / hw) by (apply div_nonneg; assumption).
  assert (Hv : 0 <= c / hh) by (apply div_nonneg; assumption).
  assert (Hau : a = a / hw * hw) by (field; lra).
  assert (Hcv : c = c / hh * hh) by (field; lra).
  assert (Hut : a / (hw + tolerance) <= a / hw).
  { unfold Rdiv. apply Rmult_le_compat_l; [exact Ha |]. apply Rinv_le_contravar; lra. }
  assert (Hvt : c / (hh + tolerance) <= c / hh).
  { unfold Rdiv. apply Rmult_le_compat_l; [exact Hc |]. apply Rinv_le_contravar; lra. }
  assert (Hut0 : 0 <= a / (hw + tolerance)) by (apply div_nonneg; lra).
  assert (Hvt0 : 0 <= c / (hh + tolerance)) by (apply div_nonneg; lra).
  destruct f; intros Hout.
  - apply pointInRect_true.
    assert (Hu1 : a / hw <= 1) by (rewrite <- Hout; apply Rmax_l).
    assert (Hv1 : c / hh <= 1) by (rewrite <- Hout; apply Rmax_r).
    assert (Hax : a <= hw) by nra. assert (Hcy : c <= hh) by nra.
    unfold a, c in Hax, Hcy. revert Hax Hcy. unfold Rabs, cx, cy, hw, hh.
    destruct (Rcase_abs _), (Rcase_abs _); lra.
  - unfold Utils.pointInEllipse. apply le_true.
    replace ((Point.x p - cx) ^ 2 / (hw + tolerance) ^ 2)
      with (a / (hw + tolerance) * (a / (hw + tolerance)))
      by (unfold a; rewrite <- (Rabs_sqr_pow (Point.x p - cx)); field; lra).
    replace ((Point.y p - cy) ^ 2 / (hh + tolerance) ^ 2)
      with (c / (hh + tolerance) * (c / (hh + tolerance)))
      by (unfold c; rewrite <- (Rabs_sqr_pow (Point.y p - cy)); field; lra).
    nra.
  - unfold Utils.pointInDiamond, Math.abs. apply le_true. fold a c. lra.
Qed.

(** X6.  For a shape of positive width and height that is not a line,
    arrow or freehand stroke, the boundary point [getBoundaryPoint]
    returns is hit by [hitTest] at any tolerance that is not negative:
    a connector's endpoint lies on a shape one can click. *)
Theorem boundary_point_is_hit (shape : Shape.t) (targetX targetY tolerance : R) :
  isStroke shape = false ->
  0 < Bounds.w (Shapes.getBounds shape) ->
  0 < Bounds.h (Shapes.getBounds shape) ->
  0 <= tolerance ->
  Shapes.hitTest shape
    (Point.x (Shapes.getBoundaryPoint shape targetX targetY))
    (Point.y (Shapes.getBoundaryPoint shape targetX targetY)) tolerance = true.
Proof.
  intros Hs Hw Hh Ht. rewrite hitTest_family by exact Hs.
  apply outline_hit; try assumption.
  rewrite getBoundaryPoint_family.
  apply rayFromCenter_on_outline; lra.
Qed.

Lemma boundary_point_is_hit_witness :
  Shapes.hitTest ellipseExample
    (Point.x (Shapes.getBoundaryPoint ellipseExample 300 400))
    (Point.y (Shapes.getBoundaryPoint ellipseExample 300 400)) 6 = true.
Proof.
  apply (boundary_point_is_hit ellipseExample 300 400 6); simpl; try reflexivity; lra.
Defined.

Lemma div_le_wider (a r r' : R) : 0 <= a -> 0 < r -> r <= r' -> 0 <= a / r' <= a / r.
Proof.
  intros Ha Hr Hrr. split; [apply div_nonneg; lra |].
  unfold Rdiv. apply Rmult_le_compat_l; [exact Ha |]. apply Rinv_le_contravar; lra.
Qed.

Lemma sqr_le_of_le (u u' : R) : 0 <= u' <= u -> u' * u' <= u * u.
Proof. intros H. nra. Qed.

Lemma hitFamily_monotone (f : Family) (b : Bounds.t) (px py tolerance tolerance' : R) :
  0 <= Bounds.w b -> 0 <= Bounds.h b -> 0 < tolerance -> tolerance <= tolerance' ->
  hitFamily f b px py tolerance = true -> hitFamily f b px py tolerance' = true.
Proof.
  intros Hw Hh Ht Htt. unfold hitFamily. cbv zeta.
  set (cx := Bounds.x b + Bounds.w b / 2). set (cy := Bounds.y b + Bounds.h b / 2).
  set (a := Rabs (px - cx)). set (c := Rabs (py - cy)).
  assert (Ha : 0 <= a) by apply Rabs_pos. assert (Hc : 0 <= c) by apply Rabs_pos.
  pose proof (div_le_wider a (Bounds.w b / 2 + tolerance) (Bounds.w b / 2 + tolerance') Ha)
    as Hu.
  pose proof (div_le_wider c (Bounds.h b / 2 + tolerance) (Bounds.h b / 2 + tolerance') Hc)
    as Hv.
  destruct f.
  - rewrite !pointInRect_true. lra.
  - unfold Utils.pointInEllipse. rewrite !le_true.
    assert (E : forall d r, 0 < r -> d ^ 2 / r ^ 2 = Rabs d / r * (Rabs d / r)).
    { intros d r Hr. rewrite <- (Rabs_sqr_pow d). field. lra. }
    rewrite !E by lra. fold a c.
    pose proof (sqr_le_of_le (a / (Bounds.w b / 2 + tolerance))
                             (a / (Bounds.w b / 2 + tolerance'))) as Hsu.
    pose proof (sqr_le_of_le (c / (Bounds.h b / 2 + tolerance))
                             (c / (Bounds.h b / 2 + tolerance'))) as Hsv.
    intros H. assert (Hu' := Hu ltac:(lra) ltac:(lra)). assert (Hv' := Hv ltac:(lra) ltac:(lra)).
    specialize (Hsu Hu'). specialize (Hsv Hv'). lra.
  - unfold Utils.pointInDiamond, Math.abs. rewrite !le_true. fold a c.
    intros H. assert (Hu' := Hu ltac:(lra) ltac:(lra)). assert (Hv' := Hv ltac:(lra) ltac:(lra)).
    lra.
Qed.

Lemma segmentWithin_monotone (pts : list Point.t) (px py limit limit' : R) :
  limit <= limit' ->
  Shapes.segmentWithin pts px py limit = true ->
  Shapes.segmentWithin pts px py limit' = true.
Proof.
  intros Hl. unfold Shapes.segmentWithin. rewrite !existsb_exists.
  intros (i & Hi & H). exists i. split; [exact Hi |].
  destruct (pts !! i), (pts !! S i); try discriminate.
  apply le_true in H. apply le_true. lra.
Qed.

(** X7.  A larger tolerance never loses a hit: for a shape whose box has
    no negative side and a positive tolerance, a point [hitTest] accepts
    is accepted at every larger tolerance, for boxes, ellipses, rhombi
    and strokes alike. *)
Theorem hitTest_tolerance_monotone (shape : Shape.t) (px py tolerance tolerance' : R) :
  0 <= Bounds.w (Shapes.getBounds shape) ->
  0 <= Bounds.h (Shapes.getBounds shape) ->
  0 < tolerance -> tolerance <= tolerance' ->
  Shapes.hitTest shape px py tolerance = true ->
  Shapes.hitTest shape px py tolerance' = true.
Proof.
  intros Hw Hh Ht Htt.
  destruct (isStroke shape) eqn:Hs.
  - destruct (stroke_no_family_case shape Hs) as (Hr & He & Hd).
    unfold Shapes.hitTest. cbv zeta. rewrite Hr, He, Hd.
    unfold isStroke in Hs.
    destruct (Shapes.isLineOrArrow shape).
    + destruct (Shape.points shape) as [pts |]; [| discriminate].
      destruct (2 <=? length pts)%nat; [| discriminate].
      apply segmentWithin_monotone. lra.
    + simpl in Hs. rewrite Hs.
      destruct (Shape.points shape) as [pts |]; [| discriminate].
      destruct (2 <=? length pts)%nat; [| discriminate].
      apply segmentWithin_monotone. lra.
  - rewrite !hitTest_family by exact Hs. apply hitFamily_monotone; assumption.
Qed.

Lemma hitTest_tolerance_monotone_witness :
  Shapes.hitTest boxR 195 50 8 = true.
Proof.
  apply (hitTest_tolerance_monotone boxR 195 50 6 8); try (simpl; lra).
  change (Utils.pointInRect 195 50 (200 - 6) (0 - 6) (100 + 6 * 2) (100 + 6 * 2) = true).
  apply pointInRect_true. lra.
Defined.

(** ** shapes.js: bounding boxes *)

Lemma fold_min_spec {A : Type} (f : A -> R) (ps : list A) (m0 : R) :
  let m := fold_left (fun m q => Math.min m (f q)) ps m0 in
  m <= m0 /\ (forall q, In q ps -> m <= f q) /\
  (m = m0 \/ exists q, In q ps /\ f q = m).
Proof.
  revert m0. induction ps as [| a ps IH]; intros m0; simpl.
  - split; [lra |]. split; [tauto | now left].
  - destruct (IH (Math.min m0 (f a))) as (H1 & H2 & H3).
    unfold Math.min in *.
    pose proof (Rmin_l m0 (f a)). pose proof (Rmin_r m0 (f a)).
    split; [lra |]. split.
    + intros q [<- | Hq]; [lra | apply H2, Hq].
    + destruct H3 as [H3 | (q & Hq & H3)].
      * destruct (Rmin_case m0 (f a) (fun r => r = m0 \/ r = f a)) as [E | E]; auto.
        -- left. congruence.
        -- right. exists a. split; [now left | congruence].
      * right. exists q. split; [now right | exact H3].
Qed.

Lemma fold_max_spec {A : Type} (f : A -> R) (ps : list A) (m0 : R) :
  let m := fold_left (fun m q => Math.max m (f q)) ps m0 in
  m0 <= m /\ (forall q, In q ps -> f q <= m) /\
  (m = m0 \/ exists q, In q ps /\ f q = m).
Proof.
  revert m0. induction ps as [| a ps IH]; intros m0; simpl.
  - split; [lra |]. split; [tauto | now left].
  - destruct (IH (Math.max m0 (f a))) as (H1 & H2 & H3).
    unfold Math.max in *.
    pose proof (Rmax_l m0 (f a)). pose proof (Rmax_r m0 (f a)).
    split; [lra |]. split.
    + intros q [<- | Hq]; [lra | apply H2, Hq].
    + destruct H3 as [H3 | (q & Hq & H3)].
      * destruct (Rmax_case m0 (f a) (fun r => r = m0 \/ r = f a)) as [E | E]; auto.
        -- left. congruence.
        -- right. exists a. split; [now left | congruence].
      * right. exists q. split; [now right | exact H3].
Qed.

Lemma pointsBox_tight (p : Point.t) (ps : list Point.t) :
  tightBox (Shapes.pointsBox p ps) (p :: ps).
Proof.
  unfold tightBox, Shapes.pointsBox. cbv zeta. simpl.
  destruct (fold_min_spec Point.x ps (Point.x p)) as (Hx1 & Hx2 & Hx3).
  destruct (fold_min_spec Point.y ps (Point.y p)) as (Hy1 & Hy2 & Hy3).
  destruct (fold_max_spec Point.x ps (Point.x p)) as (HX1 & HX2 & HX3).
  destruct (fold_max_spec Point.y ps (Point.y p)) as (HY1 & HY2 & HY3).
  cbv zeta in *.
  set (minX := fold_left (fun m q => Math.min m (Point.x q)) ps (Point.x p)) in *.
  set (minY := fold_left (fun m q => Math.min m (Point.y q)) ps (Point.y p)) in *.
  set (maxX := fold_left (fun m q => Math.max m (Point.x q)) ps (Point.x p)) in *.
  set (maxY := fold_left (fun m q => Math.max m (Point.y q)) ps (Point.y p)) in *.
  replace (minX + (maxX - minX)) with maxX by ring.
  replace (minY + (maxY - minY)) with maxY by ring.
  assert (Hat : forall (g : Point.t -> R) m,
            (m = g p \/ exists q, In q ps /\ g q = m) ->
            exists q, (p = q \/ In q ps) /\ g q = m).
  { intros g m [E | (q & Hq & E)]; [exists p | exists q]; auto. }
  split; [| repeat split; apply Hat; assumption].
  intros q [<- | Hq].
  - lra.
  - specialize (Hx2 q Hq). specialize (Hy2 q Hq).
    specialize (HX2 q Hq). specialize (HY2 q Hq). lra.
Qed.

Lemma getBounds_from_points (shape : Shape.t) (pts : list Point.t) :
  boundsFromPoints shape pts ->
  exists p ps, pts = p :: ps /\ Shapes.getBounds shape = Shapes.pointsBox p ps.
Proof.
  intros [Hp [[Hl Hn] | [Hf Hn]]]; unfold Shapes.getBounds; rewrite Hp.
  - rewrite Hl. destruct pts as [| p [| q ps]]; simpl in Hn; try lia.
    exists p, (q :: ps). split; reflexivity.
  - assert (Hl : Shapes.isLineOrArrow shape = false)
      by (unfold Shapes.isLineOrArrow; rewrite Hf; reflexivity).
    rewrite Hl, Hf. simpl. destruct pts as [| p ps]; simpl in Hn; try lia.
    exists p, ps. split; reflexivity.
Qed.

(** X8.  The bounding box of a line or arrow with at least two points,
    and of a freehand stroke with at least one, is the smallest box that
    holds all its points: every point lies in it, each of its four sides
    passes through a point, and its width and height are not negative. *)
Theorem getBounds_tight_around_points (shape : Shape.t) (pts : list Point.t) :
  boundsFromPoints shape pts ->
  tightBox (Shapes.getBounds shape) pts /\
  0 <= Bounds.w (Shapes.getBounds shape) /\
  0 <= Bounds.h (Shapes.getBounds shape).
Proof.
  intros H. destruct (getBounds_from_points shape pts H) as (p & ps & -> & ->).
  pose proof (pointsBox_tight p ps) as Ht. split; [exact Ht |].
  destruct Ht as (Hall & _). destruct (Hall p) as [Hx Hy]; [now left |]. lra.
Qed.

Lemma getBounds_tight_around_points_witness :
  tightBox (Shapes.getBounds strokeExample) [Point.mk 0 0; Point.mk 100 100] /\
  0 <= Bounds.w (Shapes.getBounds strokeExample) /\
  0 <= Bounds.h (Shapes.getBounds strokeExample).
Proof.
  apply (getBounds_tight_around_points strokeExample [Point.mk 0 0; Point.mk 100 100]).
  split; [reflexivity |]. right. split; [reflexivity | simpl; lia].
Defined.

(** ** shapes.js: move *)

Lemma Rmin_shift (a b d : R) : Rmin (a + d) (b + d) = Rmin a b + d.
Proof. unfold Rmin. destruct (Rle_dec (a + d) (b + d)), (Rle_dec a b); lra. Qed.

Lemma Rmax_shift (a b d : R) : Rmax (a + d) (b + d) = Rmax a b + d.
Proof. unfold Rmax. destruct (Rle_dec (a + d) (b + d)), (Rle_dec a b); lra. Qed.

Lemma fold_min_shift (f g : Point.t -> R) (mv : Point.t -> Point.t) (d : R)
    (ps : list Point.t) (m0 : R) :
  (forall q, f (mv q) = f q + d) ->
  fold_left (fun m q => Math.min m (f q)) (map mv ps) (m0 + d)
    = fold_left (fun m q => Math.min m (f q)) ps m0 + d.
Proof.
  intros Hf. revert m0. induction ps as [| a ps IH]; intros m0; simpl; [reflexivity |].
  unfold Math.min at 2. rewrite Hf, Rmin_shift. apply IH.
Qed.

Lemma fold_max_shift (f g : Point.t -> R) (mv : Point.t -> Point.t) (d : R)
    (ps : list Point.t) (m0 : R) :
  (forall q, f (mv q) = f q + d) ->
  fold_left (fun m q => Math.max m (f q)) (map mv ps) (m0 + d)
    = fold_left (fun m q => Math.max m (f q)) ps m0 + d.
Proof.
  intros Hf. revert m0. induction ps as [| a ps IH]; intros m0; simpl; [reflexivity |].
  unfold Math.max at 2. rewrite Hf, Rmax_shift. apply IH.
Qed.

Lemma pointsBox_shift (p : Point.t) (ps : list Point.t) (dx dy : R) :
  let mv := fun q => Point.mk (Point.x q + dx) (Point.y q + dy) in
  Shapes.pointsBox (mv p) (map mv ps)
    = Bounds.mk (Bounds.x (Shapes.pointsBox p ps) + dx) (Bounds.y (Shapes.pointsBox p ps) + dy)
                (Bounds.w (Shapes.pointsBox p ps)) (Bounds.h (Shapes.pointsBox p ps)).
Proof.
  intros mv. unfold Shapes.pointsBox. cbv zeta. simpl.
  rewrite (fold_min_shift Point.x Point.x mv dx) by reflexivity.
  rewrite (fold_min_shift Point.y Point.y mv dy) by reflexivity.
  rewrite (fold_max_shift Point.x Point.x mv dx) by reflexivity.
  rewrite (fold_max_shift Point.y Point.y mv dy) by reflexivity.
  apply (f_equal2 (fun w h => Bounds.mk _ _ w h)); ring.
Qed.

(** X9.  [move] translates the bounding box: for a shape without a point
    list, and for a line, arrow or freehand stroke whose box comes from
    its points, the box after [move(shape, dx, dy)] is the box before,
    shifted by [(dx, dy)], with the same width and height. *)
Theorem move_translates_bounds (shape : Shape.t) (dx dy : R) :
  Shape.points shape = None \/ (exists pts, boundsFromPoints shape pts) ->
  Shapes.getBounds (Shapes.move shape dx dy)
    = Bounds.mk (Bounds.x (Shapes.getBounds shape) + dx)
                (Bounds.y (Shapes.getBounds shape) + dy)
                (Bounds.w (Shapes.getBounds shape))
                (Bounds.h (Shapes.getBounds shape)).
Proof.
  intros [Hn | (pts & Hb)].
  - rewrite (getBounds_no_points shape Hn).
    rewrite (getBounds_no_points (Shapes.move shape dx dy))
      by (rewrite move_no_points by exact Hn; exact Hn).
    rewrite move_no_points by exact Hn. reflexivity.
  - set (mv := fun q => Point.mk (Point.x q + dx) (Point.y q + dy)).
    assert (Hm : Shapes.move shape dx dy = Shape.set_points (Some (map mv pts)) shape).
    { unfold Shapes.move. destruct Hb as [-> _]. reflexivity. }
    assert (Hb' : boundsFromPoints (Shapes.move shape dx dy) (map mv pts)).
    { rewrite Hm. destruct Hb as [_ Hk]. split; [reflexivity |].
      rewrite length_map. exact Hk. }
    destruct (getBounds_from_points _ _ Hb) as (p & ps & -> & ->).
    destruct (getBounds_from_points _ _ Hb') as (p' & ps' & E & ->).
    simpl in E. injection E as <- <-. apply pointsBox_shift.
Qed.

Lemma move_translates_bounds_witness :
  Shapes.getBounds (Shapes.move strokeExample 5 (-3))
    = Bounds.mk (Bounds.x (Shapes.getBounds strokeExample) + 5)
                (Bounds.y (Shapes.getBounds strokeExample) + -3)
                (Bounds.w (Shapes.getBounds strokeExample))
                (Bounds.h (Shapes.getBounds strokeExample)).
Proof.
  apply (move_translates_bounds strokeExample 5 (-3)).
  right. exists [Point.mk 0 0; Point.mk 100 100].
  split; [reflexivity |]. right. split; [reflexivity | simpl; lia].
Defined.

(** X10.  Moves compose and cancel: moving by [(a, b)] and then by
    [(c, d)] is moving by [(a + c, b + d)], moving by [(0, 0)] changes
    nothing, and so moving back by the opposite delta restores the
    shape. *)
Theorem move_composes (shape : Shape.t) (a b c d : R) :
  Shapes.move (Shapes.move shape a b) c d = Shapes.move shape (a + c) (b + d) /\
  Shapes.move shape 0 0 = shape /\
  Shapes.move (Shapes.move shape a b) (- a) (- b) = shape.
Proof.
  assert (Hcomp : forall s a b c d,
            Shapes.move (Shapes.move s a b) c d = Shapes.move s (a + c) (b + d)).
  { intros s a0 b0 c0 d0. unfold Shapes.move.
    destruct s as [? ? sx sy ? ? ? ? ? ? ? [pts |] ? ? ? ? ? ? ? ? ? ? ?]; simpl.
    - unfold Shape.set_points. simpl.
      replace (map (fun p => Point.mk (Point.x p + c0) (Point.y p + d0))
                 (map (fun p => Point.mk (Point.x p + a0) (Point.y p + b0)) pts))
        with (map (fun p => Point.mk (Point.x p + (a0 + c0)) (Point.y p + (b0 + d0))) pts);
        [reflexivity |].
      rewrite map_map. apply map_ext. intros p. simpl.
      rewrite !Rplus_assoc. reflexivity.
    - unfold Shape.set_x, Shape.set_y. simpl. rewrite !Rplus_assoc. reflexivity. }
  assert (Hzero : forall s, Shapes.move s 0 0 = s).
  { intros s. unfold Shapes.move.
    destruct s as [? ? sx sy ? ? ? ? ? ? ? [pts |] ? ? ? ? ? ? ? ? ? ? ?]; simpl.
    - unfold Shape.set_points. simpl.
      replace (map (fun p => Point.mk (Point.x p + 0) (Point.y p + 0)) pts) with pts;
        [reflexivity |].
      rewrite <- (map_id pts) at 1. apply map_ext.
      intros [px py]. simpl. rewrite !Rplus_0_r. reflexivity.
    - unfold Shape.set_x, Shape.set_y. simpl. rewrite !Rplus_0_r. reflexivity. }
  split; [apply Hcomp |]. split; [apply Hzero |].
  rewrite Hcomp. replace (a + - a) with 0 by ring. replace (b + - b) with 0 by ring.
  apply Hzero.
Qed.

(** ** shapes.js: resize and handles *)

(** X11.  [resize] with a compass handle, in terms of the edges of the
    stored box.  The left and top edges move by the delta exactly when the
    handle drags them, clamped or not.  The right and bottom edges do the
    same as long as the new width, respectively height, is at least 10;
    below that the size is set to 10 and the edge opposite to a dragged
    left or top edge gives way. *)
Theorem resize_moves_dragged_edges (shape : Shape.t) (handle : string) (dx dy : R) :
  In handle COMPASS_HANDLES ->
  exists shape',
    Shapes.resize shape handle dx dy = Some shape' /\
    leftEdge shape' = leftEdge shape + dragged_by (dragsLeft handle) dx /\
    topEdge shape' = topEdge shape + dragged_by (dragsTop handle) dy /\
    (10 <= Shape.width shape + dragged_by (dragsRight handle) dx
             - dragged_by (dragsLeft handle) dx ->
     rightEdge shape' = rightEdge shape + dragged_by (dragsRight handle) dx) /\
    (10 <= Shape.height shape + dragged_by (dragsBottom handle) dy
             - dragged_by (dragsTop handle) dy ->
     bottomEdge shape' = bottomEdge shape + dragged_by (dragsBottom handle) dy) /\
    (Shape.width shape + dragged_by (dragsRight handle) dx
       - dragged_by (dragsLeft handle) dx < 10 -> Shape.width shape' = 10) /\
    (Shape.height shape + dragged_by (dragsBottom handle) dy
       - dragged_by (dragsTop handle) dy < 10 -> Shape.height shape' = 10).
Proof.
  intros Hin. eexists. split; [apply resize_compass, Hin |].
  unfold leftEdge, rightEdge, topEdge, bottomEdge.
  simpl in Hin.
  repeat (destruct Hin as [<- | Hin];
          [ unfold Shapes.resizeBox, Shapes.enforceMinimumSize, dragged_by; simpl;
            repeat match goal with
                   | |- context [Rlt_dec ?a ?b] => destruct (Rlt_dec a b); simpl
                   end;
            repeat split; intros; simpl in *; lra
          |]).
  contradiction.
Qed.

Lemma resize_moves_dragged_edges_witness :
  exists shape',
    Shapes.resize boxR "w" 95 0 = Some shape' /\
    leftEdge shape' = leftEdge boxR + dragged_by (dragsLeft "w") 95 /\
    topEdge shape' = topEdge boxR + dragged_by (dragsTop "w") 0 /\
    (10 <= Shape.width boxR + dragged_by (dragsRight "w") 95
             - dragged_by (dragsLeft "w") 95 ->
     rightEdge shape' = rightEdge boxR + dragged_by (dragsRight "w") 95) /\
    (10 <= Shape.height boxR + dragged_by (dragsBottom "w") 0
             - dragged_by (dragsTop "w") 0 ->
     bottomEdge shape' = bottomEdge boxR + dragged_by (dragsBottom "w") 0) /\
    (Shape.width boxR + dragged_by (dragsRight "w") 95
       - dragged_by (dragsLeft "w") 95 < 10 -> Shape.width shape' = 10) /\
    (Shape.height boxR + dragged_by (dragsBottom "w") 0
       - dragged_by (dragsTop "w") 0 < 10 -> Shape.height shape' = 10).
Proof.
  apply (resize_moves_dragged_edges boxR "w" 95 0). simpl. auto 10.
Defined.

Lemma handles_names (b : Bounds.t) (name : string) (pos : Point.t) :
  In (name, pos) (Shapes.handles b) -> In name COMPASS_HANDLES.
Proof.
  unfold Shapes.handles. simpl. intros H.
  repeat (destruct H as [H | H]; [injection H as <- _; simpl; auto 10 |]).
  contradiction.
Qed.

(** X12.  A handle [getHandleAtPoint] returns is one [resize] accepts for
    that shape: never one for a freehand stroke, [lineStart] or [lineEnd]
    for a line or arrow, a compass handle for any other shape, and
    [resize] with it does not fail. *)
Theorem handle_at_point_resizes (shape : Shape.t) (px py handleSize : R)
    (handle : string) (dx dy : R) :
  Shapes.getHandleAtPoint shape px py handleSize = Some handle ->
  Shape.type shape <> "freehand"%string /\
  (if Shapes.isLineOrArrow shape
   then handle = "lineStart"%string \/ handle = "lineEnd"%string
   else In handle COMPASS_HANDLES) /\
  is_Some (Shapes.resize shape handle dx dy).
Proof.
  unfold Shapes.getHandleAtPoint.
  destruct (String.eqb (Shape.type shape) "freehand") eqn:Hf; [discriminate |].
  apply String.eqb_neq in Hf. cbv zeta.
  destruct (Shapes.isLineOrArrow shape) eqn:Hl.
  - destruct (Shape.points shape) as [pts |] eqn:Hp; [| discriminate].
    destruct (2 <=? length pts)%nat; [| discriminate].
    destruct (pts !! 0%nat) as [startP |] eqn:H0; [| discriminate].
    destruct (pts !! (length pts - 1)%nat) as [endP |] eqn:H1; [| discriminate].
    destruct (Math.le _ handleSize).
    + intros [= <-]. split; [exact Hf |]. split; [now left |].
      unfold Shapes.resize. rewrite Hp. simpl. rewrite H0. eexists. reflexivity.
    + destruct (Math.le _ handleSize); [| discriminate].
      intros [= <-]. split; [exact Hf |]. split; [now right |].
      unfold Shapes.resize. rewrite Hp. simpl. rewrite H1. eexists. reflexivity.
  - destruct (List.find _ (Shapes.handles (Shapes.getBounds shape)))
      as [[name pos] |] eqn:Hfind; [| discriminate].
    intros [= <-]. apply find_some in Hfind as [Hin _].
    apply handles_names in Hin.
    split; [exact Hf |]. split; [exact Hin |].
    rewrite resize_compass by exact Hin. eexists. reflexivity.
Qed.

Lemma handle_at_point_resizes_witness :
  Shape.type boxR <> "freehand"%string /\
  (if Shapes.isLineOrArrow boxR
   then "nw"%string = "lineStart"%string \/ "nw"%string = "lineEnd"%string
   else In "nw"%string COMPASS_HANDLES) /\
  is_Some (Shapes.resize boxR "nw" 3 4).
Proof.
  apply (handle_at_point_resizes boxR 200 0 8 "nw" 3 4).
  unfold Shapes.getHandleAtPoint. simpl.
  assert (H : Math.le (Utils.distance 200 0 200 0) 8 = true).
  { apply le_true. unfold Utils.distance, Math.sqrt.
    replace ((200 - 200) ^ 2 + (0 - 0) ^ 2) with 0 by ring. rewrite sqrt_0. lra. }
  rewrite H. reflexivity.
Defined.

(** ** connectors.js and shapes.js: a snap resolves back to its point *)

Lemma cos_sin_atan2_unit (r s c : R) :
  0 < r -> s * s + c * c = 1 ->
  cos (Math.atan2 (r * s) (r * c)) = c /\ sin (Math.atan2 (r * s) (r * c)) = s.
Proof.
  intros Hr H1. unfold Math.atan2.
  destruct (Rlt_dec 0 (r * c)) as [Hx | Hx].
  - assert (Hc : 0 < c) by nra.
    replace (r * s / (r * c)) with (s / c) by (field; lra).
    destruct (cos_sin_atan_ratio s c) as [-> ->]; [lra | lra |].
    rewrite Rabs_pos_eq by lra. split; [reflexivity | field; lra].
  - destruct (Rlt_dec (r * c) 0) as [Hx' | Hx'].
    + assert (Hc : c < 0) by nra.
      replace (r * s / (r * c)) with (s / c) by (field; lra).
      destruct (cos_sin_atan_ratio s c) as [Hcos Hsin]; [lra | lra |].
      rewrite Rabs_left in Hcos, Hsin by lra.
      destruct (Rle_dec 0 (r * s)).
      * rewrite neg_cos, neg_sin, Hcos, Hsin. split; field; lra.
      * unfold Rminus. rewrite cos_plus, sin_plus, cos_neg, sin_neg, cos_PI, sin_PI.
        rewrite Hcos, Hsin. split; field; lra.
    + assert (Hc : c = 0) by nra.
      assert (Hs : s * s = 1) by nra.
      destruct (Rlt_dec 0 (r * s)) as [Hy | Hy].
      * assert (s = 1) by nra. rewrite cos_PI2, sin_PI2. lra.
      * destruct (Rlt_dec (r * s) 0) as [Hy' | Hy'].
        -- assert (s = -1) by nra. rewrite cos_neg, sin_neg, cos_PI2, sin_PI2. lra.
        -- exfalso. assert (s = 0) by nra. nra.
Qed.

(** [Math.atan2(y, x)] has the cosine and sine of the direction of
    [(x, y)]. *)
Lemma atan2_direction (x y : R) :
  ~ (x = 0 /\ y = 0) ->
  0 < sqrt (x * x + y * y) /\
  cos (Math.atan2 y x) = x / sqrt (x * x + y * y) /\
  sin (Math.atan2 y x) = y / sqrt (x * x + y * y).
Proof.
  intros Hoff.
  assert (Hsum : 0 < x * x + y * y).
  { destruct (Req_dec_T x 0) as [Ex | Ex].
    - assert (y <> 0) by tauto. nra.
    - nra. }
  set (rho := sqrt (x * x + y * y)).
  assert (Hrho : 0 < rho) by (apply sqrt_lt_R0, Hsum).
  assert (Hsq : rho * rho = x * x + y * y) by (apply sqrt_sqrt; lra).
  split; [exact Hrho |].
  destruct (cos_sin_atan2_unit rho (y / rho) (x / rho) Hrho) as [Hc Hs].
  { replace (y / rho * (y / rho) + x / rho * (x / rho))
      with ((x * x + y * y) / (rho * rho)) by (field; lra).
    rewrite Hsq. field. lra. }
  replace (rho * (y / rho)) with y in Hc, Hs by (field; lra).
  replace (rho * (x / rho)) with x in Hc, Hs by (field; lra).
  split; assumption.
Qed.

Lemma outline_off_center (f : Family) (cx cy hw hh : R) (p : Point.t) :
  0 < hw -> 0 < hh -> onOutline f cx cy hw hh p ->
  ~ (Point.x p - cx = 0 /\ Point.y p - cy = 0).
Proof.
  intros Hw Hh Hout [Ex Ey]. unfold onOutline in Hout. cbv zeta in Hout.
  rewrite Ex, Ey, Rabs_R0 in Hout.
  replace (0 / hw) with 0 in Hout by (field; lra).
  replace (0 / hh) with 0 in Hout by (field; lra).
  destruct f.
  - rewrite Rmax_left in Hout by lra. lra.
  - lra.
  - lra.
Qed.

(** A target on the outline of a box or rhombus is its own boundary
    point. *)
Lemma ray_fixes_outline (f : Family) (cx cy hw hh : R) (p : Point.t) :
  f <> Elliptical -> 0 < hw -> 0 < hh -> onOutline f cx cy hw hh p ->
  rayFromCenter f cx cy (Point.x p) (Point.y p) hw hh = p.
Proof.
  intros Hf Hw Hh Hout.
  pose proof (outline_off_center f cx cy hw hh p Hw Hh Hout) as Hoff.
  destruct p as [px py]. simpl in *.
  set (dx := px - cx) in *. set (dy := py - cy) in *.
  pose proof (Rabs_pos dx) as Ha. pose proof (Rabs_pos dy) as Hb.
  assert (Hu : 0 <= Rabs dx / hw) by (apply div_nonneg; assumption).
  assert (Hv : 0 <= Rabs dy / hh) by (apply div_nonneg; assumption).
  assert (Hscale : forall scale, scale = 1 ->
            Point.mk (cx + dx * scale) (cy + dy * scale) = Point.mk px py).
  { intros scale ->. unfold dx, dy.
    replace (cx + (px - cx) * 1) with px by ring.
    replace (cy + (py - cy) * 1) with py by ring. reflexivity. }
  destruct f; [| contradiction |]; unfold onOutline in Hout; cbv zeta in Hout;
    simpl in Hout; fold dx dy in Hout; simpl rayFromCenter.
  - unfold Shapes._rayRectFromCenter, Math.abs. cbv zeta. fold dx dy.
    assert (Hone : (if Rgt_dec (Rabs dx / hw) (Rabs dy / hh)
                    then hw / Rabs dx else hh / Rabs dy) = 1).
    { destruct (Rgt_dec (Rabs dx / hw) (Rabs dy / hh)) as [Hgt | Hle].
      - rewrite Rmax_left in Hout by lra.
        assert (Rabs dx = hw)
          by (replace (Rabs dx) with (Rabs dx / hw * hw) by (field; lra);
              rewrite Hout; ring).
        rewrite H. field. lra.
      - rewrite Rmax_right in Hout by lra.
        assert (Rabs dy = hh)
          by (replace (Rabs dy) with (Rabs dy / hh * hh) by (field; lra);
              rewrite Hout; ring).
        rewrite H. field. lra. }
    destruct (Req_dec_T dx 0), (Req_dec_T dy 0); try tauto; apply Hscale, Hone.
  - unfold Shapes._rayDiamondFromCenter, Math.abs. cbv zeta. fold dx dy.
    assert (Hone : 1 / (Rabs dx / hw + Rabs dy / hh) = 1)
      by (rewrite Hout; field).
    destruct (Req_dec_T dx 0), (Req_dec_T dy 0); try tauto; apply Hscale, Hone.
Qed.

(** The boundary point of a box or rhombus depends on the direction of
    the target only, not on how far it is. *)
Lemma ray_homogeneous (f : Family) (cx cy tx ty tx' ty' hw hh lam : R) :
  f <> Elliptical -> 0 < hw -> 0 < hh -> 0 < lam ->
  ~ (tx - cx = 0 /\ ty - cy = 0) ->
  tx' - cx = lam * (tx - cx) -> ty' - cy = lam * (ty - cy) ->
  rayFromCenter f cx cy tx' ty' hw hh = rayFromCenter f cx cy tx ty hw hh.
Proof.
  intros Hf Hw Hh Hlam Hoff Hx Hy.
  set (dx := tx - cx) in *. set (dy := ty - cy) in *.
  pose proof (Rabs_pos dx) as Ha. pose proof (Rabs_pos dy) as Hb.
  assert (Hax : Rabs (lam * dx) = lam * Rabs dx)
    by (rewrite Rabs_mult, (Rabs_pos_eq lam) by lra; reflexivity).
  assert (Hay : Rabs (lam * dy) = lam * Rabs dy)
    by (rewrite Rabs_mult, (Rabs_pos_eq lam) by lra; reflexivity).
  assert (Hoff' : ~ (lam * dx = 0 /\ lam * dy = 0)).
  { intros [E1 E2]. apply Hoff. split; nra. }
  assert (Hab : ~ (Rabs dx = 0 /\ Rabs dy = 0)) by (rewrite !Rabs_zero_iff; exact Hoff).
  destruct f; [| contradiction |]; simpl rayFromCenter.
  - unfold Shapes._rayRectFromCenter, Math.abs. cbv zeta. rewrite Hx, Hy.
    fold dx dy. rewrite Hax, Hay.
    assert (Hgt : Rabs dx / hw > Rabs dy / hh -> 0 < Rabs dx).
    { intros G. apply (div_gt_cross _ _ hw hh Hw Hh) in G. nra. }
    assert (Hle : ~ Rabs dx / hw > Rabs dy / hh -> 0 < Rabs dy).
    { intros G. destruct (Req_dec_T (Rabs dy) 0) as [Z | Z]; [| lra].
      exfalso. apply Hab. split; [| exact Z].
      destruct (Req_dec_T (Rabs dx) 0) as [Z' | Z']; [exact Z' |].
      exfalso. apply G, (div_gt_cross _ _ hw hh Hw Hh). rewrite Z. nra. }
    assert (Hsame : Rabs dx / hw > Rabs dy / hh <->
                    lam * Rabs dx / hw > lam * Rabs dy / hh).
    { rewrite !(div_gt_cross _ _ hw hh Hw Hh). split; intros G; nra. }
    destruct (Req_dec_T (lam * dx) 0), (Req_dec_T (lam * dy) 0),
             (Req_dec_T dx 0), (Req_dec_T dy 0); try tauto.
    all: destruct (Rgt_dec (lam * Rabs dx / hw) (lam * Rabs dy / hh)) as [G' | G'],
                  (Rgt_dec (Rabs dx / hw) (Rabs dy / hh)) as [G | G]; try tauto.
    all: try specialize (Hgt G); try specialize (Hle G).
    all: apply (f_equal2 Point.mk); field; lra.
  - unfold Shapes._rayDiamondFromCenter, Math.abs. cbv zeta. rewrite Hx, Hy.
    fold dx dy. rewrite Hax, Hay.
    pose proof (diamond_sum_pos (Rabs dx) (Rabs dy) hw hh Ha Hb Hw Hh Hab) as Hsum.
    replace (lam * Rabs dx / hw + lam * Rabs dy / hh)
      with (lam * (Rabs dx / hw + Rabs dy / hh)) by (field; lra).
    set (S := Rabs dx / hw + Rabs dy / hh) in *. clearbody S.
    destruct (Req_dec_T (lam * dx) 0), (Req_dec_T (lam * dy) 0),
             (Req_dec_T dx 0), (Req_dec_T dy 0); try tauto.
    all: apply (f_equal2 Point.mk); field; lra.
Qed.

(** X13.  For a shape of the rectangular or diamond family with positive
    width and height, the angle stored in a snap resolves back to the
    snap's point: [getBoundaryPointFromAngle] at the angle of
    [snapOf shape x y] is the point [(x, y)] of that snap, whatever the
    query point.  A connector bound at a snap is therefore left where it
    was drawn when its binding is resolved again. *)
Theorem snap_angle_resolves_to_snap_point (shape : Shape.t) (worldX worldY : R) :
  familyOf (Shape.type shape) <> Elliptical ->
  0 < Bounds.w (Shapes.getBounds shape) ->
  0 < Bounds.h (Shapes.getBounds shape) ->
  Shapes.getBoundaryPointFromAngle shape
    (Snap.angle (Connectors.snapOf shape worldX worldY))
    = Point.mk (Snap.x (Connectors.snapOf shape worldX worldY))
               (Snap.y (Connectors.snapOf shape worldX worldY)).
Proof.
  intros Hf Hw Hh. unfold Connectors.snapOf. cbv zeta. simpl.
  rewrite getBoundaryPointFromAngle_family.
  set (f := familyOf (Shape.type shape)) in *.
  set (cx := Connectors.centerX shape). set (cy := Connectors.centerY shape).
  set (hw := Bounds.w (Shapes.getBounds shape) / 2).
  set (hh := Bounds.h (Shapes.getBounds shape) / 2).
  assert (Hhw : 0 < hw) by (unfold hw; lra). assert (Hhh : 0 < hh) by (unfold hh; lra).
  set (bp := Shapes.getBoundaryPoint shape worldX worldY).
  assert (Hout : onOutline f cx cy hw hh bp).
  { unfold bp. rewrite getBoundaryPoint_family. apply rayFromCenter_on_outline; assumption. }
  pose proof (outline_off_center f cx cy hw hh bp Hhw Hhh Hout) as Hoff.
  destruct (atan2_direction (Point.x bp - cx) (Point.y bp - cy)) as (Hrho & Hc & Hs);
    [tauto |].
  set (rho := sqrt ((Point.x bp - cx) * (Point.x bp - cx)
                    + (Point.y bp - cy) * (Point.y bp - cy))) in *.
  unfold Math.atan2 in Hc, Hs |- *.
  fold (Math.atan2 (Point.y bp - cy) (Point.x bp - cx)) in Hc, Hs |- *.
  rewrite (ray_homogeneous f cx cy (Point.x bp) (Point.y bp) _ _ hw hh (Shapes.far / rho)
             Hf Hhw Hhh).
  - rewrite (ray_fixes_outline f cx cy hw hh bp Hf Hhw Hhh Hout). now destruct bp.
  - unfold Shapes.far. apply Rdiv_lt_0_compat; lra.
  - exact Hoff.
  - rewrite offset_cancel, Hc. unfold Shapes.far. field. lra.
  - rewrite offset_cancel, Hs. unfold Shapes.far. field. lra.
Qed.

Lemma snap_angle_resolves_to_snap_point_witness :
  Shapes.getBoundaryPointFromAngle boxR (Snap.angle (Connectors.snapOf boxR 310 120))
    = Point.mk (Snap.x (Connectors.snapOf boxR 310 120))
               (Snap.y (Connectors.snapOf boxR 310 120)).
Proof.
  apply (snap_angle_resolves_to_snap_point boxR 310 120);
    [discriminate | simpl; lra | simpl; lra].
Defined.

(** ** connectors.js: what [updateBindings] leaves alone *)

(** X15.  [updateBindings] changes nothing when no shape has the moved
    id, and nothing when no binding names it. *)
Theorem updateBindings_unbound_unchanged (shapes : list Shape.t) (movedShapeId : string) :
  Connectors.findById shapes movedShapeId = None \/ unboundTo movedShapeId shapes ->
  Connectors.updateBindings shapes movedShapeId = shapes.
Proof.
  intros H. unfold Connectors.updateBindings.
  apply (forOf_invariant (fun cur => cur = shapes)); [reflexivity |].
  intros i c ->. unfold Connectors.updateBindingsAt.
  destruct (shapes !! i) as [s |] eqn:Hi; [| reflexivity].
  destruct (Shapes.isLineOrArrow s && Connectors.hasTwoPoints s); [| reflexivity].
  assert (Hin : In s shapes) by (apply list_elem_of_In, list_elem_of_lookup_2 with i, Hi).
  assert (Hstart : Connectors.updateStart movedShapeId i shapes = shapes).
  { unfold Connectors.updateStart. rewrite Hi.
    destruct (Shape.startBinding s) as [b |] eqn:Hb; [| reflexivity].
    destruct (String.eqb (Binding.shapeId b) movedShapeId) eqn:He; [| reflexivity].
    destruct H as [-> | H]; [reflexivity |].
    apply String.eqb_eq in He. exfalso. apply (H s b Hin); auto. }
  rewrite Hstart. unfold Connectors.updateEnd. rewrite Hi.
  destruct (Shape.endBinding s) as [b |] eqn:Hb; [| reflexivity].
  destruct (String.eqb (Binding.shapeId b) movedShapeId) eqn:He; [| reflexivity].
  destruct H as [-> | H]; [reflexivity |].
  apply String.eqb_eq in He. exfalso. apply (H s b Hin); auto.
Qed.

Lemma updateBindings_unbound_unchanged_witness :
  Connectors.updateBindings chained "nobody" = chained.
Proof.
  apply (updateBindings_unbound_unchanged chained "nobody"). left. reflexivity.
Defined.

(** ** connectors.js: resolved bindings are stable *)

Lemma updateStartShape_absorbed (lk : string -> option Shape.t) (m : string) (x : Shape.t) :
  updateStartShape m (lk m) (resolveStartShape lk x) = resolveStartShape lk x.
Proof.
  destruct (Shape.startBinding x) as [b |] eqn:Hb.
  - destruct (lk (Binding.shapeId b)) as [t |] eqn:Ht.
    + rewrite (resolveStartShape_found lk x b t Hb Ht).
      unfold updateStartShape.
      rewrite (proj1 (setFirstPoint_bindings _ x)), Hb.
      destruct (lk m) as [tm |] eqn:Hm; [| reflexivity].
      destruct (String.eqb (Binding.shapeId b) m) eqn:He; [| reflexivity].
      apply String.eqb_eq in He. rewrite He, Hm in Ht. injection Ht as ->.
      apply setFirstPoint_idem.
    + rewrite (resolveStartShape_missing lk x b Hb Ht). reflexivity.
  - rewrite (resolveStartShape_unbound lk x Hb). unfold updateStartShape. now rewrite Hb.
Qed.

Lemma updateEndShape_absorbed (lk : string -> option Shape.t) (m : string) (x : Shape.t) :
  updateEndShape m (lk m) (resolveEndShape lk x) = resolveEndShape lk x.
Proof.
  destruct (Shape.endBinding x) as [b |] eqn:Hb.
  - destruct (lk (Binding.shapeId b)) as [t |] eqn:Ht.
    + rewrite (resolveEndShape_found lk x b t Hb Ht).
      unfold updateEndShape.
      rewrite (proj2 (setLastPoint_bindings _ x)), Hb.
      destruct (lk m) as [tm |] eqn:Hm; [| reflexivity].
      destruct (String.eqb (Binding.shapeId b) m) eqn:He; [| reflexivity].
      apply String.eqb_eq in He. rewrite He, Hm in Ht. injection Ht as ->.
      apply setLastPoint_idem.
    + rewrite (resolveEndShape_missing lk x b Hb Ht). reflexivity.
  - rewrite (resolveEndShape_unbound lk x Hb). unfold updateEndShape. now rewrite Hb.
Qed.

Lemma updateShape_resolveShape (lk : string -> option Shape.t) (m : string) (s : Shape.t) :
  updateShape m (lk m) (resolveShape lk s) = resolveShape lk s.
Proof.
  unfold updateShape.
  rewrite (endpointsReady_resolved s) by apply resolveShape_frame.
  destruct (endpointsReady s) eqn:Hr; [| reflexivity].
  unfold resolveShape. rewrite Hr.
  assert (H2 : Connectors.hasTwoPoints s = true)
    by (unfold endpointsReady in Hr; now apply andb_true_iff in Hr).
  rewrite <- (resolveStartShape_resolveEndShape lk s H2) at 1.
  rewrite updateStartShape_absorbed.
  rewrite (resolveStartShape_resolveEndShape lk s H2).
  apply updateEndShape_absorbed.
Qed.

Lemma scenario_nonConnectorTargets :
  nonConnectorTargets [rectA "A" 1; rectB "B" 2; drawnArrow "A" "B" "arrow1" 3].
Proof.
  intros s b t Hin Hr Hb Ht. simpl in Hin.
  destruct Hin as [<- | [<- | [<- | []]]]; try discriminate Hr.
  destruct Hb as [Hb | Hb]; injection Hb as <-; simpl in Ht;
    injection Ht as <-; reflexivity.
Qed.

(** X16.  Resolved bindings are stable under propagation: when no
    binding of a line or arrow resolves to a line or arrow, and the moved
    id is not that of a line or arrow, [updateBindings] after
    [resolveAllBindings] changes nothing. *)
Theorem updateBindings_after_resolveAllBindings (shapes : list Shape.t)
    (movedShapeId : string) :
  nonConnectorTargets shapes ->
  nonConnectorId shapes movedShapeId ->
  Connectors.updateBindings (Connectors.resolveAllBindings shapes) movedShapeId
    = Connectors.resolveAllBindings shapes.
Proof.
  intros Hl Hm. rewrite (resolveAllBindings_map shapes Hl).
  set (lk := Connectors.findById shapes).
  set (l1 := map (resolveShape lk) shapes).
  assert (Hframe : Forall2 resolveFrame shapes l1).
  { apply Forall2_fmap_r, Forall_Forall2_diag, Forall_forall.
    intros s _. apply resolveShape_frame. }
  assert (Hfind : Connectors.findById l1 movedShapeId = lk movedShapeId)
    by (apply findById_resolveFrame; assumption).
  rewrite updateBindings_map by (intros t; rewrite Hfind; apply Hm).
  rewrite Hfind. unfold l1. rewrite map_map. apply map_ext.
  intros s. apply updateShape_resolveShape.
Qed.

Lemma updateBindings_after_resolveAllBindings_witness :
  let shapes := [rectA "A" 1; rectB "B" 2; drawnArrow "A" "B" "arrow1" 3] in
  Connectors.updateBindings (Connectors.resolveAllBindings shapes) "B"
    = Connectors.resolveAllBindings shapes.
Proof.
  intros shapes. apply (updateBindings_after_resolveAllBindings shapes "B").
  - apply scenario_nonConnectorTargets.
  - intros t Ht. simpl in Ht. injection Ht as <-. reflexivity.
Defined.

(** ** connectors.js: [updateBindings] twice *)

Lemma endpointsMoved_bindings (s s' : Shape.t) :
  endpointsMoved s s' ->
  Shape.startBinding s' = Shape.startBinding s /\ Shape.endBinding s' = Shape.endBinding s.
Proof. intros (p & _ & ->). split; reflexivity. Qed.

Lemma updateStartShape_uniform (m : string) (t : option Shape.t) (s : Shape.t) :
  (forall x, Shape.startBinding x = Shape.startBinding s -> updateStartShape m t x = x) \/
  (exists p, forall x, Shape.startBinding x = Shape.startBinding s ->
                       updateStartShape m t x = Connectors.setFirstPoint p x).
Proof.
  unfold updateStartShape.
  destruct (Shape.startBinding s) as [b |]; [| left; now intros x ->].
  destruct t as [t |]; [| left; now intros x ->].
  destruct (String.eqb (Binding.shapeId b) m) eqn:He.
  - right. eexists. intros x ->. rewrite He. reflexivity.
  - left. intros x ->. now rewrite He.
Qed.

Lemma updateEndShape_uniform (m : string) (t : option Shape.t) (s : Shape.t) :
  (forall x, Shape.endBinding x = Shape.endBinding s -> updateEndShape m t x = x) \/
  (exists p, forall x, Shape.endBinding x = Shape.endBinding s ->
                       updateEndShape m t x = Connectors.setLastPoint p x).
Proof.
  unfold updateEndShape.
  destruct (Shape.endBinding s) as [b |]; [| left; now intros x ->].
  destruct t as [t |]; [| left; now intros x ->].
  destruct (String.eqb (Binding.shapeId b) m) eqn:He.
  - right. eexists. intros x ->. rewrite He. reflexivity.
  - left. intros x ->. now rewrite He.
Qed.

Lemma updateShape_idem (m : string) (t : option Shape.t) (s : Shape.t) :
  updateShape m t (updateShape m t s) = updateShape m t s.
Proof.
  unfold updateShape at 2 3.
  destruct (endpointsReady s) eqn:Hr; [| unfold updateShape; now rewrite Hr].
  unfold updateShape.
  set (s1 := updateStartShape m t s). set (s2 := updateEndShape m t s1).
  assert (M1 : endpointsMoved s s1) by apply updateStartShape_moved.
  assert (M2 : endpointsMoved s1 s2) by apply updateEndShape_moved.
  assert (M12 : endpointsMoved s s2) by (eapply endpointsMoved_trans; eassumption).
  rewrite (endpointsReady_resolved s s2) by (apply endpointsMoved_resolved, M12).
  rewrite Hr.
  destruct (endpointsMoved_bindings _ _ M1) as [B1s B1e].
  destruct (endpointsMoved_bindings _ _ M12) as [B2s B2e].
  assert (M3 : endpointsMoved s2 (updateStartShape m t s2)) by apply updateStartShape_moved.
  destruct (endpointsMoved_bindings _ _ M3) as [B3s B3e].
  assert (H2 : Connectors.hasTwoPoints s = true)
    by (unfold endpointsReady in Hr; now apply andb_true_iff in Hr).
  destruct (updateStartShape_uniform m t s) as [F | (p & F)];
    destruct (updateEndShape_uniform m t s) as [L | (q & L)].
  - rewrite (F s2 B2s). apply L. exact B2e.
  - rewrite (F s2 B2s). rewrite (L s2 B2e). unfold s2.
    rewrite (L s1 B1e). apply setLastPoint_idem.
  - rewrite (L _ (eq_trans B3e B2e)). rewrite (F s2 B2s). unfold s2.
    rewrite (L s1 B1e). unfold s1. rewrite (F s eq_refl). apply setFirstPoint_idem.
  - rewrite (L _ (eq_trans B3e B2e)). rewrite (F s2 B2s). unfold s2.
    rewrite (L s1 B1e). unfold s1. rewrite (F s eq_refl).
    assert (H2' : Connectors.hasTwoPoints (Connectors.setFirstPoint p s) = true).
    { destruct (endpointsResolved_guard s (Connectors.setFirstPoint p s)) as [_ ->];
        [apply endpointsMoved_resolved, setFirstPoint_moved | exact H2]. }
    rewrite (setFirstPoint_setLastPoint p q _ H2').
    rewrite setFirstPoint_idem. apply setLastPoint_idem.
Qed.

(** X17.  [updateBindings] is idempotent: when the moved id is not that
    of a line or arrow, propagating the same shape's position a second
    time changes nothing. *)
Theorem updateBindings_idempotent (shapes : list Shape.t) (movedShapeId : string) :
  nonConnectorId shapes movedShapeId ->
  Connectors.updateBindings (Connectors.updateBindings shapes movedShapeId) movedShapeId
    = Connectors.updateBindings shapes movedShapeId.
Proof.
  intros Hm. rewrite (updateBindings_map shapes movedShapeId Hm).
  set (t := Connectors.findById shapes movedShapeId).
  set (l1 := map (updateShape movedShapeId t) shapes).
  assert (Hframe : Forall2 resolveFrame shapes l1).
  { apply Forall2_fmap_r, Forall_Forall2_diag, Forall_forall.
    intros s _. apply updateFrame_resolveFrame, updateShape_frame. }
  assert (Hfind : Connectors.findById l1 movedShapeId = t)
    by (apply findById_resolveFrame; assumption).
  rewrite updateBindings_map by (intros u; rewrite Hfind; apply Hm).
  rewrite Hfind. unfold l1. rewrite map_map. apply map_ext.
  intros s. apply updateShape_idem.
Qed.

Lemma updateBindings_idempotent_witness :
  let shapes := [rectA "A" 1; rectB "B" 2; drawnArrow "A" "B" "arrow1" 3] in
  Connectors.updateBindings (Connectors.updateBindings shapes "B") "B"
    = Connectors.updateBindings shapes "B".
Proof.
  intros shapes. apply (updateBindings_idempotent shapes "B").
  intros t Ht. simpl in Ht. injection Ht as <-. reflexivity.
Defined.

(** ** history.js: the stacks *)

Lemma snoc_cases {A : Type} (l : list A) : l = [] \/ exists l' a, l = l' ++ [a].
Proof.
  induction l as [| x l IH] using rev_ind; [now left | right; eauto].
Qed.

Lemma length_capped {A : Type} (l : list A) :
  (length (History.capped l) <= History.MAX_STACK)%nat \/
  (length (History.capped l) < length l)%nat.
Proof.
  unfold History.capped.
  destruct (History.MAX_STACK <? length l)%nat eqn:Hc.
  - right. apply Nat.ltb_lt in Hc. destruct l; simpl in *; lia.
  - left. apply Nat.ltb_ge in Hc. exact Hc.
Qed.

Lemma historyCall_bounded (h h1 : Store.t) (hist hist1 : History.t) :
  historyCall (h, hist) (h1, hist1) ->
  (length (History.undoStack hist) + length (History.redoStack hist)
     <= History.MAX_STACK)%nat ->
  (length (History.undoStack hist1) + length (History.redoStack hist1)
     <= History.MAX_STACK)%nat.
Proof.
  intros Hcall Hb. inversion Hcall; subst; clear Hcall.
  - unfold History.push in H0.
    destruct (Store.deepClone h shapes) as [[h' c] |]; [| discriminate].
    injection H0 as <- <-. simpl.
    destruct (length_capped (History.undoStack hist ++ [c])) as [Hl | Hl]; [lia |].
    rewrite length_app in Hl. simpl in Hl. lia.
  - unfold History.undo in H0.
    destruct (History.undoStack hist) as [| x u] eqn:Hu.
    + injection H0 as <- <- _. rewrite Hu. exact Hb.
    + destruct (Store.deepClone h currentShapes) as [[h' c] |]; [| discriminate].
      injection H0 as <- <- _. cbn [History.undoStack History.redoStack].
      assert (Hrm : length (removelast (x :: u)) = length u).
      { destruct (snoc_cases (x :: u)) as [E | (l' & a & E)]; [discriminate |].
        rewrite E, removelast_last.
        apply (f_equal length) in E. rewrite length_app in E. simpl in E. lia. }
      change (length (removelast (x :: u)) + length (History.redoStack hist ++ [c])
              <= History.MAX_STACK)%nat.
      rewrite length_app, Hrm. cbn [length] in *. lia.
  - unfold History.redo in H0.
    destruct (History.redoStack hist) as [| x u] eqn:Hu.
    + injection H0 as <- <- _. rewrite Hu. exact Hb.
    + destruct (Store.deepClone h currentShapes) as [[h' c] |]; [| discriminate].
      injection H0 as <- <- _. cbn [History.undoStack History.redoStack].
      assert (Hrm : length (removelast (x :: u)) = length u).
      { destruct (snoc_cases (x :: u)) as [E | (l' & a & E)]; [discriminate |].
        rewrite E, removelast_last.
        apply (f_equal length) in E. rewrite length_app in E. simpl in E. lia. }
      change (length (History.undoStack hist ++ [c]) + length (removelast (x :: u))
              <= History.MAX_STACK)%nat.
      rewrite length_app, Hrm. cbn [length] in *. lia.
  - simpl. lia.
  - exact Hb.
Qed.

(** X18.  The history never holds more than [MAX_STACK] snapshots:
    starting from empty stacks, after any sequence of [push], [undo],
    [redo] and [clear] calls (and whatever the caller does to the store
    in between) the undo and redo stacks together hold at most 100
    entries. *)
Theorem history_stacks_bounded (h0 h : Store.t) (hist : History.t) :
  rtc historyCall (h0, History.empty) (h, hist) ->
  (length (History.undoStack hist) + length (History.redoStack hist)
     <= History.MAX_STACK)%nat.
Proof.
  intros Hsteps.
  apply (rtc_ind_r
           (fun p => (length (History.undoStack (snd p))
                      + length (History.redoStack (snd p)) <= History.MAX_STACK)%nat)
           (h0, History.empty)) in Hsteps.
  - exact Hsteps.
  - simpl. lia.
  - intros [hm histm] [hz histz] _ Hlast IH. simpl in *.
    eapply historyCall_bounded; eassumption.
Qed.

Lemma history_stacks_bounded_witness :
  (length (History.undoStack (History.mk [1%nat] []))
   + length (History.redoStack (History.mk [1%nat] []))
     <= History.MAX_STACK)%nat.
Proof.
  apply (history_stacks_bounded [Store.Arr []] [Store.Arr []; Store.Arr []]).
  apply rtc_once. apply (call_push _ _ 0%nat). reflexivity.
Defined.

Lemma wf_extend (h ext : Store.t) (stack : list nat) :
  (forall a, In a stack -> is_Some (Store.readArray h a)) ->
  forall a, In a stack -> is_Some (Store.readArray (h ++ ext) a).
Proof.
  intros H a Ha. destruct (H a Ha) as [v Hv]. exists v. apply readArray_app, Hv.
Qed.

Lemma In_capped {A : Type} (l : list A) (a : A) : In a (History.capped l) -> In a l.
Proof.
  unfold History.capped. destruct (History.MAX_STACK <? length l)%nat; [| auto].
  destruct l; simpl; auto.
Qed.

Lemma In_removelast {A : Type} (l : list A) (a : A) : In a (removelast l) -> In a l.
Proof.
  destruct (snoc_cases l) as [-> | (l' & x & ->)]; [auto |].
  rewrite removelast_last. intros H. apply in_or_app. now left.
Qed.

Lemma last_is_Some {A : Type} (x : A) (l : list A) : is_Some (last (x :: l)).
Proof.
  destruct (snoc_cases (x :: l)) as [E | (l' & a & ->)]; [discriminate |].
  rewrite last_snoc. eauto.
Qed.

(** X19.  On well-formed stacks and a current shape array the three
    history calls do not fail and leave the stacks well formed.  [undo]
    returns [null] exactly when [canUndo()] is false, and then changes
    neither stack; [redo] likewise with [canRedo()].  After [push],
    [canUndo()] holds and [canRedo()] does not. *)
Theorem history_calls_succeed (h : Store.t) (hist : History.t) (currentShapes : nat) :
  History.wf h hist ->
  is_Some (Store.readArray h currentShapes) ->
  (exists h1 hist1,
     History.push h hist currentShapes = Some (h1, hist1) /\
     History.wf h1 hist1 /\
     History.canUndo hist1 = true /\ History.canRedo hist1 = false) /\
  (exists h1 hist1 r,
     History.undo h hist currentShapes = Some (h1, hist1, r) /\
     History.wf h1 hist1 /\
     (is_Some r <-> History.canUndo hist = true) /\
     (r = None -> h1 = h /\ hist1 = hist) /\
     (is_Some r -> History.canRedo hist1 = true)) /\
  (exists h1 hist1 r,
     History.redo h hist currentShapes = Some (h1, hist1, r) /\
     History.wf h1 hist1 /\
     (is_Some r <-> History.canRedo hist = true) /\
     (r = None -> h1 = h /\ hist1 = hist) /\
     (is_Some r -> History.canUndo hist1 = true)).
Proof.
  intros Hwf [v Hv].
  assert (Hold : forall a, In a (History.undoStack hist ++ History.redoStack hist) ->
            is_Some (Store.readArray (h ++ cloneCells h v) a)).
  { apply wf_extend. exact Hwf. }
  assert (Hnew : is_Some (Store.readArray (h ++ cloneCells h v) (length h + length v)))
    by (exists v; apply clone_read_here).
  split; [| split].
  - unfold History.push. rewrite (deepClone_Some h currentShapes v Hv).
    eexists _, _. split; [reflexivity |]. split; [| split].
    + intros a Ha. simpl in Ha. rewrite app_nil_r in Ha.
      apply In_capped, in_app_or in Ha as [Ha | [<- | []]]; [| exact Hnew].
      apply Hold, in_or_app. now left.
    + unfold History.canUndo. simpl.
      pose proof (last_capped (History.undoStack hist) (length h + length v)%nat) as Hl.
      destruct (History.capped _); [discriminate | reflexivity].
    + reflexivity.
  - unfold History.undo.
    destruct (History.undoStack hist) as [| x u] eqn:Hu.
    + eexists _, _, _. split; [reflexivity |]. split; [exact Hwf |].
      unfold History.canUndo. rewrite Hu. simpl.
      split; [split; [intros [? ?]; discriminate | discriminate] |].
      split; [auto | intros [? ?]; discriminate].
    + rewrite (deepClone_Some h currentShapes v Hv).
      eexists _, _, _. split; [reflexivity |]. split; [| split; [| split]].
      * intros a Ha. cbn [History.undoStack History.redoStack] in Ha.
        apply in_app_or in Ha as [Ha | Ha].
        -- apply In_removelast in Ha. apply Hold, in_or_app. now left.
        -- apply in_app_or in Ha as [Ha | [<- | []]]; [| exact Hnew].
           apply Hold, in_or_app. now right.
      * unfold History.canUndo. rewrite Hu. simpl.
        split; [reflexivity | intros _; apply last_is_Some].
      * intros Hn. pose proof (last_is_Some x u) as [? Hs]. congruence.
      * intros _. unfold History.canRedo. cbn [History.redoStack].
        rewrite length_app. simpl. apply Nat.ltb_lt. lia.
  - unfold History.redo.
    destruct (History.redoStack hist) as [| x u] eqn:Hu.
    + eexists _, _, _. split; [reflexivity |]. split; [exact Hwf |].
      unfold History.canRedo. rewrite Hu. simpl.
      split; [split; [intros [? ?]; discriminate | discriminate] |].
      split; [auto | intros [? ?]; discriminate].
    + rewrite (deepClone_Some h currentShapes v Hv).
      eexists _, _, _. split; [reflexivity |]. split; [| split; [| split]].
      * intros a Ha. cbn [History.undoStack History.redoStack] in Ha.
        apply in_app_or in Ha as [Ha | Ha].
        -- apply in_app_or in Ha as [Ha | [<- | []]]; [| exact Hnew].
           apply Hold, in_or_app. now left.
        -- apply In_removelast in Ha. apply Hold, in_or_app. now right.
      * unfold History.canRedo. rewrite Hu. simpl.
        split; [reflexivity | intros _; apply last_is_Some].
      * intros Hn. pose proof (last_is_Some x u) as [? Hs]. congruence.
      * intros _. unfold History.canUndo. cbn [History.undoStack].
        rewrite length_app. simpl. apply Nat.ltb_lt. lia.
Qed.

Lemma history_calls_succeed_witness :
  let h := [Store.Arr []] in
  let hist := History.empty in
  (exists h1 hist1,
     History.push h hist 0%nat = Some (h1, hist1) /\
     History.wf h1 hist1 /\
     History.canUndo hist1 = true /\ History.canRedo hist1 = false) /\
  (exists h1 hist1 r,
     History.undo h hist 0%nat = Some (h1, hist1, r) /\
     History.wf h1 hist1 /\
     (is_Some r <-> History.canUndo hist = true) /\
     (r = None -> h1 = h /\ hist1 = hist) /\
     (is_Some r -> History.canRedo hist1 = true)) /\
  (exists h1 hist1 r,
     History.redo h hist 0%nat = Some (h1, hist1, r) /\
     History.wf h1 hist1 /\
     (is_Some r <-> History.canRedo hist = true) /\
     (r = None -> h1 = h /\ hist1 = hist) /\
     (is_Some r -> History.canUndo hist1 = true)).
Proof.
  intros h hist. apply (history_calls_succeed h hist 0%nat).
  - intros a [].
  - exists []. reflexivity.
Defined.

(** ** history.js: the stacks by value *)

Lemma Forall2_snoc_inv {A B : Type} (R : A -> B -> Prop) (l1 : list A) (a : A)
    (l2 : list B) (b : B) :
  Forall2 R (l1 ++ [a]) (l2 ++ [b]) -> Forall2 R l1 l2 /\ R a b.
Proof.
  intros H. pose proof (Forall2_length _ _ _ H) as Hlen.
  rewrite !length_app in Hlen. simpl in Hlen.
  apply Forall2_app_inv in H as [H1 H2]; [| lia].
  split; [exact H1 | now inversion H2].
Qed.

Lemma stacksRead_extend (h ext : Store.t) (stack : list nat) (vals : list (list Shape.t)) :
  Forall2 (fun a v => Store.readArray h a = Some v) stack vals ->
  Forall2 (fun a v => Store.readArray (h ++ ext) a = Some v) stack vals.
Proof.
  intros H. eapply Forall2_impl; [exact H |]. intros a v. apply readArray_app.
Qed.

(** Popping a stack of references that reads as a stack of values. *)
Lemma stack_pop_read (h : Store.t) (stack : list nat) (vals : list (list Shape.t)) :
  Forall2 (fun a v => Store.readArray h a = Some v) stack vals ->
  Forall2 (fun a v => Store.readArray h a = Some v) (removelast stack) (removelast vals) /\
  readReturned h (last stack) = last vals /\
  (stack = [] <-> vals = []).
Proof.
  intros H.
  destruct (snoc_cases stack) as [-> | (s' & a & ->)];
    destruct (snoc_cases vals) as [-> | (v' & b & ->)].
  - split; [constructor |]. split; [reflexivity | tauto].
  - apply Forall2_length in H. rewrite length_app in H. simpl in H. lia.
  - apply Forall2_length in H. rewrite length_app in H. simpl in H. lia.
  - apply Forall2_snoc_inv in H as [H1 H2].
    rewrite !removelast_last, !last_snoc. simpl.
    split; [exact H1 |]. split; [exact H2 |].
    split; intros E; destruct s', v'; discriminate.
Qed.

(** X20.  [History.undo] and [History.redo] on the store act on the
    snapshots as [undoValue] and [redoValue] do: when the stacks read as
    the snapshots [s] and the current array reads as [v], the call
    succeeds, the new stacks read as the new snapshots, and the reference
    returned reads as the snapshot returned ([null] for none). *)
Theorem undo_redo_by_value (h : Store.t) (hist : History.t) (s : History.snapshots)
    (currentShapes : nat) (v : list Shape.t) :
  stacksRead h hist s ->
  Store.readArray h currentShapes = Some v ->
  (exists h1 hist1 r,
     History.undo h hist currentShapes = Some (h1, hist1, r) /\
     stacksRead h1 hist1 (fst (History.undoValue s v)) /\
     readReturned h1 r = snd (History.undoValue s v)) /\
  (exists h1 hist1 r,
     History.redo h hist currentShapes = Some (h1, hist1, r) /\
     stacksRead h1 hist1 (fst (History.redoValue s v)) /\
     readReturned h1 r = snd (History.redoValue s v)).
Proof.
  intros [Hu Hr] Hv.
  pose proof (stack_pop_read _ _ _ (stacksRead_extend h (cloneCells h v) _ _ Hu))
    as (Hu1 & Hu2 & Hu3).
  pose proof (stack_pop_read _ _ _ (stacksRead_extend h (cloneCells h v) _ _ Hr))
    as (Hr1 & Hr2 & Hr3).
  assert (Hnew : Forall2 (fun a w => Store.readArray (h ++ cloneCells h v) a = Some w)
                   [(length h + length v)%nat] [v])
    by (constructor; [apply clone_read_here | constructor]).
  split.
  - unfold History.undo, History.undoValue.
    destruct (History.undoStack hist) as [| x u] eqn:Ex;
      destruct (History.undoValues s) as [| y w] eqn:Ey;
      try (exfalso; destruct Hu3 as [H1 H2]; (discriminate H1 || discriminate H2);
           reflexivity).
    + eexists _, _, _. split; [reflexivity |]. split; [| reflexivity].
      split; simpl; first [assumption | rewrite ?Ex, ?Ey; constructor].
    + rewrite (deepClone_Some h currentShapes v Hv).
      eexists _, _, _. split; [reflexivity |]. split; [| exact Hu2].
      split; [exact Hu1 |]. simpl.
      apply Forall2_app; [apply stacksRead_extend, Hr | exact Hnew].
  - unfold History.redo, History.redoValue.
    destruct (History.redoStack hist) as [| x u] eqn:Ex;
      destruct (History.redoValues s) as [| y w] eqn:Ey;
      try (exfalso; destruct Hr3 as [H1 H2]; (discriminate H1 || discriminate H2);
           reflexivity).
    + eexists _, _, _. split; [reflexivity |]. split; [| reflexivity].
      split; simpl; first [assumption | rewrite ?Ex, ?Ey; constructor].
    + rewrite (deepClone_Some h currentShapes v Hv).
      eexists _, _, _. split; [reflexivity |]. split; [| exact Hr2].
      split; [| exact Hr1]. simpl.
      apply Forall2_app; [apply stacksRead_extend, Hu | exact Hnew].
Qed.

(** After [push] of the list [[a]] and a replacement of [a] by [b] in
    place, [undo] pops the copy, which still reads [[a]], and stacks a
    copy of [[b]] for redo; [redo] on the list [undo] returned pops that
    copy, which reads [[b]], and stacks a copy of [[a]]. *)
Lemma undo_redo_by_value_witness :
  let a := Shapes.create "a" 1 "rectangle" in
  let b := Shapes.create "b" 2 "ellipse" in
  let pushed := [Store.Obj b; Store.Arr [0%nat]; Store.Obj a; Store.Arr [2%nat]] in
  let undone := pushed ++ [Store.Obj b; Store.Arr [4%nat]] in
  (exists h1 hist1 r,
     History.undo pushed (History.mk [3%nat] []) 1%nat = Some (h1, hist1, Some r) /\
     History.undoStack hist1 = [] /\ History.redoStack hist1 = [5%nat] /\
     stacksRead h1 hist1 (History.mkSnapshots [] [[b]]) /\
     Store.readArray h1 r = Some [a]) /\
  (exists h1 hist1 r,
     History.redo undone (History.mk [] [5%nat]) 3%nat = Some (h1, hist1, Some r) /\
     History.undoStack hist1 = [7%nat] /\ History.redoStack hist1 = [] /\
     stacksRead h1 hist1 (History.mkSnapshots [[a]] []) /\
     Store.readArray h1 r = Some [b]).
Proof.
  intros a b pushed undone. split.
  - destruct (undo_redo_by_value pushed (History.mk [3%nat] [])
                (History.mkSnapshots [[a]] []) 1%nat [b])
      as [(h1 & hist1 & r & Hcall & Hstacks & Hret) _].
    { split; repeat constructor. }
    { reflexivity. }
    assert (Hrun : History.undo pushed (History.mk [3%nat] []) 1%nat
                   = Some (pushed ++ [Store.Obj b; Store.Arr [4%nat]],
                           History.mk [] [5%nat], Some 3%nat)) by reflexivity.
    rewrite Hrun in Hcall. injection Hcall as <- <- <-.
    eexists _, _, _. split; [exact Hrun |].
    split; [reflexivity |]. split; [reflexivity |].
    split; [exact Hstacks | exact Hret].
  - destruct (undo_redo_by_value undone (History.mk [] [5%nat])
                (History.mkSnapshots [] [[b]]) 3%nat [a])
      as [_ (h1 & hist1 & r & Hcall & Hstacks & Hret)].
    { split; repeat constructor. }
    { reflexivity. }
    assert (Hrun : History.redo undone (History.mk [] [5%nat]) 3%nat
                   = Some (undone ++ [Store.Obj a; Store.Arr [6%nat]],
                           History.mk [7%nat] [], Some 5%nat)) by reflexivity.
    rewrite Hrun in Hcall. injection Hcall as <- <- <-.
    eexists _, _, _. split; [exact Hrun |].
    split; [reflexivity |]. split; [reflexivity |].
    split; [exact Hstacks | exact Hret].
Defined.

(** ** tools.js: z-order *)

Lemma filter_partition_perm {A : Type} (f : A -> bool) (l : list A) :
  Permutation (List.filter (fun x => negb (f x)) l ++ List.filter f l) l /\
  Permutation (List.filter f l ++ List.filter (fun x => negb (f x)) l) l.
Proof.
  induction l as [| a l [IH1 IH2]]; [split; constructor |].
  simpl. destruct (f a); simpl; split.
  - symmetry. apply Permutation_cons_app. symmetry. exact IH1.
  - constructor. exact IH2.
  - constructor. exact IH1.
  - symmetry. apply Permutation_cons_app. symmetry. exact IH2.
Qed.

Lemma filter_idem {A : Type} (f : A -> bool) (l : list A) :
  List.filter f (List.filter f l) = List.filter f l.
Proof.
  induction l as [| a l IH]; [reflexivity |]. simpl.
  destruct (f a) eqn:E; simpl; rewrite ?E, IH; reflexivity.
Qed.

Lemma filter_disjoint {A : Type} (f g : A -> bool) (l : list A) :
  (forall x, f x = true -> g x = false) -> List.filter g (List.filter f l) = [].
Proof.
  intros H. induction l as [| a l IH]; [reflexivity |]. simpl.
  destruct (f a) eqn:E; simpl; [rewrite (H a E) |]; exact IH.
Qed.

Lemma filter_true_Forall {A : Type} (f : A -> bool) (l : list A) :
  Forall (fun x => f x = true) (List.filter f l).
Proof. apply Forall_forall. intros x Hx. apply list_elem_of_In, filter_In in Hx. tauto. Qed.

Lemma zorder_split (st : Tools.State) (l : list Shape.t) :
  List.filter (Tools.isSelected st)
    (List.filter (fun s => negb (Tools.isSelected st s)) l ++ List.filter (Tools.isSelected st) l)
    = List.filter (Tools.isSelected st) l /\
  List.filter (fun s => negb (Tools.isSelected st s))
    (List.filter (fun s => negb (Tools.isSelected st s)) l ++ List.filter (Tools.isSelected st) l)
    = List.filter (fun s => negb (Tools.isSelected st s)) l /\
  List.filter (Tools.isSelected st)
    (List.filter (Tools.isSelected st) l ++ List.filter (fun s => negb (Tools.isSelected st s)) l)
    = List.filter (Tools.isSelected st) l /\
  List.filter (fun s => negb (Tools.isSelected st s))
    (List.filter (Tools.isSelected st) l ++ List.filter (fun s => negb (Tools.isSelected st s)) l)
    = List.filter (fun s => negb (Tools.isSelected st s)) l.
Proof.
  rewrite !List.filter_app, !filter_idem.
  rewrite (filter_disjoint (fun s => negb (Tools.isSelected st s)) (Tools.isSelected st))
    by (intros x; apply negb_true_iff).
  rewrite (filter_disjoint (Tools.isSelected st) (fun s => negb (Tools.isSelected st s)))
    by (intros x ->; reflexivity).
  rewrite !app_nil_r. simpl. auto.
Qed.

Lemma filter_none {A : Type} (f : A -> bool) (l : list A) :
  (forall x, f x = false) ->
  List.filter f l = [] /\ List.filter (fun x => negb (f x)) l = l.
Proof.
  intros H. induction l as [| a l [IH1 IH2]]; [split; reflexivity |].
  simpl. rewrite (H a). simpl. rewrite IH2. split; [exact IH1 | reflexivity].
Qed.

Lemma empty_selection (st : Tools.State) :
  bool_decide (size (Tools.selectedIds st) = 0%nat) = true ->
  forall s, Tools.isSelected st s = false.
Proof.
  intros Hsize s. apply bool_decide_eq_true in Hsize. apply size_empty_inv in Hsize.
  apply leibniz_equiv in Hsize. unfold Tools.isSelected. rewrite Hsize.
  apply bool_decide_eq_false. set_solver.
Qed.

Lemma bringToFront_shapes (st : Tools.State) :
  Tools.shapes (Tools.bringToFront st)
    = List.filter (fun s => negb (Tools.isSelected st s)) (Tools.shapes st)
      ++ List.filter (Tools.isSelected st) (Tools.shapes st) /\
  Tools.isSelected (Tools.bringToFront st) = Tools.isSelected st.
Proof.
  unfold Tools.bringToFront.
  destruct (bool_decide (size (Tools.selectedIds st) = 0%nat)) eqn:Hsize.
  - destruct (filter_none (Tools.isSelected st) (Tools.shapes st)
                (empty_selection st Hsize)) as [-> ->].
    now rewrite app_nil_r.
  - split; reflexivity.
Qed.

Lemma sendToBack_shapes (st : Tools.State) :
  Tools.shapes (Tools.sendToBack st)
    = List.filter (Tools.isSelected st) (Tools.shapes st)
      ++ List.filter (fun s => negb (Tools.isSelected st s)) (Tools.shapes st) /\
  Tools.isSelected (Tools.sendToBack st) = Tools.isSelected st.
Proof.
  unfold Tools.sendToBack.
  destruct (bool_decide (size (Tools.selectedIds st) = 0%nat)) eqn:Hsize.
  - destruct (filter_none (Tools.isSelected st) (Tools.shapes st)
                (empty_selection st Hsize)) as [-> ->].
    split; reflexivity.
  - split; reflexivity.
Qed.

(** X21.  [bringToFront] and [sendToBack] only reorder: the new list is
    a permutation of the old one in which the selected shapes keep their
    relative order, and so do the others; the selected shapes come last,
    respectively first.  Doing either a second time changes nothing
    more, and [sendToBack] after [bringToFront] gives the list of
    [sendToBack] alone. *)
Theorem z_order_commands_reorder (st : Tools.State) :
  let sel := Tools.isSelected st in
  let unsel := fun s => negb (Tools.isSelected st s) in
  let front := Tools.shapes (Tools.bringToFront st) in
  let back := Tools.shapes (Tools.sendToBack st) in
  Permutation front (Tools.shapes st) /\ Permutation back (Tools.shapes st) /\
  List.filter sel front = List.filter sel (Tools.shapes st) /\
  List.filter unsel front = List.filter unsel (Tools.shapes st) /\
  List.filter sel back = List.filter sel (Tools.shapes st) /\
  List.filter unsel back = List.filter unsel (Tools.shapes st) /\
  (exists rest top, front = rest ++ top /\
     Forall (fun s => unsel s = true) rest /\ Forall (fun s => sel s = true) top) /\
  (exists bottom rest, back = bottom ++ rest /\
     Forall (fun s => sel s = true) bottom /\ Forall (fun s => unsel s = true) rest) /\
  Tools.shapes (Tools.bringToFront (Tools.bringToFront st)) = front /\
  Tools.shapes (Tools.sendToBack (Tools.sendToBack st)) = back /\
  Tools.shapes (Tools.sendToBack (Tools.bringToFront st)) = back.
Proof.
  intros sel unsel front back. subst sel unsel front back.
  destruct (bringToFront_shapes st) as [Hf Hfs].
  destruct (sendToBack_shapes st) as [Hb Hbs].
  destruct (bringToFront_shapes (Tools.bringToFront st)) as [Hff _].
  destruct (sendToBack_shapes (Tools.sendToBack st)) as [Hbb _].
  destruct (sendToBack_shapes (Tools.bringToFront st)) as [Hbf _].
  rewrite Hfs in Hff, Hbf. rewrite Hbs in Hbb.
  rewrite Hf in Hff, Hbf. rewrite Hb in Hbb.
  destruct (filter_partition_perm (Tools.isSelected st) (Tools.shapes st)) as [P1 P2].
  destruct (zorder_split st (Tools.shapes st)) as (Z1 & Z2 & Z3 & Z4).
  rewrite Z1, Z2 in Hff. rewrite Z3, Z4 in Hbb. rewrite Z1, Z2 in Hbf.
  rewrite Hff, Hbb, Hbf, Hf, Hb, Z1, Z2, Z3, Z4.
  split; [exact P1 |]. split; [exact P2 |].
  repeat (split; [reflexivity |]).
  split; [| split; [| repeat split; reflexivity]].
  - eexists _, _. split; [reflexivity |].
    split; [apply (filter_true_Forall (fun s => negb (Tools.isSelected st s)))
           | apply (filter_true_Forall (Tools.isSelected st))].
  - eexists _, _. split; [reflexivity |].
    split; [apply (filter_true_Forall (Tools.isSelected st))
           | apply (filter_true_Forall (fun s => negb (Tools.isSelected st s)))].
Qed.

(** ** tools.js: undo and redo of the commands *)

Lemma capped_snoc_cases {A : Type} (l : list A) (c : A) :
  exists l', History.capped (l ++ [c]) = l' ++ [c].
Proof.
  unfold History.capped.
  destruct (History.MAX_STACK <? length (l ++ [c]))%nat eqn:Hc; [| eauto].
  apply Nat.ltb_lt in Hc. rewrite length_app in Hc. unfold History.MAX_STACK in Hc.
  simpl in Hc. destruct l as [| x l]; [simpl in Hc; lia |]. simpl. eauto.
Qed.

(** [Tools.undo] after a command that pushed the list it started from
    gives that list back, and [Tools.redo] then gives the command's. *)
Lemma undo_after_push (st st1 : Tools.State) :
  Tools.history st1 = History.pushValue (Tools.history st) (Tools.shapes st) ->
  Tools.shapes (Tools.undo st1) = Tools.shapes st /\
  Tools.shapes (Tools.redo (Tools.undo st1)) = Tools.shapes st1 /\
  Tools.selectedIds (Tools.undo st1) = ∅.
Proof.
  intros Hh. unfold Tools.undo, History.undoValue. rewrite Hh.
  unfold History.pushValue. cbn [History.undoValues History.redoValues].
  destruct (capped_snoc_cases (History.undoValues (Tools.history st)) (Tools.shapes st))
    as [l' ->].
  destruct (l' ++ [Tools.shapes st]) as [| x u] eqn:E.
  { destruct l'; discriminate. }
  rewrite <- E, last_snoc, removelast_last. simpl.
  split; [reflexivity |]. split; [| reflexivity].
  unfold Tools.redo, History.redoValue. simpl. reflexivity.
Qed.

(** X22.  The commands on the selection can be undone and redone: with
    a non-empty selection, [undo] after [deleteSelected], [bringToFront]
    or [sendToBack] restores the shape list as it was before the command,
    bindings included, and [redo] after that gives the command's result
    again. *)
Theorem selection_commands_undoable (st : Tools.State)
    (command : Tools.State -> Tools.State) :
  size (Tools.selectedIds st) <> 0%nat ->
  In command [Tools.deleteSelected; Tools.bringToFront; Tools.sendToBack] ->
  Tools.shapes (Tools.undo (command st)) = Tools.shapes st /\
  Tools.shapes (Tools.redo (Tools.undo (command st))) = Tools.shapes (command st) /\
  Tools.selectedIds (Tools.undo (command st)) = ∅.
Proof.
  intros Hsel Hin. apply undo_after_push.
  assert (Hdec : bool_decide (size (Tools.selectedIds st) = 0%nat) = false)
    by (apply bool_decide_eq_false_2, Hsel).
  simpl in Hin. destruct Hin as [<- | [<- | [<- | []]]];
    unfold Tools.deleteSelected, Tools.bringToFront, Tools.sendToBack;
    rewrite Hdec; reflexivity.
Qed.

Lemma selection_commands_undoable_witness :
  let st := Tools.withShapes Tools.initial chained {[ "T"%string ]}
              (History.mkSnapshots [] []) in
  Tools.shapes (Tools.undo (Tools.deleteSelected st)) = Tools.shapes st /\
  Tools.shapes (Tools.redo (Tools.undo (Tools.deleteSelected st)))
    = Tools.shapes (Tools.deleteSelected st) /\
  Tools.selectedIds (Tools.undo (Tools.deleteSelected st)) = ∅.
Proof.
  intros st. apply (selection_commands_undoable st Tools.deleteSelected).
  - unfold st, Tools.withShapes. cbn [Tools.selectedIds].
    rewrite size_singleton. discriminate.
  - simpl. auto.
Defined.

(** X23.  A committed drawing can be undone: when [finishDraw] appends
    the shape being drawn, [undo] gives back the list without it, and
    [redo] the list with it. *)
Theorem committed_drawing_undoable (st st' : Tools.State) (d : Shape.t) :
  Tools.drawingShape st = Some d ->
  Tools.tooSmall d = Some false ->
  Tools.finishDraw st = Some st' ->
  Tools.shapes st' = Tools.shapes st ++ [Tools.committed st d] /\
  Tools.shapes (Tools.undo st') = Tools.shapes st /\
  Tools.shapes (Tools.redo (Tools.undo st')) = Tools.shapes st'.
Proof.
  intros Hd Hsmall Hfin. unfold Tools.finishDraw in Hfin. rewrite Hd, Hsmall in Hfin.
  injection Hfin as <-.
  split; [reflexivity |].
  match goal with
  | |- Tools.shapes (Tools.undo ?s1) = _ /\ _ =>
      destruct (undo_after_push st s1) as (H1 & H2 & _); [reflexivity |]
  end.
  split; assumption.
Qed.

Lemma committed_drawing_undoable_witness :
  let d := rectangleAt "n1" 5 10 10 40 30 in
  let st := Tools.withDrawing (Tools.setTool Tools.initial "rectangle") (Point.mk 10 10) d in
  exists st',
    Tools.finishDraw st = Some st' /\
    Tools.shapes st' = Tools.shapes st ++ [Tools.committed st d] /\
    Tools.shapes (Tools.undo st') = Tools.shapes st /\
    Tools.shapes (Tools.redo (Tools.undo st')) = Tools.shapes st'.
Proof.
  intros d st.
  assert (Hsmall : Tools.tooSmall d = Some false).
  { unfold Tools.tooSmall, d. simpl.
    destruct (Rlt_dec 40 5); [lra | reflexivity]. }
  eexists. split.
  - unfold Tools.finishDraw. simpl Tools.drawingShape. cbv iota. rewrite Hsmall.
    reflexivity.
  - eapply (committed_drawing_undoable st _ d); [reflexivity | exact Hsmall |].
    unfold Tools.finishDraw. simpl Tools.drawingShape. cbv iota. rewrite Hsmall.
    reflexivity.
Defined.

(** ** tools.js: selection *)

Lemma fold_select (f : Shape.t -> bool) (l : list Shape.t) (init : gset string)
    (id : string) :
  id ∈ fold_left (fun ids s => if f s then {[ Shape.id s ]} ∪ ids else ids) l init <->
  id ∈ init \/ exists s, In s l /\ Shape.id s = id /\ f s = true.
Proof.
  revert init. induction l as [| a l IH]; intros init; simpl.
  - split; [auto | intros [H | (s & [] & _)]; exact H].
  - rewrite IH. destruct (f a) eqn:Hf.
    + rewrite elem_of_union, elem_of_singleton. split.
      * intros [[-> | H] | (s & Hs & Hid & Hfs)]; eauto 6.
      * intros [H | (s & [<- | Hs] & Hid & Hfs)]; eauto 6.
    + split.
      * intros [H | (s & Hs & Hid & Hfs)]; eauto 6.
      * intros [H | (s & [<- | Hs] & Hid & Hfs)]; [auto | congruence | eauto 6].
Qed.

Lemma normalizeBounds_band (x1 y1 x2 y2 px py : R) :
  let b := Utils.normalizeBounds x1 y1 x2 y2 in
  0 <= Bounds.w b /\ 0 <= Bounds.h b /\
  (Utils.pointInRect px py (Bounds.x b) (Bounds.y b) (Bounds.w b) (Bounds.h b) = true
   <-> inBand x1 y1 x2 y2 px py).
Proof.
  unfold Utils.normalizeBounds, inBand, Math.min, Math.max, Math.abs. simpl.
  rewrite pointInRect_true.
  unfold Rmin, Rmax, Rabs.
  destruct (Rle_dec x1 x2), (Rle_dec y1 y2), (Rcase_abs (x2 - x1)), (Rcase_abs (y2 - y1));
    lra.
Qed.

(** X24.  Releasing a rubber band dragged between two corners selects,
    on top of what was selected, exactly the shapes whose bounding box
    shares a point with the band (boxes of width and height that are not
    negative); the shape list and the history are left as they were. *)
Theorem rubber_band_selects_touched_boxes (st : Tools.State) (x1 y1 x2 y2 : R)
    (id : string) :
  Forall (fun s => 0 <= Bounds.w (Shapes.getBounds s) /\ 0 <= Bounds.h (Shapes.getBounds s))
         (Tools.shapes st) ->
  let st' := Tools.finishSelectRect (Some (Utils.normalizeBounds x1 y1 x2 y2)) st in
  (id ∈ Tools.selectedIds st' <->
   id ∈ Tools.selectedIds st \/
   exists s px py,
     In s (Tools.shapes st) /\ Shape.id s = id /\
     inBand x1 y1 x2 y2 px py /\
     Utils.pointInRect px py (Bounds.x (Shapes.getBounds s)) (Bounds.y (Shapes.getBounds s))
                       (Bounds.w (Shapes.getBounds s)) (Bounds.h (Shapes.getBounds s)) = true) /\
  Tools.shapes st' = Tools.shapes st /\ Tools.history st' = Tools.history st.
Proof.
  intros Hpos st'. split; [| split; reflexivity].
  unfold st', Tools.finishSelectRect, Tools.withShapes. cbn [Tools.selectedIds].
  rewrite fold_select.
  destruct (normalizeBounds_band x1 y1 x2 y2 0 0) as (Hw & Hh & _).
  rewrite Forall_forall in Hpos.
  split; (intros [H | H]; [now left | right]).
  - destruct H as (s & Hs & Hid & Hov).
    destruct (Hpos s) as [Hsw Hsh]; [apply list_elem_of_In, Hs |].
    apply (rectsOverlap_iff_point _ _ Hw Hh Hsw Hsh) in Hov as (px & py & Hband & Hbox).
    exists s, px, py. split; [exact Hs |]. split; [exact Hid |].
    split; [| exact Hbox].
    apply (normalizeBounds_band x1 y1 x2 y2 px py), Hband.
  - destruct H as (s & px & py & Hs & Hid & Hband & Hbox).
    destruct (Hpos s) as [Hsw Hsh]; [apply list_elem_of_In, Hs |].
    exists s. split; [exact Hs |]. split; [exact Hid |].
    apply (rectsOverlap_iff_point _ _ Hw Hh Hsw Hsh).
    exists px, py. split; [| exact Hbox].
    apply (normalizeBounds_band x1 y1 x2 y2 px py), Hband.
Qed.

Lemma rubber_band_selects_touched_boxes_witness :
  let st := Tools.withShapes Tools.initial [boxR] ∅ (History.mkSnapshots [] []) in
  let st' := Tools.finishSelectRect (Some (Utils.normalizeBounds 250 50 150 (-20))) st in
  ("R"%string ∈ Tools.selectedIds st' <->
   "R"%string ∈ Tools.selectedIds st \/
   exists s px py,
     In s (Tools.shapes st) /\ Shape.id s = "R"%string /\
     inBand 250 50 150 (-20) px py /\
     Utils.pointInRect px py (Bounds.x (Shapes.getBounds s)) (Bounds.y (Shapes.getBounds s))
                       (Bounds.w (Shapes.getBounds s)) (Bounds.h (Shapes.getBounds s)) = true) /\
  Tools.shapes st' = Tools.shapes st /\ Tools.history st' = Tools.history st.
Proof.
  intros st. apply (rubber_band_selects_touched_boxes st 250 50 150 (-20) "R").
  repeat constructor; simpl; lra.
Defined.

Lemma selectAll_ids (st : Tools.State) (id : string) :
  id ∈ Tools.selectedIds (Tools.selectAll st) <-> In id (map Shape.id (Tools.shapes st)).
Proof.
  unfold Tools.selectAll, Tools.withShapes. cbn [Tools.selectedIds].
  rewrite (fold_select (fun _ => true)). rewrite in_map_iff. split.
  - intros [H | (s & Hs & Hid & _)]; [set_solver | eauto].
  - intros (s & Hid & Hs). right. eauto.
Qed.

(** X25.  [selectAll] selects exactly the ids of the shapes of the list,
    whatever was selected before, and [deleteSelected] after it leaves no
    shape and no selection. *)
Theorem selectAll_then_delete_clears (st : Tools.State) :
  (forall id, id ∈ Tools.selectedIds (Tools.selectAll st)
              <-> In id (map Shape.id (Tools.shapes st))) /\
  Tools.shapes (Tools.deleteSelected (Tools.selectAll st)) = [] /\
  Tools.selectedIds (Tools.deleteSelected (Tools.selectAll st)) = ∅.
Proof.
  split; [apply selectAll_ids |].
  assert (Hall : forall s, In s (Tools.shapes st) ->
            Shape.id s ∈ Tools.selectedIds (Tools.selectAll st)).
  { intros s Hs. apply selectAll_ids, in_map, Hs. }
  unfold Tools.deleteSelected.
  destruct (bool_decide (size (Tools.selectedIds (Tools.selectAll st)) = 0%nat)) eqn:Hsize.
  - apply bool_decide_eq_true in Hsize. apply size_empty_inv in Hsize.
    apply leibniz_equiv in Hsize. split; [| exact Hsize].
    change (Tools.shapes (Tools.selectAll st)) with (Tools.shapes st).
    destruct (Tools.shapes st) as [| s l]; [reflexivity |].
    exfalso. specialize (Hall s (or_introl eq_refl)). rewrite Hsize in Hall. set_solver.
  - split; [| reflexivity]. cbn [Tools.shapes].
    change (Tools.shapes (Tools.selectAll st)) with (Tools.shapes st).
    induction (Tools.shapes st) as [| a l IH]; [reflexivity |]. simpl.
    assert (Ha : Shape.id (Tools.cleanBindings (Tools.selectedIds (Tools.selectAll st)) a)
                 ∈ Tools.selectedIds (Tools.selectAll st)).
    { rewrite cleanBindings_id. apply Hall. now left. }
    rewrite (bool_decide_eq_true_2 _ Ha). simpl. apply IH.
    intros s Hs. apply Hall. now right.
Qed.

(** ** tools.js: bindings name shapes of the canvas *)

Lemma withoutDeleted_Some (deletedIds : gset string) (b : option Binding.t) (x : Binding.t) :
  withoutDeleted deletedIds b = Some x -> b = Some x /\ Binding.shapeId x ∉ deletedIds.
Proof.
  unfold withoutDeleted. destruct b as [y |]; [| discriminate].
  destruct (bool_decide (Binding.shapeId y ∈ deletedIds)) eqn:E; [discriminate |].
  intros [= ->]. split; [reflexivity |]. now apply bool_decide_eq_false in E.
Qed.

Lemma repairedAfterDelete_ids (deletedIds : gset string) (l l' : list Shape.t) :
  Forall2 (repairedAfterDelete deletedIds) l l' -> map Shape.id l' = map Shape.id l.
Proof.
  induction 1 as [| s s' l l' Hs _ IH]; [reflexivity |].
  simpl. rewrite IH. f_equal. unfold repairedAfterDelete in Hs. now rewrite Hs.
Qed.

(** X26.  [deleteSelected] keeps the bindings closed: if every binding
    named a shape of the list before, every binding left names a shape
    that is still in the list, and none names a deleted one. *)
Theorem deleteSelected_keeps_bindings_closed (st : Tools.State) :
  bindingsClosed (Tools.shapes st) ->
  bindingsClosed (Tools.shapes (Tools.deleteSelected st)) /\
  forall s b,
    In s (Tools.shapes (Tools.deleteSelected st)) ->
    Shape.startBinding s = Some b \/ Shape.endBinding s = Some b ->
    Binding.shapeId b ∉ Tools.selectedIds st.
Proof.
  intros Hclosed.
  pose proof (deleteSelected_repairs st) as Hrep.
  pose proof (repairedAfterDelete_ids _ _ _ Hrep) as Hids.
  set (kept := List.filter (fun s => negb (bool_decide (Shape.id s ∈ Tools.selectedIds st)))
                           (Tools.shapes st)) in *.
  assert (Hsrc : forall s' b,
            In s' (Tools.shapes (Tools.deleteSelected st)) ->
            Shape.startBinding s' = Some b \/ Shape.endBinding s' = Some b ->
            exists s, In s (Tools.shapes st) /\
                      (Shape.startBinding s = Some b \/ Shape.endBinding s = Some b) /\
                      Binding.shapeId b ∉ Tools.selectedIds st).
  { intros s' b Hin Hb.
    apply list_elem_of_In, list_elem_of_lookup in Hin as [k Hk].
    destruct (Forall2_lookup_r _ _ _ _ _ Hrep Hk) as (s & Hs & Hr).
    assert (Hsin : In s (Tools.shapes st)).
    { apply list_elem_of_lookup_2, list_elem_of_In in Hs. apply filter_In in Hs. tauto. }
    unfold repairedAfterDelete in Hr. rewrite Hr in Hb. simpl in Hb.
    exists s. split; [exact Hsin |].
    destruct Hb as [Hb | Hb]; apply withoutDeleted_Some in Hb as [Hb Hn]; auto. }
  split.
  - intros s' b Hin Hb. destruct (Hsrc s' b Hin Hb) as (s & Hs & Hsb & Hn).
    rewrite Hids. specialize (Hclosed s b Hs Hsb).
    apply in_map_iff in Hclosed as (t & Ht & Htin).
    apply in_map_iff. exists t. split; [exact Ht |].
    apply filter_In. split; [exact Htin |].
    apply negb_true_iff, bool_decide_eq_false. now rewrite Ht.
  - intros s' b Hin Hb. destruct (Hsrc s' b Hin Hb) as (_ & _ & _ & Hn). exact Hn.
Qed.

Lemma deleteSelected_keeps_bindings_closed_witness :
  let st := Tools.withShapes Tools.initial [lineT; boxR] {[ "R"%string ]}
              (History.mkSnapshots [] []) in
  bindingsClosed (Tools.shapes (Tools.deleteSelected st)) /\
  forall s b,
    In s (Tools.shapes (Tools.deleteSelected st)) ->
    Shape.startBinding s = Some b \/ Shape.endBinding s = Some b ->
    Binding.shapeId b ∉ Tools.selectedIds st.
Proof.
  intros st. apply (deleteSelected_keeps_bindings_closed st).
  intros s b Hin Hb. simpl in Hin.
  destruct Hin as [<- | [<- | []]]; destruct Hb as [Hb | Hb]; try discriminate Hb.
  injection Hb as <-. simpl. auto.
Defined.

(** ** tools.js: the bindings of a drawn connector *)

Lemma findNearestBoundaryPoint_Some (shapes : list Shape.t) (worldX worldY : R)
    (excludeIds : list string) (r : Snap.t) :
  Connectors.findNearestBoundaryPoint shapes worldX worldY excludeIds = Some r ->
  exists s, In s shapes /\ connectable excludeIds s = true /\
            r = Connectors.snapOf s worldX worldY.
Proof.
  unfold Connectors.findNearestBoundaryPoint. intros Hr.
  pose proof (nearestSoFar_fold worldX worldY excludeIds shapes []
                (None, Connectors.SNAP_DISTANCE)) as H.
  simpl app in H. unfold nearestSoFar in H at 2. rewrite Hr in H.
  destruct H as (before & s & after & Heq & -> & _).
  { simpl. split; [reflexivity | constructor]. }
  assert (Hin : In s (candidates excludeIds shapes))
    by (rewrite Heq; apply in_or_app; right; now left).
  apply filter_In in Hin as [Hin Hc]. eauto.
Qed.

Lemma connectable_cases (excludeIds : list string) (s : Shape.t) :
  connectable excludeIds s = true ->
  includes excludeIds (Shape.id s) = false /\
  includes Connectors.NOT_CONNECTABLE (Shape.type s) = false.
Proof.
  unfold connectable. rewrite andb_true_iff, !negb_true_iff. tauto.
Qed.

Lemma snap_bindsConnectable (shapes : list Shape.t) (worldX worldY : R)
    (excludeIds : list string) (sn : Snap.t) :
  Connectors.findNearestBoundaryPoint shapes worldX worldY excludeIds = Some sn ->
  bindsConnectable shapes (Binding.mk (Snap.shapeId sn) (Snap.angle sn)) /\
  includes excludeIds (Snap.shapeId sn) = false.
Proof.
  intros H. apply findNearestBoundaryPoint_Some in H as (s & Hin & Hc & ->).
  apply connectable_cases in Hc as [Hex Hty].
  split; [exists s; auto | exact Hex].
Qed.

Lemma onPointerDown_drawingConnector (st st1 : Tools.State) (world : Point.t)
    (newId : string) (newSeed : Z) :
  Tools.isLineOrArrowType (Tools.currentTool st) = true ->
  Tools.onPointerDown st world newId newSeed = Some st1 ->
  drawingConnector (Tools.shapes st) newId st1.
Proof.
  intros Hl H. unfold Tools.onPointerDown in H.
  destruct (isLineOrArrowType_cases _ Hl) as (_ & Hn & _).
  assert (Hst : String.eqb (Tools.currentTool st) "select"
                || String.eqb (Tools.currentTool st) "text" = false).
  { unfold Tools.isLineOrArrowType in Hl. apply orb_true_iff in Hl.
    destruct Hl as [E | E]; apply String.eqb_eq in E; rewrite E; reflexivity. }
  cbv zeta in H. rewrite Hst, Hn, Hl in H. injection H as <-.
  split; [reflexivity |]. split; [reflexivity |]. split; [reflexivity |].
  eexists. split; [reflexivity |]. simpl.
  split; [reflexivity |]. split; [exact Hl |]. split; [eauto |]. split; [reflexivity |].
  split; [| discriminate].
  intros b Hb.
  destruct (Connectors.findNearestBoundaryPoint (Tools.shapes st) (Point.x world)
              (Point.y world) []) as [sn |] eqn:Hsn; [| discriminate].
  injection Hb as <-. apply (snap_bindsConnectable _ _ _ _ _ Hsn).
Qed.

Lemma handleDrawMove_drawingConnector (shapes0 : list Shape.t) (newId : string)
    (st st' : Tools.State) (world : Point.t) :
  drawingConnector shapes0 newId st ->
  Tools.handleDrawMove st world = Some st' ->
  drawingConnector shapes0 newId st'.
Proof.
  intros (Hsh & Hdrag & Htype & d & Hd & Hid & Hl & (p0 & p1 & Hp) & He & Hs & _) H.
  unfold Tools.handleDrawMove in H. rewrite Hd in H.
  destruct (isLineOrArrowType_cases _ Hl) as (_ & Hn & _).
  rewrite Hn, Hl, Hp, Hsh in H.
  destruct (Connectors.findNearestBoundaryPoint shapes0 (Point.x world) (Point.y world) _)
    as [sn |] eqn:Hsn; injection H as <-.
  - split; [exact Hsh |]. split; [exact Hdrag |]. split; [exact Htype |].
    eexists. split; [reflexivity |]. simpl.
    split; [exact Hid |]. split; [exact Hl |]. split; [eauto |]. split; [exact He |].
    split; [exact Hs |].
    intros sn' [= <-]. destruct (snap_bindsConnectable _ _ _ _ _ Hsn) as [Hb Hex].
    split; [exact Hb |]. intros b Hb'. rewrite Hb' in Hex. simpl in Hex.
    apply orb_false_iff in Hex as [Hex _]. now apply String.eqb_neq in Hex.
  - split; [exact Hsh |]. split; [exact Hdrag |]. split; [exact Htype |].
    eexists. split; [reflexivity |]. simpl.
    split; [exact Hid |]. split; [exact Hl |]. split; [eauto |]. split; [exact He |].
    split; [exact Hs | discriminate].
Qed.

Lemma dragThrough_drawingConnector (shapes0 : list Shape.t) (newId : string)
    (moves : list Point.t) (st st' : Tools.State) :
  drawingConnector shapes0 newId st ->
  dragThrough st moves = Some st' ->
  drawingConnector shapes0 newId st'.
Proof.
  revert st. induction moves as [| world rest IH]; intros st Hinv H; simpl in H.
  - now injection H as <-.
  - destruct (Tools.handleDrawMove st world) as [st1 |] eqn:H1; [| discriminate].
    eapply IH; [| exact H]. eapply handleDrawMove_drawingConnector; eassumption.
Qed.

(** X27.  A line or arrow drawn by a press, any drag and a release is
    either dropped, or appended to the list with the fresh id and with
    bindings that name shapes of the list a connector may attach to,
    never a line, arrow, freehand stroke or text; its two ends are never
    bound to the same id. *)
Theorem drawn_connector_bindings (st st1 st2 st3 : Tools.State) (world : Point.t)
    (moves : list Point.t) (newId : string) (newSeed : Z) :
  Tools.isLineOrArrowType (Tools.currentTool st) = true ->
  Tools.onPointerDown st world newId newSeed = Some st1 ->
  dragThrough st1 moves = Some st2 ->
  Tools.onPointerUp st2 = Some st3 ->
  Tools.shapes st3 = Tools.shapes st \/
  exists d,
    Tools.shapes st3 = Tools.shapes st ++ [d] /\
    Shape.id d = newId /\
    (forall b, Shape.startBinding d = Some b -> bindsConnectable (Tools.shapes st) b) /\
    (forall e, Shape.endBinding d = Some e -> bindsConnectable (Tools.shapes st) e) /\
    (forall b e, Shape.startBinding d = Some b -> Shape.endBinding d = Some e ->
                 Binding.shapeId b <> Binding.shapeId e).
Proof.
  intros Hl Hdown Hdrag Hup.
  pose proof (onPointerDown_drawingConnector st st1 world newId newSeed Hl Hdown) as H1.
  pose proof (dragThrough_drawingConnector _ _ _ _ _ H1 Hdrag)
    as (Hsh & Hdg & Hty & d & Hd & Hid & Hld & (p0 & p1 & Hp) & He & Hs & Hh).
  unfold Tools.onPointerUp in Hup. rewrite Hdg, Hty in Hup.
  destruct (Tools.finishDraw st2) as [st' |] eqn:Hfin; [| discriminate].
  injection Hup as <-. cbn [Tools.shapes].
  unfold Tools.finishDraw in Hfin. rewrite Hd in Hfin.
  destruct (Tools.tooSmall d) as [[|] |]; [| | discriminate]; injection Hfin as <-.
  - left. exact Hsh.
  - right. exists (Tools.committed st2 d). cbn [Tools.shapes Tools.setTool].
    split; [now rewrite Hsh |]. split; [now rewrite committed_id |].
    destruct (isLineOrArrowType_cases _ Hld) as (Hnc & _ & _).
    assert (Hc : Tools.committed st2 d
                 = match Tools._hoverSnap st2 with
                   | Some sn =>
                       Shape.set_endBinding
                         (Some (Binding.mk (Snap.shapeId sn) (Snap.angle sn))) d
                   | None => d
                   end).
    { rewrite committed_shape. unfold textAtRelease, endBindingAtRelease.
      rewrite Hld, Hnc.
      assert (Ht : match Tools.pendingShapeLabel st2 with
                   | Some label => if String.eqb label "" then Shape.text d else Shape.text d
                   | None => Shape.text d
                   end = Shape.text d).
      { destruct (Tools.pendingShapeLabel st2) as [label |];
          [destruct (String.eqb label "") |]; reflexivity. }
      rewrite Ht. destruct (Tools._hoverSnap st2); destruct d; reflexivity. }
    rewrite Hc.
    destruct (Tools._hoverSnap st2) as [sn |] eqn:Hsn.
    + destruct (Hh sn eq_refl) as [Hb Hne]. simpl.
      split; [exact Hs |]. split; [intros e [= <-]; exact Hb |].
      intros b e Hb' [= <-]. simpl. intros E. apply (Hne b Hb'). now rewrite E.
    + split; [exact Hs |]. rewrite He. split; intros; discriminate.
Qed.

Lemma drawn_connector_bindings_witness :
  let st := scene "A" "B" 1 2 in
  exists st3,
    Tools.onPointerUp (dragged "A" "B" "arrow1" 1 2 3) = Some st3 /\
    (Tools.shapes st3 = Tools.shapes st \/
     exists d,
       Tools.shapes st3 = Tools.shapes st ++ [d] /\
       Shape.id d = "arrow1"%string /\
       (forall b, Shape.startBinding d = Some b -> bindsConnectable (Tools.shapes st) b) /\
       (forall e, Shape.endBinding d = Some e -> bindsConnectable (Tools.shapes st) e) /\
       (forall b e, Shape.startBinding d = Some b -> Shape.endBinding d = Some e ->
                    Binding.shapeId b <> Binding.shapeId e)).
Proof.
  intros st. destruct (release "A" "B" "arrow1" 1 2 3) as (st3 & Hup & _).
  exists st3. split; [exact Hup |].
  apply (drawn_connector_bindings st (pressed "A" "B" "arrow1" 1 2 3)
           (dragged "A" "B" "arrow1" 1 2 3) st3 (Point.mk 95 50) [Point.mk 305 50]
           "arrow1" 3).
  - reflexivity.
  - apply press.
  - simpl. rewrite drag by discriminate. reflexivity.
  - exact Hup.
Defined.

Lemma straight_families_keep_angle_witness :
  exists k : Z,
    Utils.angle (Connectors.centerX boxR) (Connectors.centerY boxR)
      (Point.x (Shapes.getBoundaryPointFromAngle boxR (PI / 3)))
      (Point.y (Shapes.getBoundaryPointFromAngle boxR (PI / 3)))
    = PI / 3 + 2 * IZR k * PI.
Proof.
  apply (straight_families_keep_angle boxR (PI / 3));
    [discriminate | simpl; lra | simpl; lra].
Defined.

(** ** shapes.js: the hit region moves with the shape *)

Lemma bool_eq_iff (a b : bool) : (a = true <-> b = true) -> a = b.
Proof. destruct a, b; intuition congruence. Qed.

Lemma pointToSegmentDist_shift (px py x1 y1 x2 y2 a b : R) :
  Utils.pointToSegmentDist (px + a) (py + b) (x1 + a) (y1 + b) (x2 + a) (y2 + b)
    = Utils.pointToSegmentDist px py x1 y1 x2 y2.
Proof.
  unfold Utils.pointToSegmentDist. cbv zeta.
  replace (x2 + a - (x1 + a)) with (x2 - x1) by ring.
  replace (y2 + b - (y1 + b)) with (y2 - y1) by ring.
  replace (px + a - (x1 + a)) with (px - x1) by ring.
  replace (py + b - (y1 + b)) with (py - y1) by ring.
  assert (Hd : forall u v, Utils.distance (px + a) (py + b) (u + a) (v + b)
                           = Utils.distance px py u v).
  { intros u v. unfold Utils.distance.
    replace (u + a - (px + a)) with (u - px) by ring.
    replace (v + b - (py + b)) with (v - py) by ring. reflexivity. }
  destruct (Req_dec_T _ 0); [apply Hd |].
  set (t := Math.max 0 (Math.min 1 _)).
  replace (x1 + a + t * (x2 - x1)) with (x1 + t * (x2 - x1) + a) by ring.
  replace (y1 + b + t * (y2 - y1)) with (y1 + t * (y2 - y1) + b) by ring.
  apply Hd.
Qed.

Lemma segmentWithin_shift (pts : list Point.t) (px py limit a b : R) :
  Shapes.segmentWithin (map (fun p => Point.mk (Point.x p + a) (Point.y p + b)) pts)
                       (px + a) (py + b) limit
    = Shapes.segmentWithin pts px py limit.
Proof.
  unfold Shapes.segmentWithin. rewrite length_map.
  induction (seq 0 (length pts - 1)) as [| i l IH]; [reflexivity |].
  simpl. rewrite IH. f_equal.
  rewrite !list_lookup_fmap.
  destruct (pts !! i) as [p |], (pts !! S i) as [q |]; simpl; try reflexivity.
  now rewrite pointToSegmentDist_shift.
Qed.

Lemma hitFamily_shift (f : Family) (b : Bounds.t) (px py tolerance dx dy : R) :
  hitFamily f (Bounds.mk (Bounds.x b + dx) (Bounds.y b + dy) (Bounds.w b) (Bounds.h b))
            (px + dx) (py + dy) tolerance
    = hitFamily f b px py tolerance.
Proof.
  unfold hitFamily. cbv zeta. simpl.
  destruct f.
  - apply bool_eq_iff. rewrite !pointInRect_true. lra.
  - unfold Utils.pointInEllipse.
    replace (px + dx - (Bounds.x b + dx + Bounds.w b / 2))
      with (px - (Bounds.x b + Bounds.w b / 2)) by ring.
    replace (py + dy - (Bounds.y b + dy + Bounds.h b / 2))
      with (py - (Bounds.y b + Bounds.h b / 2)) by ring.
    reflexivity.
  - unfold Utils.pointInDiamond.
    replace (px + dx - (Bounds.x b + dx + Bounds.w b / 2))
      with (px - (Bounds.x b + Bounds.w b / 2)) by ring.
    replace (py + dy - (Bounds.y b + dy + Bounds.h b / 2))
      with (py - (Bounds.y b + Bounds.h b / 2)) by ring.
    reflexivity.
Qed.

Lemma move_keeps_kind (shape : Shape.t) (dx dy : R) :
  Shape.type (Shapes.move shape dx dy) = Shape.type shape /\
  Shape.strokeWidth (Shapes.move shape dx dy) = Shape.strokeWidth shape /\
  Shape.points (Shapes.move shape dx dy)
    = option_map (map (fun p => Point.mk (Point.x p + dx) (Point.y p + dy)))
                 (Shape.points shape).
Proof.
  unfold Shapes.move. destruct (Shape.points shape) eqn:Hp; simpl; rewrite ?Hp; auto.
Qed.

(** X28.  The hit region moves with the shape: for a line, arrow or
    freehand stroke, and for any shape without a point list, [hitTest]
    on the shape moved by [(dx, dy)] at the point moved by [(dx, dy)] is
    [hitTest] on the shape at the point. *)
Theorem hitTest_moves_with_shape (shape : Shape.t) (px py tolerance dx dy : R) :
  isStroke shape = true \/ Shape.points shape = None ->
  Shapes.hitTest (Shapes.move shape dx dy) (px + dx) (py + dy) tolerance
    = Shapes.hitTest shape px py tolerance.
Proof.
  intros H.
  destruct (move_keeps_kind shape dx dy) as (Hty & Hsw & Hpts).
  destruct (isStroke shape) eqn:Hs.
  - assert (Hs' : isStroke (Shapes.move shape dx dy) = true)
      by (unfold isStroke, Shapes.isLineOrArrow in *; now rewrite Hty).
    destruct (stroke_no_family_case shape Hs) as (Hr & He & Hd).
    destruct (stroke_no_family_case _ Hs') as (Hr' & He' & Hd').
    unfold Shapes.hitTest. cbv zeta. rewrite Hr, He, Hd, Hr', He', Hd'.
    unfold Shapes.isLineOrArrow. rewrite Hty, Hsw, Hpts.
    unfold isStroke, Shapes.isLineOrArrow in Hs.
    destruct (String.eqb (Shape.type shape) "line" || String.eqb (Shape.type shape) "arrow");
      [| simpl in Hs; rewrite Hs];
      (destruct (Shape.points shape) as [pts |]; cbn [option_map];
       [rewrite length_map, !segmentWithin_shift |]; reflexivity).
  - destruct H as [H | Hn]; [discriminate |].
    assert (Hs' : isStroke (Shapes.move shape dx dy) = false)
      by (unfold isStroke, Shapes.isLineOrArrow in *; now rewrite Hty).
    rewrite !hitTest_family by assumption. rewrite Hty.
    rewrite (getBounds_no_points (Shapes.move shape dx dy))
      by (rewrite Hpts, Hn; reflexivity).
    rewrite (getBounds_no_points shape Hn).
    rewrite move_no_points by exact Hn.
    apply (hitFamily_shift _ (Shapes.storedBox shape)).
Qed.

Lemma hitTest_moves_with_shape_witness :
  Shapes.hitTest (Shapes.move strokeExample 5 (-3)) (50 + 5) (52 + -3) 6
    = Shapes.hitTest strokeExample 50 52 6.
Proof.
  apply (hitTest_moves_with_shape strokeExample 50 52 6 5 (-3)). left. reflexivity.
Defined.

(** ** shapes.js: the points of a stroke are hit *)

Lemma distance_self (px py : R) : Utils.distance px py px py = 0.
Proof.
  unfold Utils.distance, Math.sqrt.
  replace ((px - px) ^ 2 + (py - py) ^ 2) with 0 by ring. apply sqrt_0.
Qed.

(** X29.  Every point of a stroke is hit: for a line, arrow or freehand
    stroke, any point on the segment between two consecutive points of
    its list is accepted by [hitTest], as long as the tolerance plus the
    stroke width is not negative. *)
Theorem stroke_points_are_hit (shape : Shape.t) (pts : list Point.t) (i : nat)
    (a b : Point.t) (t tolerance : R) :
  isStroke shape = true ->
  Shape.points shape = Some pts ->
  pts !! i = Some a -> pts !! S i = Some b ->
  0 <= t <= 1 ->
  0 <= tolerance + Shape.strokeWidth shape ->
  Shapes.hitTest shape (Point.x a + t * (Point.x b - Point.x a))
                       (Point.y a + t * (Point.y b - Point.y a)) tolerance = true.
Proof.
  intros Hs Hp Ha Hb Ht Htol.
  destruct (stroke_no_family_case shape Hs) as (Hr & He & Hd).
  unfold Shapes.hitTest. cbv zeta. rewrite Hr, He, Hd, Hp.
  assert (Hlen : (S i < length pts)%nat) by (eapply lookup_lt_Some, Hb).
  assert (H2 : (2 <=? length pts)%nat = true) by (apply Nat.leb_le; lia).
  rewrite H2.
  assert (Hseg : forall limit, 0 <= limit ->
            Shapes.segmentWithin pts (Point.x a + t * (Point.x b - Point.x a))
                                 (Point.y a + t * (Point.y b - Point.y a)) limit = true).
  { intros limit Hlim. unfold Shapes.segmentWithin. apply existsb_exists.
    exists i. split; [apply in_seq; lia |]. rewrite Ha, Hb. apply le_true.
    pose proof (pointToSegmentDist_le
                  (Point.x a + t * (Point.x b - Point.x a))
                  (Point.y a + t * (Point.y b - Point.y a))
                  (Point.x a) (Point.y a) (Point.x b) (Point.y b) t Ht) as Hmin.
    rewrite distance_self in Hmin. lra. }
  unfold isStroke in Hs.
  destruct (Shapes.isLineOrArrow shape); [apply Hseg, Htol |].
  simpl in Hs. rewrite Hs. apply Hseg. lra.
Qed.

Lemma stroke_points_are_hit_witness :
  Shapes.hitTest strokeExample (0 + 1 / 4 * (100 - 0)) (0 + 1 / 4 * (100 - 0)) 6 = true.
Proof.
  apply (stroke_points_are_hit strokeExample [Point.mk 0 0; Point.mk 100 100] 0
           (Point.mk 0 0) (Point.mk 100 100) (1 / 4) 6);
    try reflexivity; simpl; lra.
Defined.

(** ** shapes.js: the anchors *)

Lemma far_pos : 0 < Shapes.far.
Proof. unfold Shapes.far. lra. Qed.

(** The boundary point of a box or rhombus towards a far point on an
    axis through the center. *)
Lemma ray_straight_cardinal (f : Family) (cx cy hw hh c s : R) :
  f <> Elliptical -> 0 < hw -> 0 < hh ->
  ((c = 1 \/ c = -1) /\ s = 0) \/ (c = 0 /\ (s = 1 \/ s = -1)) ->
  rayFromCenter f cx cy (cx + c * Shapes.far) (cy + s * Shapes.far) hw hh
    = Point.mk (cx + c * hw) (cy + s * hh).
Proof.
  intros Hf Hw Hh Hcs. pose proof far_pos as Hfar.
  set (p := Point.mk (cx + c * hw) (cy + s * hh)).
  assert (Hout : onOutline f cx cy hw hh p).
  { unfold onOutline, p. cbv zeta. simpl. rewrite !offset_cancel.
    assert (Hc : Rabs (c * hw) / hw = Rabs c).
    { rewrite Rabs_scaled by lra. field. lra. }
    assert (Hs : Rabs (s * hh) / hh = Rabs s).
    { rewrite Rabs_scaled by lra. field. lra. }
    rewrite Hc, Hs.
    assert (Hm1 : Rabs (-1) = 1) by (unfold Rabs; destruct (Rcase_abs (-1)); lra).
    destruct f; [| contradiction |];
      destruct Hcs as [[[-> | ->] ->] | [-> [-> | ->]]];
      rewrite ?Rabs_R0, ?Rabs_R1, ?Hm1;
      try (apply Rmax_left; lra); try (apply Rmax_right; lra); lra. }
  rewrite <- (ray_fixes_outline f cx cy hw hh p Hf Hw Hh Hout).
  apply (ray_homogeneous f cx cy (Point.x p) (Point.y p) _ _ hw hh
           (Shapes.far / (if Req_dec_T s 0 then hw else hh))); try assumption.
  - destruct (Req_dec_T s 0); apply Rdiv_lt_0_compat; lra.
  - apply (outline_off_center f cx cy hw hh p Hw Hh Hout).
  - unfold p. simpl. rewrite !offset_cancel.
    destruct Hcs as [[Hc ->] | [-> Hs]].
    + destruct (Req_dec_T 0 0); [field; lra | lra].
    + ring.
  - unfold p. simpl. rewrite !offset_cancel.
    destruct Hcs as [[Hc ->] | [-> Hs]].
    + ring.
    + destruct (Req_dec_T s 0); [lra | field; lra].
Qed.

Lemma rayEllipse_unit (cx cy rx ry c s : R) :
  c * c + s * s = 1 ->
  Shapes._rayEllipseFromCenter cx cy (cx + c * Shapes.far) (cy + s * Shapes.far) rx ry
    = Point.mk (cx + rx * c) (cy + ry * s).
Proof.
  intros H1. pose proof far_pos as Hfar.
  unfold Shapes._rayEllipseFromCenter, Math.cos, Math.sin. cbv zeta.
  rewrite !offset_cancel.
  destruct (cos_sin_atan2_unit Shapes.far s c Hfar) as [Hc Hs]; [lra |].
  rewrite (Rmult_comm c), (Rmult_comm s), Hc, Hs.
  destruct (Req_dec_T (Shapes.far * c) 0) as [Ec | Ec],
           (Req_dec_T (Shapes.far * s) 0) as [Es | Es]; try reflexivity.
  exfalso. assert (c = 0) by nra. assert (s = 0) by nra. subst. lra.
Qed.

Lemma rayFromCenter_cardinal (f : Family) (cx cy hw hh c s : R) :
  0 < hw -> 0 < hh ->
  ((c = 1 \/ c = -1) /\ s = 0) \/ (c = 0 /\ (s = 1 \/ s = -1)) ->
  rayFromCenter f cx cy (cx + c * Shapes.far) (cy + s * Shapes.far) hw hh
    = Point.mk (cx + c * hw) (cy + s * hh).
Proof.
  intros Hw Hh Hcs.
  destruct f; try (apply ray_straight_cardinal; (discriminate || assumption)).
  simpl rayFromCenter. rewrite rayEllipse_unit by nra.
  now rewrite (Rmult_comm hw), (Rmult_comm hh).
Qed.

(** X30.  The four side anchors of [getAnchors] are the boundary points
    at the angles 0, PI/2, PI and -PI/2: for a shape of positive width
    and height, of any family, [getBoundaryPointFromAngle] at these
    angles gives the right, bottom, left and top anchor, and the center
    anchor is the point the rays start from. *)
Theorem anchors_are_cardinal_boundary_points (shape : Shape.t) :
  0 < Bounds.w (Shapes.getBounds shape) ->
  0 < Bounds.h (Shapes.getBounds shape) ->
  Shapes.getBoundaryPointFromAngle shape 0 = Shapes.right (Shapes.getAnchors shape) /\
  Shapes.getBoundaryPointFromAngle shape (PI / 2) = Shapes.bottom (Shapes.getAnchors shape) /\
  Shapes.getBoundaryPointFromAngle shape PI = Shapes.left (Shapes.getAnchors shape) /\
  Shapes.getBoundaryPointFromAngle shape (- (PI / 2)) = Shapes.top (Shapes.getAnchors shape) /\
  Shapes.center (Shapes.getAnchors shape)
    = Point.mk (Connectors.centerX shape) (Connectors.centerY shape).
Proof.
  intros Hw Hh. rewrite !getBoundaryPointFromAngle_family.
  unfold Shapes.getAnchors, Connectors.centerX, Connectors.centerY. cbv zeta. simpl.
  set (b := Shapes.getBounds shape) in *.
  rewrite cos_0, sin_0, cos_PI2, sin_PI2, cos_PI, sin_PI, cos_neg, sin_neg,
    cos_PI2, sin_PI2.
  replace (- 0) with 0 by ring.
  rewrite !rayFromCenter_cardinal by (lra || (right; split; auto) || (left; split; auto)).
  repeat split; apply (f_equal2 Point.mk); field.
Qed.

Lemma anchors_are_cardinal_boundary_points_witness :
  Shapes.getBoundaryPointFromAngle ellipseExample 0
    = Shapes.right (Shapes.getAnchors ellipseExample) /\
  Shapes.getBoundaryPointFromAngle ellipseExample (PI / 2)
    = Shapes.bottom (Shapes.getAnchors ellipseExample) /\
  Shapes.getBoundaryPointFromAngle ellipseExample PI
    = Shapes.left (Shapes.getAnchors ellipseExample) /\
  Shapes.getBoundaryPointFromAngle ellipseExample (- (PI / 2))
    = Shapes.top (Shapes.getAnchors ellipseExample) /\
  Shapes.center (Shapes.getAnchors ellipseExample)
    = Point.mk (Connectors.centerX ellipseExample) (Connectors.centerY ellipseExample).
Proof.
  apply (anchors_are_cardinal_boundary_points ellipseExample); simpl; lra.
Defined.
